(** * Recommendation-algorithm feeder: the engagement-simulation core

    A shallow embedding of the TypeScript sources

      - [src/types/index.ts]                         (VideoInfo, MatcherConfig)
      - [src/matchers/keyword-matcher.ts]            (KeywordMatcher)
      - [src/services/match-service.ts]              (MatchService)
      - [src/services/history-service.ts]            (HistoryService)
      - [src/platforms/bilibili/bilibili-simulator.ts] (BilibiliPlaybackSimulator)
      - [src/services/concurrent-player.ts]          (ConcurrentPlayer)
      - [src/services/simulated-playback-manager.ts] (SimulatedPlaybackManager)
      - [src/core/feeder.ts]                         (AlgorithmFeeder)
      - [src/platforms/bilibili/bilibili-platform.ts] (getRecommendedVideos)

    Conventions of the embedding.

      - JavaScript strings are [string]; [toLowerCase] folds the ASCII
        letters, the other code units are left as they are.
      - JavaScript numbers that carry fractions (durations in seconds,
        [Math.random()] draws) are rationals [Q]; millisecond clocks and
        counters are [Z] and [nat].
      - What the environment decides (network replies, [Math.random()],
        [Date.now()] differences) is an explicit argument of the function
        that consumes it.
      - The history file is a list of lines; the file system accepts every
        append.  The aggregate statistics document is not modelled. *)

From Stdlib Require Import List String Ascii Bool Arith ZArith QArith Qminmax Qround Lia Lqa.
From Stdlib Require Import Permutation.
Import ListNotations.

Local Open Scope string_scope.
Local Open Scope list_scope.

(** ** JavaScript string primitives *)

Module JsString.

Definition lower_ascii (c : ascii) : ascii :=
  let n := nat_of_ascii c in
  if (65 <=? n)%nat && (n <=? 90)%nat then ascii_of_nat (n + 32) else c.

(** [s.toLowerCase()] *)
Fixpoint toLowerCase (s : string) : string :=
  match s with
  | EmptyString => EmptyString
  | String c rest => String (lower_ascii c) (toLowerCase rest)
  end.

(** [text.includes(kw)]: [kw] occurs in [text] at some offset. *)
Fixpoint includes (text kw : string) : bool :=
  if String.prefix kw text then true
  else match text with
       | EmptyString => false
       | String _ rest => includes rest kw
       end.

(** [texts.join(' ')] *)
Definition join (sep : string) (texts : list string) : string :=
  String.concat sep texts.

(** Truthiness of a string: only the empty string is falsy. *)
Definition truthy (s : string) : bool :=
  match s with EmptyString => false | _ => true end.

End JsString.

(** ** src/types/index.ts *)

Inductive VideoSource : Type := home | related | short | search.

Record VideoInfo : Type := mkVideo {
  id : string;
  title : string;
  author : string;
  url : string;
  duration : option Q;
  tags : option (list string)
}.

Inductive MatchMode : Type := any | all.

Record MatcherConfig : Type := mkMatcherConfig {
  keywords : list string;
  matchMode : MatchMode;
  caseSensitive : bool
}.

Definition VideoSource_eqb (a b : VideoSource) : bool :=
  match a, b with
  | home, home | related, related | short, short | search, search => true
  | _, _ => false
  end.

(** ** src/matchers/keyword-matcher.ts *)

Module KeywordMatcher.
Import JsString.

Definition prepareTextForMatching (config : MatcherConfig) (video : VideoInfo) : string :=
  let texts := [title video] in
  let texts := if truthy (author video) then texts ++ [author video] else texts in
  let texts := match tags video with
               | Some (t :: ts) => texts ++ (t :: ts)
               | _ => texts
               end in
  let combinedText := join " " texts in
  if caseSensitive config then combinedText else toLowerCase combinedText.

Definition performMatching (config : MatcherConfig) (text : string) : bool :=
  let kws := if caseSensitive config then keywords config
             else map toLowerCase (keywords config) in
  match matchMode config with
  | all => forallb (fun keyword => includes text keyword) kws
  | any => existsb (fun keyword => includes text keyword) kws
  end.

Definition match_ (config : MatcherConfig) (video : VideoInfo) : bool :=
  if (List.length (keywords config) =? 0)%nat then false
  else performMatching config (prepareTextForMatching config video).

End KeywordMatcher.

(** ** src/services/match-service.ts *)

Module MatchService.
Import JsString.

(** The search text of [checkVideoMatch]: the template
    [`${video.title} ${video.author || ''}`], lower-cased. *)
Definition searchText (video : VideoInfo) : string :=
  toLowerCase (title video ++ " " ++ author video).

Definition keywordToCheck (config : MatcherConfig) (keyword : string) : string :=
  if caseSensitive config then keyword else toLowerCase keyword.

(** The [for] loop collecting [matchedKeywords]. *)
Definition collectMatched (config : MatcherConfig) (video : VideoInfo) : list string :=
  filter (fun keyword => includes (searchText video) (keywordToCheck config keyword))
         (keywords config).

Definition checkVideoMatch (config : MatcherConfig) (video : VideoInfo) : list string :=
  let matchedKeywords := collectMatched config video in
  match matchMode config with
  | all => if (List.length matchedKeywords =? List.length (keywords config))%nat
           then matchedKeywords else []
  | any => matchedKeywords
  end.

Definition isVideoMatched (config : MatcherConfig) (video : VideoInfo) : bool :=
  negb (List.length (checkVideoMatch config video) =? 0)%nat.

End MatchService.

(** ** src/services/history-service.ts *)

Module HistoryService.

Record SimulatedData : Type := mkSimulatedData {
  sd_isSimulated : bool;
  sd_simulatedWatchDuration : option Q;
  sd_actualWaitTime : option Z;
  sd_playbackSpeed : option Q
}.

(** One record of [watch-history.jsonl] (the timestamp is left out). *)
Record WatchHistory : Type := mkWatchHistory {
  video : VideoInfo;
  playDuration : Z;
  matchedKeywords : list string;
  source : VideoSource;
  sessionId : string;
  platform : string;
  isSimulated : bool;
  simulatedWatchDuration : option Q;
  actualWaitTime : option Z;
  playbackSpeed : option Q
}.

(** A line of the file either parses to a record that has a [video.id],
    or makes [JSON.parse] / the field access throw (the readers skip it). *)
Inductive HistoryLine : Type :=
| Parsed (record : WatchHistory)
| Garbled.

(** The service: its platform tag and the history file, [None] while the
    file does not exist. *)
Record t : Type := mkStore {
  servicePlatform : string;
  historyFile : option (list HistoryLine)
}.

Definition appendFileSync (file : option (list HistoryLine)) (line : HistoryLine)
  : option (list HistoryLine) :=
  match file with
  | None => Some [line]
  | Some lines => Some (lines ++ [line])
  end.

Definition recordWatch (store : t) (v : VideoInfo) (playDuration : Z)
    (matchedKeywords : list string) (source : VideoSource) (sessionId : string)
    (simulatedData : option SimulatedData) : t :=
  let watchRecord :=
    {| video := v;
       playDuration := playDuration;
       matchedKeywords := matchedKeywords;
       source := source;
       sessionId := sessionId;
       platform := servicePlatform store;
       isSimulated := match simulatedData with
                      | Some d => sd_isSimulated d
                      | None => false
                      end;
       simulatedWatchDuration :=
         match simulatedData with Some d => sd_simulatedWatchDuration d | None => None end;
       actualWaitTime :=
         match simulatedData with Some d => sd_actualWaitTime d | None => None end;
       playbackSpeed :=
         match simulatedData with Some d => sd_playbackSpeed d | None => None end |} in
  {| servicePlatform := servicePlatform store;
     historyFile := appendFileSync (historyFile store) (Parsed watchRecord) |}.

(** The body of the [for] loop of [hasWatched] on one line. *)
Definition lineHasId (videoId : string) (line : HistoryLine) : bool :=
  match line with
  | Parsed record => String.eqb (id (video record)) videoId
  | Garbled => false
  end.

Definition hasWatched (store : t) (videoId : string) : bool :=
  match historyFile store with
  | None => false
  | Some lines => existsb (lineHasId videoId) lines
  end.

(** The records of the file, oldest first (what [getRecentHistory] parses). *)
Definition records (store : t) : list WatchHistory :=
  match historyFile store with
  | None => []
  | Some lines =>
      flat_map (fun l => match l with Parsed r => [r] | Garbled => [] end) lines
  end.

End HistoryService.

(** The reply of an awaited request: a value, or the promise rejects. *)
Inductive Reply (A : Type) : Type :=
| Resolved (a : A)
| Rejected.
Arguments Resolved {A} a.
Arguments Rejected {A}.

(** ** src/platforms/bilibili/bilibili-simulator.ts *)

Module BilibiliPlaybackSimulator.
Local Open Scope Q_scope.

Record t : Type := mkSimulator {
  playbackSpeed : Q;
  durationVariation : Q
}.

(** The constructor clamps the speed to 1..5 and the variation to 0..50. *)
Definition new (playbackSpeed durationVariation : Q) : t :=
  {| playbackSpeed := Qmax 1 (Qmin playbackSpeed 5);
     durationVariation := Qmax 0 (Qmin durationVariation 50) |}.

(** What [getVideoInfo] resolves to; [duration] may be missing in the reply. *)
Record ResolvedVideo : Type := mkResolved {
  aid : Z;
  cid : Z;
  resolvedDuration : option Q
}.

(** [x || dflt] on an optional number: undefined and 0 are falsy. *)
Definition orDefault (x : option Q) (dflt : Q) : Q :=
  match x with
  | Some q => if Qeq_bool q 0 then dflt else q
  | None => dflt
  end.

Definition randomVariation (sim : t) (rnd : Q) : Q :=
  let halfVariation := durationVariation sim / 100 / 2 in
  (1 - halfVariation) + rnd * (halfVariation * 2).

Definition actualVideoDuration (videoInfo : ResolvedVideo) : Q :=
  orDefault (resolvedDuration videoInfo) 3600.

Definition maxSafeSimulatedDuration (videoInfo : ResolvedVideo) (rndBuffer : Q) : Q :=
  let bufferTime := 1 + rndBuffer * 2 in
  Qmax 5 (actualVideoDuration videoInfo - bufferTime).

(** The [safeSimulatedDuration] that steps 2.5 and 2.6 of [simulatePlayback]
    compute from the two [Math.random()] draws [rndVariation] and
    [rndBuffer] when the requests of steps 1 and 2 are answered ([page],
    [info]), and the 0 of the [catch] when one of them fails.  This is the
    value [simulatePlayback] returns provided steps 3 and 4 complete; the
    whole function, whose first heartbeat throws for a reply without
    duration, is [BilibiliPlaybackRun.simulatePlayback]. *)
Definition safeSimulatedDuration (sim : t) (simulatedDuration : Q)
    (page : Reply unit) (info : Reply ResolvedVideo)
    (rndVariation rndBuffer : Q) : Q :=
  match page, info with
  | Resolved _, Resolved videoInfo =>
      let randomizedDuration := simulatedDuration * randomVariation sim rndVariation in
      Qmin randomizedDuration (maxSafeSimulatedDuration videoInfo rndBuffer)
  | _, _ => 0
  end.

(** A draw of [Math.random()] lies in [0, 1). *)
Definition isRandom (r : Q) : Prop := 0 <= r /\ r < 1.

End BilibiliPlaybackSimulator.

(** ** Control flow: state passing with exceptions

    [async] bodies with [try / catch / finally] are written in a state
    monad whose computations either return or throw. *)

Module Eff.

Inductive Outcome (S A : Type) : Type :=
| Returned (s : S) (a : A)
| Thrown (s : S).
Arguments Returned {S A} s a.
Arguments Thrown {S A} s.

Definition M (S A : Type) : Type := S -> Outcome S A.

Definition ret {S A} (a : A) : M S A := fun s => Returned s a.

Definition bind {S A B} (c : M S A) (k : A -> M S B) : M S B :=
  fun s => match c s with
           | Returned s1 a => k a s1
           | Thrown s1 => Thrown s1
           end.

Definition throw {S A} : M S A := fun s => Thrown s.

Definition get {S} : M S S := fun s => Returned s s.

Definition modify {S} (f : S -> S) : M S unit := fun s => Returned (f s) tt.

(** [try { body } catch { handler }] *)
Definition tryCatch {S A} (body handler : M S A) : M S A :=
  fun s => match body s with
           | Returned s1 a => Returned s1 a
           | Thrown s1 => handler s1
           end.

(** [try { body } finally { fin }]: [fin] runs on both exits and the
    exit of [body] is kept, unless [fin] itself throws. *)
Definition tryFinally {S} (body fin : M S unit) : M S unit :=
  fun s => match body s with
           | Returned s1 _ => fin s1
           | Thrown s1 => match fin s1 with
                          | Returned s2 _ => Thrown s2
                          | Thrown s2 => Thrown s2
                          end
           end.

Definition tryCatchFinally {S} (body handler fin : M S unit) : M S unit :=
  tryFinally (tryCatch body handler) fin.

(** The state a computation leaves, whichever way it exits. *)
Definition finalState {S A} (o : Outcome S A) : S :=
  match o with Returned s _ => s | Thrown s => s end.

Definition returns {S A} (o : Outcome S A) : bool :=
  match o with Returned _ _ => true | Thrown _ => false end.

End Eff.

Declare Scope eff_scope.
Delimit Scope eff_scope with eff.
Notation "x <- c1 ;; c2" := (Eff.bind c1 (fun x => c2))
  (at level 61, c1 at next level, right associativity) : eff_scope.
Notation "c1 ;; c2" := (Eff.bind c1 (fun _ => c2))
  (at level 61, right associativity) : eff_scope.

(** How an awaited [platform.playVideo] (and the wait that follows it) ends;
    [elapsed] is the [Date.now() - startTime] the caller then measures, in
    milliseconds. *)
Inductive PlayResult : Type :=
| PlayOk (elapsed : Z)
| PlayThrows (elapsed : Z).

Definition elapsedOf (r : PlayResult) : Z :=
  match r with PlayOk e => e | PlayThrows e => e end.

(** [await] of a play: returns, or throws into the enclosing [try]. *)
Definition awaitPlay {S} (r : PlayResult) : Eff.M S unit :=
  match r with
  | PlayOk _ => Eff.ret tt
  | PlayThrows _ => Eff.throw
  end.

(** [await] of a request: its value, or a throw into the enclosing [try]. *)
Definition awaitReply {S A} (r : Reply A) : Eff.M S A :=
  match r with
  | Resolved a => Eff.ret a
  | Rejected => Eff.throw
  end.

(** In-place update of the element at a position (an object reached through
    a reference held elsewhere); out of range nothing changes. *)
Fixpoint updateAt {A} (i : nat) (f : A -> A) (l : list A) : list A :=
  match l, i with
  | [], _ => []
  | x :: rest, O => f x :: rest
  | x :: rest, S j => x :: updateAt j f rest
  end.

(** [l.findIndex(p)] *)
Fixpoint findIndex {A} (p : A -> bool) (l : list A) : option nat :=
  match l with
  | [] => None
  | x :: rest => if p x then Some O
                 else match findIndex p rest with
                      | Some j => Some (S j)
                      | None => None
                      end
  end.

(** ** src/types/index.ts: the application configuration

    Optional numeric settings are [option Z]; [x || dflt] takes the default
    when the setting is missing or 0. *)

Inductive SearchStrategy : Type := random | sequential | weighted.

Record AppConfig : Type := mkAppConfig {
  platformType : string;
  matcher : MatcherConfig;
  playDuration : Z;
  initialVideoSource : option VideoSource;
  concurrentPlayers : option Z;
  enableActiveSearch : bool;
  activeSearchThreshold : option Z;
  activeSearchStrategy : option SearchStrategy;
  maxVideosPerQueue : option Z;
  maxQueueSize : option Z;
  useSimulatedPlayback : bool
}.

Definition orZ (x : option Z) (dflt : Z) : Z :=
  match x with
  | Some z => if (z =? 0)%Z then dflt else z
  | None => dflt
  end.

(** ** src/services/concurrent-player.ts *)

Module ConcurrentPlayer.
Import JsString.

Inductive TaskStatus : Type := pending | playing | completed | failed.

Definition isPending (s : TaskStatus) : bool :=
  match s with pending => true | _ => false end.

Record PlayTask : Type := mkTask {
  taskId : nat;                    (* the N of `task-N` *)
  video : VideoInfo;
  matchedKeywords : list string;
  source : VideoSource;
  status : TaskStatus;
  startTime : option Z;
  duration : option Z;
  playerId : option nat
}.

(** [currentTask] refers to a task object of [taskQueue]; the reference is
    the position of the task in the queue, which only ever grows. *)
Record PlayerInstance : Type := mkPlayer {
  playerNo : nat;
  isActive : bool;
  currentTask : option nat
}.

(** [playVideoCalls] is the log of the videos handed to
    [player.platform.playVideo], in call order. *)
Record t : Type := mkPool {
  players : list PlayerInstance;
  taskQueue : list PlayTask;
  completedTasks : list PlayTask;
  config : AppConfig;
  sessionId : string;
  isRunning : bool;
  taskIdCounter : nat;
  playVideoCalls : list VideoInfo
}.

(** The state the methods run on: the shared history service and the pool. *)
Definition St : Type := (HistoryService.t * t)%type.

Definition withStatus (s : TaskStatus) (task : PlayTask) : PlayTask :=
  mkTask (taskId task) (video task) (matchedKeywords task) (source task) s
         (startTime task) (duration task) (playerId task).

Definition withDuration (d : Z) (task : PlayTask) : PlayTask :=
  mkTask (taskId task) (video task) (matchedKeywords task) (source task) (status task)
         (startTime task) (Some d) (playerId task).

Definition withStart (w : nat) (now : Z) (task : PlayTask) : PlayTask :=
  mkTask (taskId task) (video task) (matchedKeywords task) (source task) (status task)
         (Some now) (duration task) (Some w).

Definition setPlayers (ps : list PlayerInstance) (pool : t) : t :=
  mkPool ps (taskQueue pool) (completedTasks pool) (config pool) (sessionId pool)
         (isRunning pool) (taskIdCounter pool) (playVideoCalls pool).

Definition setTaskQueue (q : list PlayTask) (pool : t) : t :=
  mkPool (players pool) q (completedTasks pool) (config pool) (sessionId pool)
         (isRunning pool) (taskIdCounter pool) (playVideoCalls pool).

Definition setCompleted (c : list PlayTask) (pool : t) : t :=
  mkPool (players pool) (taskQueue pool) c (config pool) (sessionId pool)
         (isRunning pool) (taskIdCounter pool) (playVideoCalls pool).

Definition setCounter (n : nat) (pool : t) : t :=
  mkPool (players pool) (taskQueue pool) (completedTasks pool) (config pool)
         (sessionId pool) (isRunning pool) n (playVideoCalls pool).

Definition logPlayVideo (v : VideoInfo) (pool : t) : t :=
  mkPool (players pool) (taskQueue pool) (completedTasks pool) (config pool)
         (sessionId pool) (isRunning pool) (taskIdCounter pool)
         (playVideoCalls pool ++ [v]).

(** Mutation of the task object at reference [i]. *)
Definition mutateTask (i : nat) (f : PlayTask -> PlayTask) (pool : t) : t :=
  setTaskQueue (updateAt i f (taskQueue pool)) pool.

Definition getVideoMatchedKeywords (pool : t) (v : VideoInfo)
    (allKeywords : list string) : list string :=
  let searchText := toLowerCase (title v ++ " " ++ author v) in
  filter (fun keyword =>
            let keywordLower := if caseSensitive (matcher (config pool)) then keyword
                                else toLowerCase keyword in
            includes searchText keywordLower)
         allKeywords.

(** The [videos.map] of [addToQueue]; [counter] is [taskIdCounter] before
    the task is numbered. *)
Fixpoint newTasks (pool : t) (counter : nat) (videos : list VideoInfo)
    (matchedKeywords : list string) (source : VideoSource) : list PlayTask :=
  match videos with
  | [] => []
  | v :: rest =>
      mkTask (S counter) v (getVideoMatchedKeywords pool v matchedKeywords) source
             pending None None None
      :: newTasks pool (S counter) rest matchedKeywords source
  end.

Definition addToQueue (pool : t) (videos : list VideoInfo)
    (matchedKeywords : list string) (source : VideoSource) : t :=
  let tasks := newTasks pool (taskIdCounter pool) videos matchedKeywords source in
  setCounter (taskIdCounter pool + List.length videos)
             (setTaskQueue (taskQueue pool ++ tasks) pool).

(** [getNextTask]: the reference of the first pending task, which becomes
    [playing]. *)
Definition getNextTask (pool : t) : option nat * t :=
  match findIndex (fun task => isPending (status task)) (taskQueue pool) with
  | Some i => (Some i, mutateTask i (withStatus playing) pool)
  | None => (None, pool)
  end.

(** [executeTask] up to its first [await]: the bookkeeping and the call of
    [player.platform.playVideo(task.video)]. *)
Definition executeTask_begin (now : Z) (w i : nat) (pool : t) : t :=
  match nth_error (players pool) w, nth_error (taskQueue pool) i with
  | Some player, Some task =>
      let pool1 := setPlayers
                     (updateAt w (fun p => mkPlayer (playerNo p) true (Some i))
                               (players pool)) pool in
      let pool2 := mutateTask i (withStart (playerNo player) now) pool1 in
      logPlayVideo (video task) pool2
  | _, _ => pool
  end.

Definition recordTask (i : nat) (actualDuration : Z) (st : St) : St :=
  let (history, pool) := st in
  match nth_error (taskQueue pool) i with
  | Some task =>
      (HistoryService.recordWatch history (video task) actualDuration
         (matchedKeywords task) (source task) (sessionId pool) None, pool)
  | None => st
  end.

(** The statements of the [try] block after its awaits. *)
Definition completeTask (i : nat) (actualDuration : Z) (st : St) : St :=
  let st1 := (fst st,
              mutateTask i (fun task => withStatus completed
                                          (withDuration actualDuration task))
                         (snd st)) in
  recordTask i actualDuration st1.

(** The [catch] block. *)
Definition failTask (i : nat) (actualDuration : Z) (st : St) : St :=
  let st1 := (fst st,
              mutateTask i (fun task => withStatus failed
                                          (withDuration actualDuration task))
                         (snd st)) in
  if (actualDuration >? 1000)%Z then recordTask i actualDuration st1 else st1.

(** The [finally] block. *)
Definition releasePlayer (w i : nat) (st : St) : St :=
  let pool := snd st in
  let pool1 := setPlayers
                 (updateAt w (fun p => mkPlayer (playerNo p) false None)
                           (players pool)) pool in
  match nth_error (taskQueue pool1) i with
  | Some task => (fst st, setCompleted (completedTasks pool1 ++ [task]) pool1)
  | None => (fst st, pool1)
  end.

(** [executeTask] from the point where the awaited play settles. *)
Definition executeTask_resume (w i : nat) (r : PlayResult) : Eff.M St unit :=
  Eff.tryCatchFinally
    (awaitPlay r ;; Eff.modify (completeTask i (elapsedOf r)))%eff
    (Eff.modify (failTask i (elapsedOf r)))
    (Eff.modify (releasePlayer w i)).

(** One turn of the [while] loop of [playerWorker], up to the point where
    it either goes back to the loop head or suspends on the play. *)
Definition playerWorker_poll (now : Z) (w : nat) (st : St) : St :=
  let (history, pool) := st in
  match nth_error (players pool) w with
  | None => st
  | Some player =>
      if negb (isRunning pool) || isActive player then st
      else
        match getNextTask pool with
        | (None, pool1) => (history, pool1)
        | (Some i, pool1) =>
            match nth_error (taskQueue pool1) i with
            | None => (history, pool1)
            | Some task =>
                if HistoryService.hasWatched history (id (video task)) then
                  let pool2 := mutateTask i (withStatus completed) pool1 in
                  (history,
                   setCompleted (completedTasks pool2 ++ [withStatus completed task])
                                pool2)
                else (history, executeTask_begin now w i pool1)
            end
        end
  end.

(** The rest of that turn once the play has settled; the [catch] of the
    loop body logs and waits. *)
Definition playerWorker_resume (w : nat) (r : PlayResult) : Eff.M St unit :=
  fun st =>
    match nth_error (players (snd st)) w with
    | Some player =>
        match currentTask player with
        | Some i => Eff.tryCatch (executeTask_resume w i r) (Eff.ret tt) st
        | None => Eff.ret tt st
        end
    | None => Eff.ret tt st
    end.

(** The pool as a transition system: every worker interleaves with the
    others at its suspension points. *)
Inductive Action : Type :=
| Poll (w : nat) (now : Z)
| Resume (w : nat) (r : PlayResult).

Definition step (a : Action) (st : St) : St :=
  match a with
  | Poll w now => playerWorker_poll now w st
  | Resume w r => Eff.finalState (playerWorker_resume w r st)
  end.

Definition run (actions : list Action) (st : St) : St :=
  fold_left (fun s a => step a s) actions st.

Definition pendingCount (pool : t) : nat :=
  List.length (filter (fun task => isPending (status task)) (taskQueue pool)).

End ConcurrentPlayer.

(** ** src/services/simulated-playback-manager.ts *)

Module SimulatedPlaybackManager.

(** An entry [{video, source}] of [videoQueue]. *)
Record QueueItem : Type := mkItem {
  itemVideo : VideoInfo;
  itemSource : VideoSource
}.

(** [scheduledStarts] counts the [setImmediate] callbacks not yet run;
    [inFlight] holds the [processVideoAsync] promises not yet settled and
    [simulateCalls] logs the videos handed to [simulatePlayback]. *)
Record t : Type := mkManager {
  playbackSpeed : Q;
  matchConfig : MatcherConfig;
  sessionId : string;
  concurrentWorkers : nat;
  simulators : nat;
  isProcessing : bool;
  currentVideoSource : VideoSource;
  activeWorkers : Z;
  videoQueue : list QueueItem;
  scheduledStarts : nat;
  inFlight : list QueueItem;
  simulateCalls : list VideoInfo
}.

Definition St : Type := (HistoryService.t * t)%type.

Definition setQueue (q : list QueueItem) (scheduled : nat) (m : t) : t :=
  mkManager (playbackSpeed m) (matchConfig m) (sessionId m) (concurrentWorkers m)
            (simulators m) (isProcessing m) (currentVideoSource m) (activeWorkers m)
            q scheduled (inFlight m) (simulateCalls m).

Definition setProcessing (b : bool) (workers : Z) (scheduled : nat) (m : t) : t :=
  mkManager (playbackSpeed m) (matchConfig m) (sessionId m) (concurrentWorkers m)
            (simulators m) b (currentVideoSource m) workers
            (videoQueue m) scheduled (inFlight m) (simulateCalls m).

Definition setFlight (workers : Z) (q flight : list QueueItem)
    (calls : list VideoInfo) (m : t) : t :=
  mkManager (playbackSpeed m) (matchConfig m) (sessionId m) (concurrentWorkers m)
            (simulators m) (isProcessing m) (currentVideoSource m) workers
            q (scheduledStarts m) flight calls.

(** [this.videoQueue.some(queuedVideo => queuedVideo.video.id === video.id)] *)
Definition queued (m : t) (v : VideoInfo) : bool :=
  existsb (fun item => String.eqb (id (itemVideo item)) (id v)) (videoQueue m).

(** The predicate of [videos.filter] in [addToQueue]. *)
Definition isNew (history : HistoryService.t) (m : t) (v : VideoInfo) : bool :=
  if HistoryService.hasWatched history (id v) then false
  else if queued m v then false
  else true.

Definition addToQueue (history : HistoryService.t) (m : t)
    (videos : list VideoInfo) (source : option VideoSource) : t :=
  let sourceToUse := match source with
                     | Some s => s
                     | None => currentVideoSource m
                     end in
  let newVideos := filter (isNew history m) videos in
  if (0 <? List.length newVideos)%nat then
    let videoItems := map (fun v => mkItem v sourceToUse) newVideos in
    setQueue (videoQueue m ++ videoItems)
             (if isProcessing m then scheduledStarts m else S (scheduledStarts m))
             m
  else m.

(** A [setImmediate] callback runs: [startProcessing] up to its loop. *)
Definition startProcessing (m : t) : t :=
  match scheduledStarts m with
  | O => m
  | S n =>
      if isProcessing m then setProcessing true (activeWorkers m) n m
      else if (simulators m =? 0)%nat then setProcessing false (activeWorkers m) n m
      else setProcessing true (activeWorkers m) n m
  end.

(** One turn of [processingLoop]: with a free worker the head of the
    queue is shifted and handed to [processVideoAsync]. *)
Definition processingLoop_turn (m : t) : t :=
  if negb (isProcessing m) then m
  else match videoQueue m with
       | [] => m
       | videoItem :: rest =>
           if (activeWorkers m >=? Z.of_nat (concurrentWorkers m))%Z then m
           else setFlight (activeWorkers m + 1) rest
                          (inFlight m ++ [videoItem])
                          (simulateCalls m ++ [itemVideo videoItem]) m
       end.

Fixpoint removeAt {A} (k : nat) (l : list A) : list A :=
  match l, k with
  | [], _ => []
  | _ :: rest, O => rest
  | x :: rest, S j => x :: removeAt j rest
  end.

(** The [k]-th promise in flight settles: [processVideoWithSource] after
    its [await], then the [finally] of [processVideoAsync].
    [actualSimulatedDuration] is what [simulatePlayback] returned and
    [playDuration] the time measured around it. *)
Definition processVideo_settle (k : nat) (actualSimulatedDuration : Q)
    (playDuration : Z) (st : St) : St :=
  let (history, m) := st in
  match nth_error (inFlight m) k with
  | None => st
  | Some item =>
      let matchedKeywords := MatchService.checkVideoMatch (matchConfig m) (itemVideo item) in
      let history1 :=
        HistoryService.recordWatch history (itemVideo item) playDuration matchedKeywords
          (itemSource item) (sessionId m)
          (Some (HistoryService.mkSimulatedData true (Some actualSimulatedDuration)
                   (Some playDuration) (Some (playbackSpeed m)))) in
      (history1,
       setFlight (activeWorkers m - 1) (videoQueue m) (removeAt k (inFlight m))
                 (simulateCalls m) m)
  end.

End SimulatedPlaybackManager.

(** ** src/core/feeder.ts *)

Module AlgorithmFeeder.
Import JsString.
Local Open Scope eff_scope.

(** What the platform answers during one cycle of the loop. *)
Record Platform : Type := mkPlatform {
  getRecommendedVideos : Reply (list VideoInfo);
  (** the optional method [searchVideos(keyword, limit)] *)
  searchVideos : option (string -> Z -> Reply (list VideoInfo));
  (** [getCurrentVideoSource()], when the platform has it *)
  getPlatformVideoSource : option VideoSource;
  (** how the n-th call of [playVideo] ends *)
  playVideo : nat -> PlayResult;
  (** the [Math.random()] draw of [selectSearchKeyword] *)
  mathRandom : Q
}.

(** [playVideoCalls] logs the videos the feeder itself hands to
    [platform.playVideo]. *)
Record t : Type := mkFeeder {
  config : AppConfig;
  historyService : HistoryService.t;
  concurrentPlayer : option ConcurrentPlayer.t;
  simulatedPlaybackManager : option SimulatedPlaybackManager.t;
  isRunning : bool;
  sessionId : string;
  missedRounds : nat;
  keywordIndex : nat;
  videoQueue : list VideoInfo;
  playVideoCalls : list VideoInfo
}.

Definition setHistory (h : HistoryService.t) (f : t) : t :=
  mkFeeder (config f) h (concurrentPlayer f) (simulatedPlaybackManager f) (isRunning f)
           (sessionId f) (missedRounds f) (keywordIndex f) (videoQueue f)
           (playVideoCalls f).

Definition setPlayer (p : ConcurrentPlayer.t) (f : t) : t :=
  mkFeeder (config f) (historyService f) (Some p) (simulatedPlaybackManager f)
           (isRunning f) (sessionId f) (missedRounds f) (keywordIndex f) (videoQueue f)
           (playVideoCalls f).

Definition setManager (m : SimulatedPlaybackManager.t) (f : t) : t :=
  mkFeeder (config f) (historyService f) (concurrentPlayer f) (Some m) (isRunning f)
           (sessionId f) (missedRounds f) (keywordIndex f) (videoQueue f)
           (playVideoCalls f).

Definition setMissedRounds (n : nat) (f : t) : t :=
  mkFeeder (config f) (historyService f) (concurrentPlayer f)
           (simulatedPlaybackManager f) (isRunning f) (sessionId f) n (keywordIndex f)
           (videoQueue f) (playVideoCalls f).

Definition setKeywordIndex (n : nat) (f : t) : t :=
  mkFeeder (config f) (historyService f) (concurrentPlayer f)
           (simulatedPlaybackManager f) (isRunning f) (sessionId f) (missedRounds f) n
           (videoQueue f) (playVideoCalls f).

Definition setVideoQueue (q : list VideoInfo) (f : t) : t :=
  mkFeeder (config f) (historyService f) (concurrentPlayer f)
           (simulatedPlaybackManager f) (isRunning f) (sessionId f) (missedRounds f)
           (keywordIndex f) q (playVideoCalls f).

Definition logPlayVideo (v : VideoInfo) (f : t) : t :=
  mkFeeder (config f) (historyService f) (concurrentPlayer f)
           (simulatedPlaybackManager f) (isRunning f) (sessionId f) (missedRounds f)
           (keywordIndex f) (videoQueue f) (playVideoCalls f ++ [v]).

(** [arr.slice(0, n)] for an integer [n]; a negative [n] counts from the end. *)
Definition slice0 {A} (l : list A) (n : Z) : list A :=
  if (n <? 0)%Z then firstn (Z.to_nat (Z.of_nat (List.length l) + n)) l
  else firstn (Z.to_nat n) l.

Definition getMatchedKeywords (f : t) (v : VideoInfo) : list string :=
  let searchText := toLowerCase (title v ++ " " ++ author v) in
  filter (fun keyword =>
            let keywordLower := if caseSensitive (matcher (config f)) then keyword
                                else toLowerCase keyword in
            includes searchText keywordLower)
         (keywords (matcher (config f))).

Definition getCurrentVideoSource (platform : Platform) (f : t) : VideoSource :=
  match getPlatformVideoSource platform with
  | Some s => s
  | None => match initialVideoSource (config f) with
            | Some s => s
            | None => home
            end
  end.

Definition recordPlay (v : VideoInfo) (actualPlayDuration : Z)
    (searchKeyword : option string) (source : VideoSource) (f : t) : t :=
  let matchedKeywords :=
    match searchKeyword with
    | Some k => if truthy k then [k] else getMatchedKeywords f v
    | None => getMatchedKeywords f v
    end in
  setHistory (HistoryService.recordWatch (historyService f) v actualPlayDuration
                matchedKeywords source (sessionId f) None) f.

(** [playTargetVideo]; the play it awaits is the next one of the platform. *)
Definition playTargetVideo (platform : Platform) (v : VideoInfo)
    (searchKeyword : option string) (source : VideoSource) : Eff.M t unit :=
  f0 <- Eff.get ;;
  let r := playVideo platform (List.length (playVideoCalls f0)) in
  Eff.tryCatch
    (Eff.modify (logPlayVideo v) ;;
     awaitPlay r ;;
     Eff.modify (recordPlay v (elapsedOf r) searchKeyword source))
    (Eff.modify (fun f =>
       let actualPlayDuration := elapsedOf r in
       if (actualPlayDuration >? 1000)%Z
       then recordPlay v actualPlayDuration searchKeyword source f
       else f)).

(** The [while] loop of [processVideoQueue] over the queued videos, the
    feeder staying in the running state meanwhile. *)
Fixpoint processVideos (platform : Platform) (queue : list VideoInfo) : Eff.M t unit :=
  match queue with
  | [] => Eff.ret tt
  | v :: rest =>
      Eff.modify (setVideoQueue rest) ;;
      f <- Eff.get ;;
      if HistoryService.hasWatched (historyService f) (id v)
      then processVideos platform rest
      else playTargetVideo platform v None home ;; processVideos platform rest
  end.

Definition processVideoQueue (platform : Platform) : Eff.M t unit :=
  f <- Eff.get ;;
  if isRunning f then processVideos platform (videoQueue f) else Eff.ret tt.

Definition randomIndex (platform : Platform) (len : nat) : nat :=
  Z.to_nat (Qfloor (mathRandom platform * inject_Z (Z.of_nat len))).

(** [selectSearchKeyword]; [None] is [null] or [undefined]. *)
Definition selectSearchKeyword (platform : Platform) : Eff.M t (option string) :=
  f <- Eff.get ;;
  let kws := keywords (matcher (config f)) in
  if (List.length kws =? 0)%nat then Eff.ret None
  else
    match activeSearchStrategy (config f) with
    | Some sequential =>
        let keyword := nth_error kws (keywordIndex f mod List.length kws) in
        Eff.modify (setKeywordIndex (S (keywordIndex f))) ;;
        Eff.ret keyword
    | Some random | Some weighted | None =>
        Eff.ret (nth_error kws (randomIndex platform (List.length kws)))
    end.

(** The three admission paths of [performActiveSearch] for the videos
    [firstVideo :: others]: both queue managers take the whole list, the
    single-player path plays its head at once. *)
Definition admitSearched (platform : Platform) (firstVideo : VideoInfo)
    (others : list VideoInfo) (playerKeywords : list string)
    (keyword : string) : Eff.M t unit :=
  f <- Eff.get ;;
  match simulatedPlaybackManager f, concurrentPlayer f with
  | Some m, _ =>
      Eff.modify (setManager
        (SimulatedPlaybackManager.addToQueue (historyService f) m
                                             (firstVideo :: others) (Some search)))
  | None, Some p =>
      Eff.modify (setPlayer
        (ConcurrentPlayer.addToQueue p (firstVideo :: others) playerKeywords search))
  | None, None =>
      playTargetVideo platform firstVideo (Some keyword) search
  end.

Definition performActiveSearch (platform : Platform) : Eff.M t bool :=
  Eff.tryCatch
    (match searchVideos platform with
     | None => Eff.ret false
     | Some searchVideos =>
         selected <- selectSearchKeyword platform ;;
         match selected with
         | None => Eff.ret false
         | Some keyword =>
             if negb (truthy keyword) then Eff.ret false
             else
               searchResults <- awaitReply (searchVideos keyword 20%Z) ;;
               f <- Eff.get ;;
               match searchResults with
               | [] => Eff.ret false
               | firstVideo :: _ =>
                   let targetVideos :=
                     filter (KeywordMatcher.match_ (matcher (config f))) searchResults in
                   match targetVideos with
                   | [] =>
                       admitSearched platform firstVideo [] [keyword] keyword ;;
                       Eff.ret true
                   | selectedVideo :: others =>
                       admitSearched platform selectedVideo others
                                     (keywords (matcher (config f))) keyword ;;
                       Eff.ret true
                   end
               end
         end
     end)
    (Eff.ret false).

Definition checkActiveSearch (platform : Platform) : Eff.M t unit :=
  f <- Eff.get ;;
  if negb (enableActiveSearch (config f)) then Eff.ret tt
  else
    let threshold := orZ (activeSearchThreshold (config f)) 10 in
    if (Z.of_nat (missedRounds f) >=? threshold)%Z then
      success <- performActiveSearch platform ;;
      if success then Eff.modify (setMissedRounds 0)
      else Eff.modify (fun f => setMissedRounds (missedRounds f / 2) f)
    else Eff.ret tt.

(** The capacity test at the head of a cycle. *)
Definition queueFull (f : t) : bool :=
  (Z.of_nat (List.length (videoQueue f)) >=? orZ (maxQueueSize (config f)) 20)%Z.

(** The admission of [videosToAdd] in the branch that found targets. *)
Definition admitTargets (platform : Platform) (videosToAdd : list VideoInfo)
    : Eff.M t unit :=
  f <- Eff.get ;;
  match simulatedPlaybackManager f, concurrentPlayer f with
  | Some m, _ =>
      let currentSource := getCurrentVideoSource platform f in
      Eff.modify (setManager
        (SimulatedPlaybackManager.addToQueue (historyService f) m videosToAdd
                                             (Some currentSource)))
  | None, Some p =>
      let currentSource := getCurrentVideoSource platform f in
      Eff.modify (setPlayer
        (ConcurrentPlayer.addToQueue p videosToAdd (keywords (matcher (config f)))
                                     currentSource))
  | None, None =>
      Eff.modify (fun f =>
        setVideoQueue
          (videoQueue f ++
           filter (fun v => negb (HistoryService.hasWatched (historyService f) (id v)))
                  videosToAdd) f) ;;
      processVideoQueue platform
  end.

(** One turn of the [while] loop of [feedingLoop] (the waits left out). *)
Definition feedingCycle (platform : Platform) : Eff.M t unit :=
  Eff.tryCatch
    (videos <- awaitReply (getRecommendedVideos platform) ;;
     f <- Eff.get ;;
     if queueFull f then Eff.ret tt
     else
       let targetVideos := filter (KeywordMatcher.match_ (matcher (config f))) videos in
       if (0 <? List.length targetVideos)%nat then
         let maxVideosPerQueue := orZ (maxVideosPerQueue (config f)) 5 in
         let videosToAdd := slice0 targetVideos maxVideosPerQueue in
         Eff.modify (setMissedRounds 0) ;;
         admitTargets platform videosToAdd
       else
         Eff.modify (fun f => setMissedRounds (S (missedRounds f)) f) ;;
         checkActiveSearch platform)
    (Eff.ret tt).

End AlgorithmFeeder.

(** ** src/matchers/keyword-matcher.ts: maintenance of the keyword list *)

Module KeywordList.

(** [addKeywords]: [this.config.keywords.push(...keywords)] *)
Definition addKeywords (config : MatcherConfig) (ks : list string) : MatcherConfig :=
  mkMatcherConfig (keywords config ++ ks) (matchMode config) (caseSensitive config).

(** [keywords.includes(k)] on an array of strings *)
Definition arrayIncludes (ks : list string) (k : string) : bool :=
  existsb (String.eqb k) ks.

(** [removeKeywords]: [keywords.filter(k => !keywords.includes(k))] *)
Definition removeKeywords (config : MatcherConfig) (ks : list string) : MatcherConfig :=
  mkMatcherConfig (filter (fun k => negb (arrayIncludes ks k)) (keywords config))
                  (matchMode config) (caseSensitive config).

Definition clearKeywords (config : MatcherConfig) : MatcherConfig :=
  mkMatcherConfig [] (matchMode config) (caseSensitive config).

End KeywordList.

(** ** src/services/match-service.ts: filtering and statistics *)

Module MatchStats.
Local Open Scope Q_scope.

Definition filterMatchedVideos (config : MatcherConfig) (videos : list VideoInfo)
  : list VideoInfo :=
  filter (MatchService.isVideoMatched config) videos.

(** The numeric fields of the result of [getMatchStats] (the per-keyword
    counts are left out). *)
Record t : Type := mkStats {
  total : nat;
  matched : nat;
  matchRate : Q
}.

(** The [for] loop of [getMatchStats] on the counter [matched]. *)
Definition countMatched (config : MatcherConfig) (videos : list VideoInfo) : nat :=
  fold_left (fun matched v =>
               if (0 <? List.length (MatchService.checkVideoMatch config v))%nat
               then S matched else matched)
            videos 0%nat.

Definition getMatchStats (config : MatcherConfig) (videos : list VideoInfo) : t :=
  let matched := countMatched config videos in
  {| total := List.length videos;
     matched := matched;
     matchRate := if (0 <? List.length videos)%nat
                  then (inject_Z (Z.of_nat matched)
                        / inject_Z (Z.of_nat (List.length videos))) * 100
                  else 0 |}.

End MatchStats.

(** ** src/services/history-service.ts: statistics of one session *)

Module SessionStats.
Local Open Scope Q_scope.

(** The [simulatedStats] object returned by [getSessionStats]. *)
Record t : Type := mkSessionStats {
  totalSimulatedVideos : nat;
  totalSimulatedWatchTime : Q;
  totalActualWaitTime : Z;
  averagePlaybackSpeed : Q;
  efficiencyRatio : Q;
  timeSaved : Q
}.

(** The loop that collects [sessionRecords]; lines that do not parse are
    skipped. *)
Definition sessionRecords (store : HistoryService.t) (sessionId : string)
  : list HistoryService.WatchHistory :=
  filter (fun r => String.eqb (HistoryService.sessionId r) sessionId)
         (HistoryService.records store).

(** [record.simulatedWatchDuration || 0] *)
Definition watchDurationOrZero (r : HistoryService.WatchHistory) : Q :=
  match HistoryService.simulatedWatchDuration r with
  | Some q => q
  | None => 0
  end.

(** The [forEach] that adds up the simulated records. *)
Definition sumSimulatedWatchTime (rs : list HistoryService.WatchHistory) : Q :=
  fold_left (fun acc r => if HistoryService.isSimulated r
                          then acc + watchDurationOrZero r else acc) rs 0.

Definition sumActualWaitTime (rs : list HistoryService.WatchHistory) : Z :=
  fold_left (fun acc r => if HistoryService.isSimulated r
                          then (acc + HistoryService.playDuration r)%Z else acc) rs 0%Z.

(** [getSessionStats]; [None] is [null]. *)
Definition getSessionStats (store : HistoryService.t) (sessionId : string) : option t :=
  match HistoryService.historyFile store with
  | None => None
  | Some _ =>
      let rs := sessionRecords store sessionId in
      if (List.length rs =? 0)%nat then None
      else
        let simulatedVideos := List.length (filter HistoryService.isSimulated rs) in
        let simulatedWatchTime := sumSimulatedWatchTime rs in
        let actualWaitTime := sumActualWaitTime rs in
        let speed := if (0 <? simulatedVideos)%nat && (0 <? actualWaitTime)%Z
                     then simulatedWatchTime / (inject_Z actualWaitTime / 1000)
                     else 0 in
        Some {| totalSimulatedVideos := simulatedVideos;
                totalSimulatedWatchTime := simulatedWatchTime;
                totalActualWaitTime := actualWaitTime;
                averagePlaybackSpeed := speed;
                efficiencyRatio := speed;
                timeSaved := simulatedWatchTime * 60 * 1000 - inject_Z actualWaitTime |}
  end.

End SessionStats.

(** ** src/services/concurrent-player.ts: status report and life of the pool *)

Module PoolStatus.
Import ConcurrentPlayer.

(** The object returned by [getStatus]. *)
Record t : Type := mkStatus {
  totalPlayers : nat;
  activePlayers : nat;
  totalTasks : nat;
  completedCount : nat;
  failedCount : nat;
  pendingCount : nat;
  playingCount : nat;
  queueLength : nat
}.

Definition statusIs (s : TaskStatus) (task : PlayTask) : bool :=
  match s, status task with
  | pending, pending | playing, playing | completed, completed | failed, failed => true
  | _, _ => false
  end.

Definition getStatus (pool : ConcurrentPlayer.t) : t :=
  {| totalPlayers := List.length (players pool);
     activePlayers := List.length (filter isActive (players pool));
     totalTasks := List.length (taskQueue pool) + List.length (completedTasks pool);
     completedCount := List.length (filter (statusIs completed) (completedTasks pool));
     failedCount := List.length (filter (statusIs failed) (completedTasks pool));
     pendingCount := List.length (filter (statusIs pending) (taskQueue pool));
     playingCount := List.length (filter (statusIs playing) (taskQueue pool));
     queueLength := List.length (taskQueue pool) |}.

(** What happens to a pool: the feeder admits videos, or a worker moves. *)
Inductive Event : Type :=
| Admit (videos : list VideoInfo) (matchedKeywords : list string) (source : VideoSource)
| Work (a : Action).

Definition apply (e : Event) (st : St) : St :=
  match e with
  | Admit videos kws src => (fst st, addToQueue (snd st) videos kws src)
  | Work a => step a st
  end.

Definition life (events : list Event) (st : St) : St :=
  fold_left (fun s e => apply e s) events st.

(** A pool as [initialize] leaves it: idle players, nothing queued, nothing
    completed, nothing played. *)
Definition fresh (pool : ConcurrentPlayer.t) : Prop :=
  taskQueue pool = [] /\ completedTasks pool = [] /\ playVideoCalls pool = []
  /\ Forall (fun p => isActive p = false /\ currentTask p = None) (players pool).

(** Worker [w] is suspended in [executeTask] on the task at reference [i]. *)
Definition holds (pool : ConcurrentPlayer.t) (w i : nat) : Prop :=
  exists player, nth_error (players pool) w = Some player
                 /\ isActive player = true /\ currentTask player = Some i.

End PoolStatus.

(** ** src/services/concurrent-player.ts: the life of a
    SimulatedPlaybackManager *)

Module ManagerLife.
Import SimulatedPlaybackManager.

(** [SimulatedPlaybackConfig] *)
Record SimulatedPlaybackConfig : Type := mkConfig {
  cfgPlaybackSpeed : Q;
  cfgWatchDuration : Q;
  cfgMinWaitTime : Q;
  cfgPlatform : string;
  cfgCookies : string;
  cfgConcurrentWorkers : option Z;
  cfgWorkerStartDelay : option Z;
  cfgDurationVariation : option Q
}.

(** [Math.max(1, Math.min(config.concurrentWorkers || 1, 10))] *)
Definition workerCount (config : SimulatedPlaybackConfig) : nat :=
  Z.to_nat (Z.max 1 (Z.min (orZ (cfgConcurrentWorkers config) 1) 10)).

(** The constructor with [initializeSimulators]: one simulator per worker
    for the platform bilibili with cookies, none otherwise. *)
Definition new (config : SimulatedPlaybackConfig) (matchConfig : MatcherConfig)
    (sessionId : string) : SimulatedPlaybackManager.t :=
  let workers := workerCount config in
  mkManager (cfgPlaybackSpeed config) matchConfig sessionId workers
            (if String.eqb (cfgPlatform config) "bilibili"
                && JsString.truthy (cfgCookies config)
             then workers else 0%nat)
            false home 0 [] 0 [] [].

(** What happens to a manager: the feeder admits videos, a scheduled
    [startProcessing] runs, the processing loop takes a turn, or a play in
    flight settles. *)
Inductive Event : Type :=
| Admit (videos : list VideoInfo) (source : option VideoSource)
| Start
| Turn
| Settle (k : nat) (actualSimulatedDuration : Q) (playDuration : Z).

Definition apply (e : Event) (st : St) : St :=
  match e with
  | Admit videos source => (fst st, addToQueue (fst st) (snd st) videos source)
  | Start => (fst st, startProcessing (snd st))
  | Turn => (fst st, processingLoop_turn (snd st))
  | Settle k simulated playDuration => processVideo_settle k simulated playDuration st
  end.

Definition life (events : list Event) (st : St) : St :=
  fold_left (fun s e => apply e s) events st.

(** The videos in the order the manager serves them: those already handed
    to [simulatePlayback], then those still queued. *)
Definition serviceOrder (m : SimulatedPlaybackManager.t) : list VideoInfo :=
  simulateCalls m ++ map itemVideo (videoQueue m).

End ManagerLife.

(** ** src/platforms/bilibili/bilibili-simulator.ts: the run of a playback

    [simulatePlayback] with its four steps, the draws of [Math.random()]
    taken from an oracle in call order. *)

Module BilibiliPlaybackRun.
Import BilibiliPlaybackSimulator.
Local Open Scope Q_scope.
Local Open Scope eff_scope.

(** The form fields of a heartbeat request that vary within a run. *)
Record Heartbeat : Type := mkHeartbeat {
  played_time : Z;
  real_played_time : Z;
  quality : option string;
  danmaku_switch : Z;
  subtitle_switch : Z
}.

(** What a run leaves behind: the number of draws made, the heartbeats
    posted, the [progress] of the history reports posted and the [sleep]s
    taken (milliseconds), each oldest first. *)
Record Trace : Type := mkTrace {
  drawn : nat;
  heartbeats : list Heartbeat;
  historyReports : list Q;
  sleeps : list Q
}.

Definition ltb (x y : Q) : bool := negb (Qle_bool y x).

(** The [%] of JavaScript on numbers: the quotient is truncated. *)
Definition trunc (x : Q) : Z := if ltb x 0 then Qceiling x else Qfloor x.

Definition remainder (x y : Q) : Q := x - y * inject_Z (trunc (x / y)).

Definition qualities : list string := ["32"; "64"; "80"; "112"].

(** [Math.max(5, Math.floor(15 / this.playbackSpeed))] *)
Definition baseHeartbeatInterval (sim : t) : Z :=
  Z.max 5 (Qfloor (15 / playbackSpeed sim)).

Section Run.
Variable random : nat -> Q.

Definition mathRandom : Eff.M Trace Q :=
  fun s => Eff.Returned (mkTrace (S (drawn s)) (heartbeats s) (historyReports s) (sleeps s))
                        (random (drawn s)).

Definition sleep (ms : Q) : Eff.M Trace unit :=
  Eff.modify (fun s => mkTrace (drawn s) (heartbeats s) (historyReports s)
                               (sleeps s ++ [ms])).

(** The [fetch] of a heartbeat; its failure is caught and logged only. *)
Definition fetchHeartbeat (formData : Heartbeat) : Eff.M Trace unit :=
  Eff.modify (fun s => mkTrace (drawn s) (heartbeats s ++ [formData]) (historyReports s)
                               (sleeps s)).

(** [sendHeartbeat]: the form is built outside the [try], and
    [videoInfo.duration.toString()] throws when the reply had no duration. *)
Definition sendHeartbeat (videoInfo : ResolvedVideo) (playedTime : Q)
  : Eff.M Trace unit :=
  r <- mathRandom ;;
  let realPlayedRatio := 0.85 + r * 0.1 in
  let realPlayedTime := Qfloor (playedTime * realPlayedRatio) in
  q <- mathRandom ;;
  let index := Qfloor (q * 4) in
  let randomQuality := if (index <? 0)%Z then None
                       else nth_error qualities (Z.to_nat index) in
  match resolvedDuration videoInfo with
  | None => Eff.throw
  | Some _ =>
      danmaku <- mathRandom ;;
      subtitle <- mathRandom ;;
      fetchHeartbeat {| played_time := Qfloor playedTime;
                        real_played_time := realPlayedTime;
                        quality := randomQuality;
                        danmaku_switch := if ltb danmaku 0.7 then 1%Z else 0%Z;
                        subtitle_switch := if ltb subtitle 0.2 then 1%Z else 0%Z |}
  end.

(** The body of the [for] loop of [simulatePlaybackHeartbeat]. *)
Definition heartbeatStep (sim : t) (videoInfo : ResolvedVideo) (stepWaitTime : Q)
    (i : Z) : Eff.M Trace unit :=
  r <- mathRandom ;;
  let randomOffset := (r - 0.5) * 4 in
  let currentTime := inject_Z (i * baseHeartbeatInterval sim) + randomOffset in
  let playedTime := Qmax 0 currentTime in
  sendHeartbeat videoInfo playedTime ;;
  w <- mathRandom ;;
  let randomizedWaitTime := stepWaitTime * (0.7 + w * 0.6) in
  sleep (randomizedWaitTime * 1000) ;;
  p <- mathRandom ;;
  (if ltb p 0.08 then
     d <- mathRandom ;;
     let pauseDuration := 1 + d * 4 in
     sleep (pauseDuration * 1000) ;;
     sendHeartbeat videoInfo playedTime
   else Eff.ret tt) ;;
  k <- mathRandom ;;
  if ltb k 0.03 && (i >? 2)%Z then
    x <- mathRandom ;;
    let seekTime := x * currentTime in
    sendHeartbeat videoInfo seekTime ;;
    z <- mathRandom ;;
    sleep (500 + z * 1500)
  else Eff.ret tt.

(** The loop from [i] on, [count] iterations being left. *)
Fixpoint heartbeatSteps (sim : t) (videoInfo : ResolvedVideo) (stepWaitTime : Q)
    (count : nat) (i : Z) : Eff.M Trace unit :=
  match count with
  | O => Eff.ret tt
  | S rest =>
      heartbeatStep sim videoInfo stepWaitTime i ;;
      heartbeatSteps sim videoInfo stepWaitTime rest (i + 1)
  end.

Definition simulatePlaybackHeartbeat (sim : t) (videoInfo : ResolvedVideo)
    (simulatedDuration actualWaitTime : Q) : Eff.M Trace unit :=
  let baseInterval := baseHeartbeatInterval sim in
  let totalSteps := Qfloor (simulatedDuration / inject_Z baseInterval) in
  let stepWaitTime := actualWaitTime / inject_Z (Z.max 1 totalSteps) in
  heartbeatSteps sim videoInfo stepWaitTime (Z.to_nat totalSteps) 1 ;;
  if ltb 0 (remainder simulatedDuration (inject_Z baseInterval)) then
    r <- mathRandom ;;
    let randomOffset := (r - 0.5) * 2 in
    let finalTime := Qmax 0 (simulatedDuration + randomOffset) in
    sendHeartbeat videoInfo finalTime
  else Eff.ret tt.

(** [reportPlayHistory]: the report is posted, its failure caught. *)
Definition reportPlayHistory (videoInfo : ResolvedVideo) (duration : Q)
  : Eff.M Trace unit :=
  Eff.modify (fun s => mkTrace (drawn s) (heartbeats s) (historyReports s ++ [duration])
                               (sleeps s)).

Definition visitVideoPage (page : Reply unit) : Eff.M Trace unit :=
  r <- mathRandom ;;
  let delay := 500 + r * 1500 in
  sleep delay ;;
  awaitReply page.

(** [simulatePlayback]; [page] and [info] are the replies to the requests
    of [visitVideoPage] and [getVideoInfo]. *)
Definition simulatePlayback (sim : t) (simulatedDuration : Q)
    (actualWaitTime : option Q) (page : Reply unit) (info : Reply ResolvedVideo)
  : Eff.M Trace Q :=
  let calculatedWaitTime := inject_Z (Qceiling (simulatedDuration / playbackSpeed sim)) in
  let waitTime := orDefault actualWaitTime (Qmax 3 calculatedWaitTime) in
  Eff.tryCatch
    (visitVideoPage page ;;
     videoInfo <- awaitReply info ;;
     v <- mathRandom ;;
     let randomizedDuration := simulatedDuration * randomVariation sim v in
     b <- mathRandom ;;
     let safeSimulatedDuration :=
       Qmin randomizedDuration (maxSafeSimulatedDuration videoInfo b) in
     simulatePlaybackHeartbeat sim videoInfo safeSimulatedDuration waitTime ;;
     reportPlayHistory videoInfo safeSimulatedDuration ;;
     Eff.ret safeSimulatedDuration)
    (Eff.ret 0).

End Run.




End BilibiliPlaybackRun.

(** ** src/services/history-service.ts: searching the history *)

Module HistorySearch.
Import JsString.

(** [[title, author, ...matchedKeywords].join(' ').toLowerCase()] *)
Definition searchText (record : HistoryService.WatchHistory) : string :=
  toLowerCase
    (join " " (title (HistoryService.video record)
               :: author (HistoryService.video record)
               :: HistoryService.matchedKeywords record)).

(** [searchHistory]: the records whose text contains the query, newest
    first; lines that do not parse to a record are skipped. *)
Definition searchHistory (store : HistoryService.t) (query : string)
  : list HistoryService.WatchHistory :=
  let queryLower := toLowerCase query in
  rev (filter (fun record => includes (searchText record) queryLower)
              (HistoryService.records store)).

End HistorySearch.

(** ** src/platforms/bilibili/bilibili-platform.ts: recommendations *)

Module BilibiliPlatform.

(** [[shuffled[i], shuffled[j]] = [shuffled[j], shuffled[i]]] for indices
    within the array. *)
Definition swap {A} (i j : nat) (shuffled : list A) : list A :=
  match nth_error shuffled i, nth_error shuffled j with
  | Some a, Some b => updateAt j (fun _ => a) (updateAt i (fun _ => b) shuffled)
  | _, _ => shuffled
  end.

(** The [for] loop of [shuffleArray] from [i] down to 1; [drawn] counts the
    draws of [Math.random()] made so far. *)
Fixpoint shuffleLoop {A} (random : nat -> Q) (drawn : nat) (i : nat)
    (shuffled : list A) : list A :=
  match i with
  | O => shuffled
  | S below =>
      let j := Z.to_nat (Qfloor (random drawn * inject_Z (Z.of_nat (i + 1)))) in
      shuffleLoop random (S drawn) below (swap i j shuffled)
  end.

Definition shuffleArray {A} (random : nat -> Q) (array : list A) : list A :=
  shuffleLoop random 0 (List.length array - 1) array.

Inductive RecommendSource : Type := fromHome | fromRelated | fromShort.

(** The platform state [getRecommendedVideos] reads and writes. *)
Record t : Type := mkPlatformState {
  currentVideoSource : RecommendSource;
  lastPlayedVideoId : option string
}.

(** The replies of the API during one call. *)
Record Api : Type := mkApi {
  getHomeFeedRecommendations : Reply (list VideoInfo);
  getRelatedVideos : string -> Reply (list VideoInfo);
  getShortVideoFeed : Reply (list VideoInfo)
}.

Local Open Scope eff_scope.

(** The videos fetched in the [switch] of [getRecommendedVideos]. *)
Definition fetchVideos (api : Api) : Eff.M t (list VideoInfo) :=
  p <- Eff.get ;;
  match currentVideoSource p with
  | fromHome => awaitReply (getHomeFeedRecommendations api)
  | fromRelated =>
      videos <- match lastPlayedVideoId p with
                | Some videoId =>
                    if JsString.truthy videoId
                    then awaitReply (getRelatedVideos api videoId)
                    else Eff.ret []
                | None => Eff.ret []
                end ;;
      match videos with
      | [] =>
          home <- awaitReply (getHomeFeedRecommendations api) ;;
          Eff.modify (fun p => mkPlatformState fromHome (lastPlayedVideoId p)) ;;
          Eff.ret home
      | _ => Eff.ret videos
      end
  | fromShort => awaitReply (getShortVideoFeed api)
  end.

Definition getRecommendedVideos (api : Api) (random : nat -> Q)
  : Eff.M t (list VideoInfo) :=
  Eff.tryCatch
    (videos <- fetchVideos api ;;
     Eff.ret (shuffleArray random videos))
    (Eff.ret []).

End BilibiliPlatform.

(** ** src/services/concurrent-player.ts: stopping the pool *)

Module PoolStop.
Import ConcurrentPlayer.

(** The first statement of [stop], [this.isRunning = false]; the players
    are dropped only after the wait that follows. *)
Definition requestStop (pool : t) : t :=
  mkPool (players pool) (taskQueue pool) (completedTasks pool) (config pool)
         (sessionId pool) false (taskIdCounter pool) (playVideoCalls pool).

End PoolStop.

(** * Auxiliary predicates *)

Definition queueIds (m : SimulatedPlaybackManager.t) : list string :=
  map (fun item => id (SimulatedPlaybackManager.itemVideo item))
      (SimulatedPlaybackManager.videoQueue m).


(** A computation that leaves [missedRounds] as it found it, however it
    exits. *)
Definition keeps {A} (c : Eff.M AlgorithmFeeder.t A) : Prop :=
  forall f, AlgorithmFeeder.missedRounds (Eff.finalState (c f))
            = AlgorithmFeeder.missedRounds f.

(** A computation that moreover always returns. *)
Definition steady {A} (c : Eff.M AlgorithmFeeder.t A) : Prop :=
  forall f, exists f' a,
    c f = Eff.Returned f' a
    /\ AlgorithmFeeder.missedRounds f' = AlgorithmFeeder.missedRounds f.

(** The verdict of the active search started from [f]. *)
Definition searchSucceeds (platform : AlgorithmFeeder.Platform)
    (f : AlgorithmFeeder.t) : bool :=
  match AlgorithmFeeder.performActiveSearch platform f with
  | Eff.Returned _ success => success
  | Eff.Thrown _ => false
  end.

(** Whether [checkActiveSearch] entered from [f] runs a search. *)
Definition searchDue (f : AlgorithmFeeder.t) : bool :=
  enableActiveSearch (AlgorithmFeeder.config f)
  && (Z.of_nat (AlgorithmFeeder.missedRounds f)
      >=? orZ (activeSearchThreshold (AlgorithmFeeder.config f)) 10)%Z.

(** ** Invariants of the worker pool, the manager and the feeder *)

Section PoolPredicates.
Import ConcurrentPlayer.

(** The mark [executeTask] leaves on its task when the play settles. *)
Definition settleMark (r : PlayResult) (task : PlayTask) : PlayTask :=
  withStatus (match r with PlayOk _ => completed | PlayThrows _ => failed end)
             (withDuration (elapsedOf r) task).

(** The player as the [finally] of [executeTask] leaves it. *)
Definition releaseMark (p : PlayerInstance) : PlayerInstance :=
  mkPlayer (playerNo p) false None.

(** Every completed task ended as completed or failed. *)
Definition allDone (pool : t) : Prop :=
  Forall (fun task => status task = completed \/ status task = failed)
         (completedTasks pool).

(** The task numbers of the queue are distinct and none exceeds the counter. *)
Definition idsFresh (pool : t) : Prop :=
  NoDup (map taskId (taskQueue pool))
  /\ Forall (fun n => n <= taskIdCounter pool)%nat (map taskId (taskQueue pool)).

(** Plays started plus tasks still pending never exceed the tasks queued. *)
Definition playsWithinTaken (pool : t) : Prop :=
  (List.length (playVideoCalls pool) + pendingCount pool
   <= List.length (taskQueue pool))%nat.

(** Every player is either idle with no task, or active on a task that is
    playing; no two players refer to the same task. *)
Definition ownership (pool : t) : Prop :=
  (forall w player,
      nth_error (players pool) w = Some player ->
      (isActive player = false /\ currentTask player = None)
      \/ (isActive player = true
          /\ exists i task, currentTask player = Some i
                            /\ nth_error (taskQueue pool) i = Some task
                            /\ status task = playing))
  /\ (forall w1 w2 p1 p2 i,
         nth_error (players pool) w1 = Some p1 ->
         nth_error (players pool) w2 = Some p2 ->
         currentTask p1 = Some i -> currentTask p2 = Some i -> w1 = w2).

End PoolPredicates.

Section ManagerPredicates.
Import SimulatedPlaybackManager.

(** The active-worker counter is the number of plays in flight and stays
    within the pool size. *)
Definition workersBounded (m : t) : Prop :=
  activeWorkers m = Z.of_nat (List.length (inFlight m))
  /\ (List.length (inFlight m) <= concurrentWorkers m)%nat.

(** Nothing is dispatched, recorded or started while no simulator exists. *)
Definition dormant (history : HistoryService.t) (st : St) : Prop :=
  fst st = history /\ simulators (snd st) = 0%nat /\ isProcessing (snd st) = false
  /\ inFlight (snd st) = [] /\ simulateCalls (snd st) = [].

End ManagerPredicates.

Section FeederPredicates.
Import AlgorithmFeeder.

(** What a run of the single-player queue over [queue] achieves when
    every play succeeds. *)
Definition drained (queue : list VideoInfo) (f f' : t) : Prop :=
  videoQueue f' = match queue with [] => videoQueue f | _ => [] end
  /\ (forall videoId,
         HistoryService.hasWatched (historyService f) videoId = true ->
         HistoryService.hasWatched (historyService f') videoId = true)
  /\ (forall v, In v queue ->
                HistoryService.hasWatched (historyService f') (id v) = true)
  /\ exists played,
       playVideoCalls f' = playVideoCalls f ++ played
       /\ NoDup (map id played)
       /\ forall v, In v played ->
                    In v queue
                    /\ HistoryService.hasWatched (historyService f) (id v) = false.

End FeederPredicates.

(** What [getSessionStats] reports for a session, 0 while it is [null]. *)
Definition simulatedSoFar (store : HistoryService.t) (sid : string) : nat * Q * Z :=
  match SessionStats.getSessionStats store sid with
  | Some s => (SessionStats.totalSimulatedVideos s,
               SessionStats.totalSimulatedWatchTime s,
               SessionStats.totalActualWaitTime s)
  | None => (0%nat, 0%Q, 0%Z)
  end.

(** [n] successive calls of [selectSearchKeyword], their answers in call
    order. *)
Fixpoint selectMany (platform : AlgorithmFeeder.Platform) (n : nat)
  : Eff.M AlgorithmFeeder.t (list (option string)) :=
  match n with
  | O => Eff.ret []
  | S k =>
      Eff.bind (AlgorithmFeeder.selectSearchKeyword platform) (fun picked =>
      Eff.bind (selectMany platform k) (fun others =>
      Eff.ret (picked :: others)))
  end.

(** * Sample configurations and executions *)

Definition catKeyword : MatcherConfig := mkMatcherConfig ["Cat"] any true.

Definition catRescue : VideoInfo := mkVideo "BV1" "Cat Rescue" "" "" None None.



Definition emptyStore : HistoryService.t := HistoryService.mkStore "bilibili" None.

Definition idleManager : SimulatedPlaybackManager.t :=
  SimulatedPlaybackManager.mkManager 2 (mkMatcherConfig ["cat"] any false) "session-1"
    1 1 false home 0 [] 0 [] [].

Definition catClip : VideoInfo := mkVideo "BV1A" "Cat video" "up" "" None None.

Definition sampleMatcher : MatcherConfig := mkMatcherConfig ["cat"] any false.

Definition sampleConfig : AppConfig :=
  mkAppConfig "bilibili" sampleMatcher 30000 None (Some 1%Z) true (Some 10%Z) None
              (Some 5%Z) (Some 20%Z) false.

Definition onePlayerPool : ConcurrentPlayer.t :=
  ConcurrentPlayer.mkPool [ConcurrentPlayer.mkPlayer 1 false None] [] [] sampleConfig
                          "session-1" true 0 [].


Definition watchedStore : HistoryService.t :=
  HistoryService.recordWatch emptyStore catClip 30000 ["cat"] home "session-0" None.

(** A feeder in concurrent-player mode whose history holds [catClip]. *)
Definition concurrentFeeder : AlgorithmFeeder.t :=
  AlgorithmFeeder.mkFeeder sampleConfig watchedStore (Some onePlayerPool) None true
                           "session-1" 0 0 [] [].

(** A feeder in single-player mode, ten rounds missed, [catClip] watched. *)
Definition singleFeeder : AlgorithmFeeder.t :=
  AlgorithmFeeder.mkFeeder sampleConfig watchedStore None None true "session-1" 10 0 [] [].

(** A platform that recommends [catClip] and finds it on every search. *)
Definition catPlatform : AlgorithmFeeder.Platform :=
  AlgorithmFeeder.mkPlatform (Resolved [catClip])
    (Some (fun _ _ => Resolved [catClip])) None (fun _ => PlayOk 30000) 0.

(** Two cycles queued [catClip] before any play of it was recorded. *)
Definition queuedTwice : ConcurrentPlayer.St :=
  (emptyStore,
   ConcurrentPlayer.addToQueue
     (ConcurrentPlayer.addToQueue onePlayerPool [catClip] ["cat"] home)
     [catClip] ["cat"] home).

Definition tightConfig : AppConfig :=
  mkAppConfig "bilibili" sampleMatcher 30000 None (Some 1%Z) true (Some 10%Z) None
              (Some 5%Z) (Some 2%Z) true.

(** A feeder in simulated-playback mode with [maxQueueSize = 2]. *)
Definition simulatedFeeder : AlgorithmFeeder.t :=
  AlgorithmFeeder.mkFeeder tightConfig emptyStore None (Some idleManager) true
                           "session-1" 0 0 [] [].

Definition catClipNo (n : string) : VideoInfo :=
  mkVideo ("BV" ++ n) ("Cat video " ++ n) "up" "" None None.

Definition threeCats : AlgorithmFeeder.Platform :=
  AlgorithmFeeder.mkPlatform (Resolved [catClipNo "1"; catClipNo "2"; catClipNo "3"])
    None None (fun _ => PlayOk 30000) 0.

Definition threeMoreCats : AlgorithmFeeder.Platform :=
  AlgorithmFeeder.mkPlatform (Resolved [catClipNo "4"; catClipNo "5"; catClipNo "6"])
    None None (fun _ => PlayOk 30000) 0.

Definition afterFirstCycle : AlgorithmFeeder.t :=
  Eff.finalState (AlgorithmFeeder.feedingCycle threeCats simulatedFeeder).

(** Between the cycles the manager starts processing and its only worker
    takes the head of the queue. *)
Definition beforeSecondCycle : AlgorithmFeeder.t :=
  match AlgorithmFeeder.simulatedPlaybackManager afterFirstCycle with
  | Some m =>
      AlgorithmFeeder.setManager
        (SimulatedPlaybackManager.processingLoop_turn
           (SimulatedPlaybackManager.startProcessing m))
        afterFirstCycle
  | None => afterFirstCycle
  end.

Definition afterSecondCycle : AlgorithmFeeder.t :=
  Eff.finalState (AlgorithmFeeder.feedingCycle threeMoreCats beforeSecondCycle).

Definition managerQueueLength (f : AlgorithmFeeder.t) : option nat :=
  option_map (fun m => List.length (SimulatedPlaybackManager.videoQueue m))
             (AlgorithmFeeder.simulatedPlaybackManager f).

(** Nine rounds missed, threshold ten: a tenth miss whose search finds
    nothing takes the counter to half of ten. *)
Definition nineMissed : AlgorithmFeeder.t :=
  AlgorithmFeeder.mkFeeder sampleConfig emptyStore None None true "session-1" 9 0 [] [].

(** A platform that recommends nothing of interest and finds nothing. *)
Definition barrenPlatform : AlgorithmFeeder.Platform :=
  AlgorithmFeeder.mkPlatform (Resolved []) (Some (fun _ _ => Resolved [])) None
                             (fun _ => PlayOk 30000) 0.

Definition dogClip : VideoInfo := mkVideo "BV9D" "Dog video" "up" "" None None.

Definition dogWatched : HistoryService.t :=
  HistoryService.recordWatch emptyStore dogClip 30000 [] search "session-0" None.

(** A feeder in simulated-playback mode, ten rounds missed, [dogClip]
    watched. *)
Definition simulatedSearcher : AlgorithmFeeder.t :=
  AlgorithmFeeder.mkFeeder sampleConfig dogWatched None (Some idleManager) true
                           "session-1" 10 0 [] [].

(** A platform whose search for any keyword finds [dogClip] only. *)
Definition dogPlatform : AlgorithmFeeder.Platform :=
  AlgorithmFeeder.mkPlatform (Resolved []) (Some (fun _ _ => Resolved [dogClip])) None
                             (fun _ => PlayOk 30000) 0.

(** A feeder in simulated-playback mode with nothing watched yet. *)
Definition freshSearcher : AlgorithmFeeder.t :=
  AlgorithmFeeder.mkFeeder sampleConfig emptyStore None (Some idleManager) true
                           "session-1" 10 0 [] [].

(** A pool of two idle players. *)
Definition twoPlayerPool : ConcurrentPlayer.t :=
  ConcurrentPlayer.mkPool
    [ConcurrentPlayer.mkPlayer 1 false None; ConcurrentPlayer.mkPlayer 2 false None]
    [] [] sampleConfig "session-1" true 0 [].

(** A manager configuration for a platform without simulator. *)
Definition youtubeManagerConfig : ManagerLife.SimulatedPlaybackConfig :=
  ManagerLife.mkConfig 2 30 5 "youtube" "SID=abc" (Some 3%Z) None None.

(** A manager whose worker has [catClip] in flight. *)
Definition managerInFlight : SimulatedPlaybackManager.St :=
  (emptyStore,
   SimulatedPlaybackManager.mkManager 2 sampleMatcher "session-1" 2 2 true home 1 [] 0
     [SimulatedPlaybackManager.mkItem catClip home] [catClip]).

(** A feeder with three keywords and the sequential strategy, three
    selections made. *)
Definition sequentialFeeder : AlgorithmFeeder.t :=
  AlgorithmFeeder.mkFeeder
    (mkAppConfig "bilibili" (mkMatcherConfig ["cat"; "dog"; "fox"] any false) 30000 None
                 (Some 1%Z) true (Some 10%Z) (Some sequential) (Some 5%Z) (Some 20%Z)
                 false)
    emptyStore None None true "session-1" 0 3 [] [].

(** A single-player feeder that has watched [catClip], with [dogClip] queued
    twice around it. *)
Definition queuedFeeder : AlgorithmFeeder.t :=
  AlgorithmFeeder.mkFeeder sampleConfig watchedStore None None true "session-1" 0 0
                           [dogClip; catClip; dogClip] [].

(** A platform that recommends seven matching videos. *)
Definition manyCats : AlgorithmFeeder.Platform :=
  AlgorithmFeeder.mkPlatform
    (Resolved [catClipNo "1"; catClipNo "2"; catClipNo "3"; catClipNo "4";
               catClipNo "5"; catClipNo "6"; catClipNo "7"])
    None None (fun _ => PlayOk 30000) 0.

(** A video-info reply without duration. *)
Definition noDurationVideo : BilibiliPlaybackSimulator.ResolvedVideo :=
  BilibiliPlaybackSimulator.mkResolved 1 1 None.

(** The platform set to related videos before it has played any. *)
Definition relatedBeforeAnyPlay : BilibiliPlatform.t :=
  BilibiliPlatform.mkPlatformState BilibiliPlatform.fromRelated None.

(** An API of which only the home feed answers. *)
Definition homeFeedOnly : BilibiliPlatform.Api :=
  BilibiliPlatform.mkApi (Resolved [catClip; dogClip]) (fun _ => Rejected) Rejected.



(** The manager after [catClip] was admitted and handed out, admitted a
    second time while that play was in flight, and the play has settled. *)
Definition readmittedInFlight : SimulatedPlaybackManager.St :=
  ManagerLife.life
    [ManagerLife.Admit [catClip] None; ManagerLife.Start; ManagerLife.Turn;
     ManagerLife.Admit [catClip] None; ManagerLife.Settle 0 30 10000]
    (emptyStore, idleManager).

(** * Properties *)

(** ** Strings *)

Section StringFacts.
Import JsString.

Lemma prefix_split (kw text : string) :
  String.prefix kw text = true <-> exists post, text = (kw ++ post)%string.
Proof.
  revert text; induction kw as [|c kw IH]; intros text.
  - split; [intros _; exists text; reflexivity | intros _; now destruct text].
  - destruct text as [|d text]; simpl.
    + split; [discriminate | intros [post H]; discriminate].
    + destruct (ascii_dec c d) as [->|Hne].
      * rewrite IH. split; intros [post H]; exists post.
        -- now rewrite H.
        -- now injection H.
      * split; [discriminate|].
        intros [post H]. injection H as H1 H2. congruence.
Qed.

(** [includes] is substring containment. *)
Lemma includes_spec (text kw : string) :
  includes text kw = true <-> exists pre post, text = (pre ++ kw ++ post)%string.
Proof.
  induction text as [|c text IH].
  - cbn [includes]. destruct (String.prefix kw "") eqn:E.
    + split; [intros _|reflexivity].
      apply prefix_split in E as [post E]. exists "", post. exact E.
    + split; [discriminate|].
      intros [pre [post H]]. destruct pre; [|discriminate].
      simpl in H. assert (String.prefix kw "" = true) by (apply prefix_split; eauto).
      congruence.
  - cbn [includes]. destruct (String.prefix kw (String c text)) eqn:E.
    + split; [intros _|reflexivity].
      apply prefix_split in E as [post E]. exists "", post. exact E.
    + rewrite IH. split.
      * intros [pre [post H]]. exists (String c pre), post. simpl. now rewrite H.
      * intros [pre [post H]]. destruct pre as [|d pre].
        -- simpl in H.
           assert (String.prefix kw (String c text) = true)
             by (apply prefix_split; eauto).
           congruence.
        -- simpl in H. injection H as _ H. eauto.
Qed.

End StringFacts.

(** ** Lists *)

Lemma filter_length_le {A} (p : A -> bool) (l : list A) :
  (List.length (filter p l) <= List.length l)%nat.
Proof.
  induction l as [|x l IH]; simpl; [lia|].
  destruct (p x); simpl; lia.
Qed.

(** A filter that keeps as many elements as there are keeps them all. *)
Lemma filter_full {A} (p : A -> bool) (l : list A) :
  List.length (filter p l) = List.length l -> filter p l = l.
Proof.
  induction l as [|x l IH]; simpl; [reflexivity|].
  destruct (p x); simpl; intros H.
  - f_equal. apply IH. lia.
  - pose proof (filter_length_le p l). lia.
Qed.

(** ** Match Evaluator *)

Section MatchEvaluator.
Import JsString.

(** Without the guard of [match], mode [all] over no keyword holds
    vacuously. *)
Lemma performMatching_all_no_keywords (cs : bool) (text : string) :
  KeywordMatcher.performMatching (mkMatcherConfig [] all cs) text = true.
Proof. destruct cs; reflexivity. Qed.

(** In mode [all], [checkVideoMatch] returns the configured list or
    nothing. *)
Lemma checkVideoMatch_all_full_or_empty (config : MatcherConfig) (v : VideoInfo) :
  matchMode config = all ->
  MatchService.checkVideoMatch config v = keywords config
  \/ MatchService.checkVideoMatch config v = [].
Proof.
  intros Hmode. unfold MatchService.checkVideoMatch. rewrite Hmode.
  destruct (Nat.eqb_spec
              (List.length (MatchService.collectMatched config v))
              (List.length (keywords config))) as [Hlen|_].
  - left. now apply filter_full.
  - now right.
Qed.

(** In mode [any] without case sensitivity, [checkVideoMatch] returns the
    keywords whose folded text occurs in the folded title and author. *)
Lemma checkVideoMatch_any_folded (config : MatcherConfig) (v : VideoInfo) :
  matchMode config = any ->
  caseSensitive config = false ->
  MatchService.checkVideoMatch config v =
  filter (fun keyword =>
            includes (toLowerCase (title v ++ " " ++ author v)) (toLowerCase keyword))
         (keywords config).
Proof.
  intros Hmode Hcs.
  unfold MatchService.checkVideoMatch, MatchService.collectMatched,
    MatchService.keywordToCheck, MatchService.searchText.
  now rewrite Hmode, Hcs.
Qed.

End MatchEvaluator.

(** C2.  With case sensitivity configured, [checkVideoMatch] still folds the
    search text and leaves the keyword as written: on the title "Cat Rescue"
    the keyword "Cat" occurs in the title and author as written, the sibling
    [KeywordMatcher.match] reports a match, and [checkVideoMatch] returns no
    keyword. *)
Theorem checkVideoMatch_case_sensitive_folds_text :
  JsString.includes (title catRescue ++ " " ++ author catRescue)%string "Cat" = true
  /\ KeywordMatcher.match_ catKeyword catRescue = true
  /\ MatchService.checkVideoMatch catKeyword catRescue = [].
Proof. repeat split; reflexivity. Qed.

(** C9.  With no keyword configured [match] is false for every video, in
    both modes, although in mode [all] the test it guards, [performMatching]
    on the text prepared for the video, would hold over the empty list. *)
Theorem match_no_keywords (mode : MatchMode) (cs : bool) (v : VideoInfo) :
  KeywordMatcher.match_ (mkMatcherConfig [] mode cs) v = false
  /\ KeywordMatcher.performMatching (mkMatcherConfig [] all cs)
       (KeywordMatcher.prepareTextForMatching (mkMatcherConfig [] all cs) v)
     = true.
Proof.
  split.
  - unfold KeywordMatcher.match_. simpl. reflexivity.
  - apply performMatching_all_no_keywords.
Qed.

(** ** History Store *)

Lemma hasWatched_monotone (store : HistoryService.t) (v : VideoInfo) (d : Z)
    (kws : list string) (src : VideoSource) (sid : string)
    (sim : option HistoryService.SimulatedData) (videoId : string) :
  HistoryService.hasWatched store videoId = true ->
  HistoryService.hasWatched (HistoryService.recordWatch store v d kws src sid sim) videoId
  = true.
Proof.
  unfold HistoryService.hasWatched, HistoryService.recordWatch; simpl.
  destruct (HistoryService.historyFile store) as [lines|]; simpl; [|discriminate].
  intros H. rewrite existsb_app, H. reflexivity.
Qed.

(** C5.  Right after [recordWatch] of a video, [hasWatched] of its id is
    true, whatever the store held and whatever else was recorded with it. *)
Theorem hasWatched_after_recordWatch (store : HistoryService.t) (v : VideoInfo)
    (d : Z) (kws : list string) (src : VideoSource) (sid : string)
    (sim : option HistoryService.SimulatedData) :
  HistoryService.hasWatched (HistoryService.recordWatch store v d kws src sid sim) (id v)
  = true.
Proof.
  unfold HistoryService.hasWatched, HistoryService.recordWatch; simpl.
  destruct (HistoryService.historyFile store) as [lines|]; simpl.
  - rewrite existsb_app. simpl. rewrite String.eqb_refl.
    now rewrite orb_true_r.
  - now rewrite String.eqb_refl.
Qed.

(** ** Telemetry Emitter *)

Section TelemetryEmitter.
Import BilibiliPlaybackSimulator.
Local Open Scope Q_scope.

Lemma safeSimulatedDuration_failure (sim : t) (nominal rv rb : Q)
    (page : Reply unit) (info : Reply ResolvedVideo) :
  page = Rejected \/ info = Rejected ->
  safeSimulatedDuration sim nominal page info rv rb = 0.
Proof.
  intros [-> | ->]; [reflexivity|]. now destruct page.
Qed.

(** The value of step 2.6 never exceeds its clamp. *)
Lemma safeSimulatedDuration_le_maxSafe (sim : t) (nominal rv rb : Q)
    (page : Reply unit) (info : ResolvedVideo) :
  safeSimulatedDuration sim nominal page (Resolved info) rv rb
  <= maxSafeSimulatedDuration info rb.
Proof.
  destruct page as [u|]; simpl.
  - apply Q.le_min_r.
  - unfold maxSafeSimulatedDuration.
    apply Qle_trans with (y := 5); [lra | apply Q.le_max_l].
Qed.


End TelemetryEmitter.





(** ** Session Queue of the simulated-playback manager *)

Section ManagerQueue.
Import SimulatedPlaybackManager.

Lemma addToQueue_videoQueue (history : HistoryService.t) (m : t)
    (videos : list VideoInfo) (source : option VideoSource) :
  videoQueue (addToQueue history m videos source)
  = videoQueue m
    ++ map (fun v => mkItem v (match source with
                               | Some s => s
                               | None => currentVideoSource m
                               end))
           (filter (isNew history m) videos).
Proof.
  unfold addToQueue.
  destruct (filter (isNew history m) videos) as [|v vs]; simpl.
  - now rewrite app_nil_r.
  - reflexivity.
Qed.

Lemma queueIds_addToQueue (history : HistoryService.t) (m : t)
    (videos : list VideoInfo) (source : option VideoSource) :
  queueIds (addToQueue history m videos source)
  = queueIds m ++ map id (filter (isNew history m) videos).
Proof.
  unfold queueIds. rewrite addToQueue_videoQueue, map_app, map_map. reflexivity.
Qed.

Lemma queued_false (m : t) (v : VideoInfo) :
  queued m v = false -> ~ In (id v) (queueIds m).
Proof.
  unfold queued, queueIds. induction (videoQueue m) as [|item q IH]; simpl.
  - tauto.
  - intros H. apply orb_false_iff in H as [H1 H2].
    intros [Heq | Hin]; [|now apply IH].
    rewrite Heq, String.eqb_refl in H1. discriminate.
Qed.

Lemma isNew_true (history : HistoryService.t) (m : t) (v : VideoInfo) :
  isNew history m v = true ->
  HistoryService.hasWatched history (id v) = false /\ queued m v = false.
Proof.
  unfold isNew.
  destruct (HistoryService.hasWatched history (id v)); [discriminate|].
  destruct (queued m v); [discriminate|]. tauto.
Qed.

(** Filtering a batch of pairwise distinct ids keeps them distinct. *)
Lemma distinct_ids_filter (keep : VideoInfo -> bool) (videos : list VideoInfo) :
  NoDup (map id videos) -> NoDup (map id (filter keep videos)).
Proof.
  induction videos as [|v videos IH]; simpl; intros Hd; [constructor|].
  apply NoDup_cons_iff in Hd as [Hfresh Hd].
  destruct (keep v); simpl; [|now apply IH].
  apply NoDup_cons; [|now apply IH].
  intros Hin. apply Hfresh.
  apply in_map_iff in Hin as [u [Hu Hin]].
  apply filter_In in Hin as [Hin _].
  apply in_map_iff. now exists u.
Qed.

(** A batch whose ids are pairwise distinct keeps the queue duplicate-free. *)
Lemma addToQueue_distinct_batch (history : HistoryService.t) (m : t)
    (videos : list VideoInfo) (source : option VideoSource) :
  NoDup (queueIds m) ->
  NoDup (map id videos) ->
  NoDup (queueIds (addToQueue history m videos source)).
Proof.
  intros Hq Hv. rewrite queueIds_addToQueue.
  apply NoDup_app; [assumption | now apply distinct_ids_filter |].
  intros a Ha Hin. apply in_map_iff in Hin as [v [<- Hin]].
  apply filter_In in Hin as [_ Hnew].
  apply isNew_true in Hnew as [_ Hnq].
  now apply (queued_false m v).
Qed.

(** Admission to the manager's queue lets no watched video in. *)
Lemma addToQueue_admits_unwatched (history : HistoryService.t) (m : t)
    (videos : list VideoInfo) (source : option VideoSource) (item : QueueItem) :
  In item (videoQueue (addToQueue history m videos source)) ->
  In item (videoQueue m)
  \/ (In (itemVideo item) videos
      /\ HistoryService.hasWatched history (id (itemVideo item)) = false
      /\ queued m (itemVideo item) = false).
Proof.
  rewrite addToQueue_videoQueue. intros H.
  apply in_app_or in H as [H | H]; [now left | right].
  apply in_map_iff in H as [v [<- Hin]]. simpl.
  apply filter_In in Hin as [Hin Hnew].
  apply isNew_true in Hnew. tauto.
Qed.

End ManagerQueue.

(** Whatever [simulatePlayback] returned, 0 for an aborted sequence
    included, and however short the run, the manager records the video when
    its promise settles. *)
Lemma processVideo_settle_records (k : nat) (simulated : Q) (playDuration : Z)
    (history : HistoryService.t) (m : SimulatedPlaybackManager.t)
    (item : SimulatedPlaybackManager.QueueItem) :
  nth_error (SimulatedPlaybackManager.inFlight m) k = Some item ->
  HistoryService.hasWatched
    (fst (SimulatedPlaybackManager.processVideo_settle k simulated playDuration
            (history, m)))
    (id (SimulatedPlaybackManager.itemVideo item)) = true.
Proof.
  intros Hk. unfold SimulatedPlaybackManager.processVideo_settle. rewrite Hk.
  unfold HistoryService.hasWatched, HistoryService.recordWatch,
    HistoryService.appendFileSync; simpl.
  destruct (HistoryService.historyFile history) as [lines|]; simpl;
    [rewrite existsb_app; simpl|]; rewrite String.eqb_refl;
    auto using orb_true_r.
Qed.

(** C10.  A batch that carries the same video twice passes the filter of
    [addToQueue] twice, the queue being tested as it was before the call:
    from an empty queue the call leaves two entries of one id. *)
Theorem addToQueue_duplicate_in_batch :
  NoDup (queueIds idleManager)
  /\ queueIds (SimulatedPlaybackManager.addToQueue emptyStore idleManager
                 [catClip; catClip] (Some home))
     = ["BV1A"; "BV1A"]
  /\ ~ NoDup (queueIds (SimulatedPlaybackManager.addToQueue emptyStore idleManager
                          [catClip; catClip] (Some home))).
Proof.
  split; [constructor|]. split; [reflexivity|].
  intros H. vm_compute in H. inversion H as [|x l Hnotin _]; subst.
  apply Hnotin. now left.
Qed.

(** ** Worker pool of the concurrent player *)

Section UpdateAt.
Context {A : Type}.

Lemma nth_error_updateAt (i j : nat) (f : A -> A) (l : list A) :
  nth_error (updateAt i f l) j
  = if (i =? j)%nat then option_map f (nth_error l j) else nth_error l j.
Proof.
  revert i j; induction l as [|x l IH]; intros i j.
  - destruct i, j; simpl; try reflexivity; now destruct (i =? j)%nat.
  - destruct i as [|i], j as [|j]; simpl; try reflexivity.
    apply IH.
Qed.

Lemma nth_error_updateAt_same (i : nat) (f : A -> A) (l : list A) (x : A) :
  nth_error l i = Some x -> nth_error (updateAt i f l) i = Some (f x).
Proof.
  intros H. rewrite nth_error_updateAt, Nat.eqb_refl, H. reflexivity.
Qed.


Lemma findIndex_some (p : A -> bool) (l : list A) (i : nat) :
  findIndex p l = Some i -> exists x, nth_error l i = Some x /\ p x = true.
Proof.
  revert i; induction l as [|x l IH]; simpl; intros i H; [discriminate|].
  destruct (p x) eqn:Hp.
  - injection H as <-. simpl. eauto.
  - destruct (findIndex p l) as [j|]; [|discriminate].
    injection H as <-. simpl. now apply IH.
Qed.

End UpdateAt.

Section WorkerPool.
Import ConcurrentPlayer.

Lemma getNextTask_pending (pool pool' : t) (i : nat) :
  getNextTask pool = (Some i, pool') ->
  exists task, nth_error (taskQueue pool) i = Some task
               /\ isPending (status task) = true
               /\ pool' = mutateTask i (withStatus playing) pool.
Proof.
  unfold getNextTask.
  destruct (findIndex _ (taskQueue pool)) as [j|] eqn:E; [|discriminate].
  intros H. injection H as <- <-.
  apply findIndex_some in E as [task [H1 H2]]. eauto.
Qed.





Lemma recordTask_pool (i : nat) (d : Z) (st : St) : snd (recordTask i d st) = snd st.
Proof.
  destruct st as [history pool]. unfold recordTask.
  destruct (nth_error (taskQueue pool) i); reflexivity.
Qed.




(** [executeTask] has no exit by exception: its [catch] takes the throw of
    the play and neither block after it throws. *)
Lemma executeTask_resume_returns (w i : nat) (r : PlayResult) (st : St) :
  executeTask_resume w i r st
  = Eff.Returned
      (releasePlayer w i
         (match r with
          | PlayOk e => completeTask i e st
          | PlayThrows e => failTask i e st
          end)) tt.
Proof. destruct r; reflexivity. Qed.




End WorkerPool.

Section PendingSet.
Import ConcurrentPlayer.

Lemma pending_updateAt (i : nat) (f : PlayTask -> PlayTask) (queue : list PlayTask)
    (task : PlayTask) :
  nth_error queue i = Some task ->
  (List.length (filter (fun x => isPending (status x)) (updateAt i f queue))
   + (if isPending (status task) then 1 else 0)
   = List.length (filter (fun x => isPending (status x)) queue)
     + (if isPending (status (f task)) then 1 else 0))%nat.
Proof.
  revert i; induction queue as [|x queue IH]; intros i Hi.
  - destruct i; discriminate.
  - destruct i as [|i]; simpl in *.
    + injection Hi as ->.
      destruct (isPending (status task)), (isPending (status (f task))); simpl; lia.
    + specialize (IH i Hi). destruct (isPending (status x)); simpl; lia.
Qed.

(** Taking a task takes exactly one task out of the pending set. *)
Lemma getNextTask_pendingCount (pool pool' : t) (i : nat) :
  getNextTask pool = (Some i, pool') -> S (pendingCount pool') = pendingCount pool.
Proof.
  intros H. apply getNextTask_pending in H as (task & Htask & Hpending & ->).
  unfold pendingCount, mutateTask. simpl.
  pose proof (pending_updateAt i (withStatus playing) (taskQueue pool) task Htask) as E.
  rewrite Hpending in E. simpl in E. lia.
Qed.


End PendingSet.

Lemma records_recordWatch (store : HistoryService.t) (v : VideoInfo) (d : Z)
    (kws : list string) (src : VideoSource) (sid : string) :
  HistoryService.records (HistoryService.recordWatch store v d kws src sid None)
  = HistoryService.records store
    ++ [HistoryService.mkWatchHistory v d kws src sid
          (HistoryService.servicePlatform store) false None None None].
Proof.
  unfold HistoryService.records, HistoryService.recordWatch; simpl.
  destruct (HistoryService.historyFile store) as [lines|]; simpl; [|reflexivity].
  rewrite flat_map_app. reflexivity.
Qed.


Lemma playTargetVideo_returns (platform : AlgorithmFeeder.Platform)
    (feeder : AlgorithmFeeder.t) (v : VideoInfo) (searchKeyword : option string)
    (src : VideoSource) :
  Eff.returns (AlgorithmFeeder.playTargetVideo platform v searchKeyword src feeder) = true.
Proof.
  unfold AlgorithmFeeder.playTargetVideo, Eff.bind, Eff.get, Eff.tryCatch, Eff.modify.
  destruct (AlgorithmFeeder.playVideo platform _); reflexivity.
Qed.






(** ** De-duplication against the History Store *)

Section Dispatch.
Import ConcurrentPlayer.

Lemma getNextTask_calls (pool : t) :
  playVideoCalls (snd (getNextTask pool)) = playVideoCalls pool.
Proof.
  unfold getNextTask. destruct (findIndex _ (taskQueue pool)); reflexivity.
Qed.

Lemma recordTask_calls (i : nat) (d : Z) (st : St) :
  playVideoCalls (snd (recordTask i d st)) = playVideoCalls (snd st).
Proof. now rewrite recordTask_pool. Qed.

Lemma executeTask_resume_calls (w i : nat) (r : PlayResult) (st : St) :
  playVideoCalls (snd (Eff.finalState (executeTask_resume w i r st)))
  = playVideoCalls (snd st).
Proof.
  rewrite executeTask_resume_returns. simpl. unfold releasePlayer.
  assert (H : playVideoCalls
                (snd match r with
                     | PlayOk e => completeTask i e st
                     | PlayThrows e => failTask i e st
                     end) = playVideoCalls (snd st)).
  { destruct r as [e|e]; unfold completeTask, failTask.
    - now rewrite recordTask_calls.
    - destruct (e >? 1000)%Z; [now rewrite recordTask_calls | reflexivity]. }
  destruct (nth_error _ i); simpl; exact H.
Qed.

(** [addToQueue] queues a task for every video it is given, in order. *)
Lemma newTasks_videos (pool : ConcurrentPlayer.t) (counter : nat)
    (videos : list VideoInfo) (kws : list string) (src : VideoSource) :
  map ConcurrentPlayer.video (ConcurrentPlayer.newTasks pool counter videos kws src)
  = videos.
Proof.
  revert counter. induction videos as [|v rest IH]; intros counter; simpl;
    [reflexivity | now rewrite IH].
Qed.

(** A worker that takes a task whose video is in the history completes it
    on the spot: no play, no record. *)
Lemma playerWorker_poll_watched (now : Z) (w i : nat) (history : HistoryService.t)
    (pool pool1 : t) (player : PlayerInstance) (task : PlayTask) :
  nth_error (players pool) w = Some player ->
  isRunning pool = true ->
  isActive player = false ->
  getNextTask pool = (Some i, pool1) ->
  nth_error (taskQueue pool1) i = Some task ->
  HistoryService.hasWatched history (id (video task)) = true ->
  let st' := playerWorker_poll now w (history, pool) in
  fst st' = history
  /\ playVideoCalls (snd st') = playVideoCalls pool
  /\ nth_error (taskQueue (snd st')) i = Some (withStatus completed task)
  /\ completedTasks (snd st') = completedTasks pool ++ [withStatus completed task].
Proof.
  intros Hp Hrun Hidle Hnext Htask Hseen. simpl.
  rewrite Hp, Hrun, Hidle, Hnext, Htask, Hseen. simpl.
  pose proof (getNextTask_calls pool) as Hc. rewrite Hnext in Hc. simpl in Hc.
  apply getNextTask_pending in Hnext as (task0 & _ & _ & ->).
  repeat split; try assumption.
  exact (nth_error_updateAt_same i (withStatus completed) _ task Htask).
Qed.

(** Whatever the pool does next, a play it starts is for a video that the
    history does not hold at that moment. *)
Lemma step_plays_unwatched (a : Action) (st : St) :
  playVideoCalls (snd (step a st)) = playVideoCalls (snd st)
  \/ exists v, playVideoCalls (snd (step a st)) = playVideoCalls (snd st) ++ [v]
               /\ HistoryService.hasWatched (fst st) (id v) = false.
Proof.
  destruct a as [w now | w r]; simpl.
  - destruct st as [history pool]. simpl.
    destruct (nth_error (players pool) w) as [player|] eqn:Hp; [|now left].
    destruct (negb (isRunning pool) || isActive player); [now left|].
    pose proof (getNextTask_calls pool) as Hc.
    destruct (getNextTask pool) as [[i|] pool1] eqn:Hnext; simpl in Hc;
      [|left; exact Hc].
    destruct (nth_error (taskQueue pool1) i) as [task|] eqn:Htask; [|left; exact Hc].
    destruct (HistoryService.hasWatched history (id (video task))) eqn:Hseen.
    + left. exact Hc.
    + unfold executeTask_begin. rewrite Htask.
      destruct (nth_error (players pool1) w); [|left; exact Hc].
      right. exists (video task). simpl. rewrite Hc. split; [reflexivity | exact Hseen].
  - left. unfold playerWorker_resume.
    destruct (nth_error (players (snd st)) w) as [player|]; [|reflexivity].
    destruct (currentTask player) as [i|]; [|reflexivity].
    unfold Eff.tryCatch.
    pose proof (executeTask_resume_calls w i r st) as H.
    destruct (executeTask_resume w i r st); exact H.
Qed.

End Dispatch.

(** A turn of the manager's loop hands out the head of the queue or
    nothing; the history is not consulted. *)
Lemma processingLoop_turn_dispatches_head (m : SimulatedPlaybackManager.t) :
  SimulatedPlaybackManager.processingLoop_turn m = m
  \/ exists item rest,
       SimulatedPlaybackManager.videoQueue m = item :: rest
       /\ SimulatedPlaybackManager.videoQueue
            (SimulatedPlaybackManager.processingLoop_turn m) = rest
       /\ SimulatedPlaybackManager.simulateCalls
            (SimulatedPlaybackManager.processingLoop_turn m)
          = SimulatedPlaybackManager.simulateCalls m
            ++ [SimulatedPlaybackManager.itemVideo item].
Proof.
  unfold SimulatedPlaybackManager.processingLoop_turn.
  destruct (negb (SimulatedPlaybackManager.isProcessing m)); [now left|].
  destruct (SimulatedPlaybackManager.videoQueue m) as [|item rest] eqn:Hq; [now left|].
  destruct (_ >=? _)%Z; [now left|].
  right. exists item, rest. repeat split.
Qed.

(** Four executions in which a video is queued or played again.  In
    concurrent-player mode a cycle queues a pending task for a video the
    history already holds; a
    video whose first play failed within a second, and so left no record, is
    played again from its second task; in single-player mode the active
    search plays a watched search result again and records it a second
    time; and the manager admits a video a second time while its first play
    is in flight, and hands it to [simulatePlayback] again after that play
    has settled and the history holds it. *)
Lemma watched_requeued_and_replayed :
  (HistoryService.hasWatched watchedStore (id catClip) = true
   /\ option_map
        (fun pool => map (fun task => (id (ConcurrentPlayer.video task),
                                       ConcurrentPlayer.status task))
                         (ConcurrentPlayer.taskQueue pool))
        (AlgorithmFeeder.concurrentPlayer
           (Eff.finalState (AlgorithmFeeder.feedingCycle catPlatform concurrentFeeder)))
      = Some [("BV1A", ConcurrentPlayer.pending)])
  /\ map id (ConcurrentPlayer.playVideoCalls
               (snd (ConcurrentPlayer.run
                       [ConcurrentPlayer.Poll 0 0;
                        ConcurrentPlayer.Resume 0 (PlayThrows 500);
                        ConcurrentPlayer.Poll 0 1000]
                       queuedTwice)))
     = ["BV1A"; "BV1A"]
  /\ (map id (AlgorithmFeeder.playVideoCalls
                (Eff.finalState
                   (AlgorithmFeeder.performActiveSearch catPlatform singleFeeder)))
      = ["BV1A"]
      /\ map (fun r => id (HistoryService.video r))
             (HistoryService.records
                (AlgorithmFeeder.historyService
                   (Eff.finalState
                      (AlgorithmFeeder.performActiveSearch catPlatform singleFeeder))))
         = ["BV1A"; "BV1A"])
  /\ (HistoryService.hasWatched (fst readmittedInFlight) (id catClip) = true
      /\ map id (SimulatedPlaybackManager.simulateCalls (snd readmittedInFlight))
         = ["BV1A"]
      /\ map id (SimulatedPlaybackManager.simulateCalls
                   (snd (ManagerLife.apply ManagerLife.Turn readmittedInFlight)))
         = ["BV1A"; "BV1A"]).
Proof. repeat split; vm_compute; reflexivity. Qed.

(** C4 (amended).  The manager's [addToQueue] lets in only videos of the
    batch that the history does not hold and that are not queued already,
    and a turn of its loop hands out the head of the queue without looking
    at the history; a worker of the concurrent player that takes a task
    whose video the history holds marks it completed, starts no play and
    records nothing; every play a worker of the concurrent player starts is
    for a video the history does not hold at that moment; and the
    concurrent player's [addToQueue] queues a task for every video it is
    given. *)
Theorem watched_video_not_played_by_pool :
  (forall (history : HistoryService.t) (m : SimulatedPlaybackManager.t)
          (videos : list VideoInfo) (source : option VideoSource)
          (item : SimulatedPlaybackManager.QueueItem),
      In item (SimulatedPlaybackManager.videoQueue
                 (SimulatedPlaybackManager.addToQueue history m videos source)) ->
      In item (SimulatedPlaybackManager.videoQueue m)
      \/ (In (SimulatedPlaybackManager.itemVideo item) videos
          /\ HistoryService.hasWatched history
               (id (SimulatedPlaybackManager.itemVideo item)) = false
          /\ ~ In (id (SimulatedPlaybackManager.itemVideo item)) (queueIds m)))
  /\ (forall (now : Z) (w i : nat) (history : HistoryService.t)
             (pool pool1 : ConcurrentPlayer.t) (player : ConcurrentPlayer.PlayerInstance)
             (task : ConcurrentPlayer.PlayTask),
         nth_error (ConcurrentPlayer.players pool) w = Some player ->
         ConcurrentPlayer.isRunning pool = true ->
         ConcurrentPlayer.isActive player = false ->
         ConcurrentPlayer.getNextTask pool = (Some i, pool1) ->
         nth_error (ConcurrentPlayer.taskQueue pool1) i = Some task ->
         HistoryService.hasWatched history (id (ConcurrentPlayer.video task)) = true ->
         let st' := ConcurrentPlayer.playerWorker_poll now w (history, pool) in
         fst st' = history
         /\ ConcurrentPlayer.playVideoCalls (snd st') = ConcurrentPlayer.playVideoCalls pool
         /\ nth_error (ConcurrentPlayer.taskQueue (snd st')) i
            = Some (ConcurrentPlayer.withStatus ConcurrentPlayer.completed task)
         /\ ConcurrentPlayer.completedTasks (snd st')
            = ConcurrentPlayer.completedTasks pool
              ++ [ConcurrentPlayer.withStatus ConcurrentPlayer.completed task])
  /\ (forall (a : ConcurrentPlayer.Action) (st : ConcurrentPlayer.St),
         ConcurrentPlayer.playVideoCalls (snd (ConcurrentPlayer.step a st))
         = ConcurrentPlayer.playVideoCalls (snd st)
         \/ exists v : VideoInfo,
              ConcurrentPlayer.playVideoCalls (snd (ConcurrentPlayer.step a st))
              = ConcurrentPlayer.playVideoCalls (snd st) ++ [v]
              /\ HistoryService.hasWatched (fst st) (id v) = false)
  /\ (forall m : SimulatedPlaybackManager.t,
         SimulatedPlaybackManager.processingLoop_turn m = m
         \/ exists item rest,
              SimulatedPlaybackManager.videoQueue m = item :: rest
              /\ SimulatedPlaybackManager.videoQueue
                   (SimulatedPlaybackManager.processingLoop_turn m) = rest
              /\ SimulatedPlaybackManager.simulateCalls
                   (SimulatedPlaybackManager.processingLoop_turn m)
                 = SimulatedPlaybackManager.simulateCalls m
                   ++ [SimulatedPlaybackManager.itemVideo item])
  /\ (forall (pool : ConcurrentPlayer.t) (videos : list VideoInfo)
             (kws : list string) (src : VideoSource),
         map ConcurrentPlayer.video
             (ConcurrentPlayer.taskQueue (ConcurrentPlayer.addToQueue pool videos kws src))
         = map ConcurrentPlayer.video (ConcurrentPlayer.taskQueue pool) ++ videos).
Proof.
  split; [|split; [|split; [|split]]].
  - intros history m videos source item Hin.
    apply addToQueue_admits_unwatched in Hin.
    destruct Hin as [Hold | (Hbatch & Hnew & Hq)]; [now left | right].
    repeat split; try assumption. now apply queued_false.
  - intros. now apply (playerWorker_poll_watched now w i history pool pool1 player task).
  - apply step_plays_unwatched.
  - apply processingLoop_turn_dispatches_head.
  - intros pool videos kws src. unfold ConcurrentPlayer.addToQueue. simpl.
    now rewrite map_app, newTasks_videos.
Qed.

Lemma watched_video_not_played_by_pool_witness :
  HistoryService.hasWatched watchedStore (id catClip) = true
  /\ ConcurrentPlayer.playVideoCalls
       (snd (ConcurrentPlayer.playerWorker_poll 0 0
               (watchedStore,
                ConcurrentPlayer.addToQueue onePlayerPool [catClip] ["cat"] home)))
     = []
  /\ fst (ConcurrentPlayer.playerWorker_poll 0 0
            (watchedStore,
             ConcurrentPlayer.addToQueue onePlayerPool [catClip] ["cat"] home))
     = watchedStore.
Proof.
  split; [reflexivity|].
  destruct (proj1 (proj2 watched_video_not_played_by_pool) 0%Z 0%nat 0%nat watchedStore
              (ConcurrentPlayer.addToQueue onePlayerPool [catClip] ["cat"] home)
              _ _ _ eq_refl eq_refl eq_refl eq_refl eq_refl eq_refl)
    as (Hhist & Hcalls & _).
  split; [exact Hcalls | exact Hhist].
Defined.

(** ** Capacity of the Session Queue *)

(** C3.  In simulated-playback mode the capacity test of the cycle reads the
    feeder's own [videoQueue], which stays empty, while the videos go to the
    manager's queue: with capacity 2, one cycle with three matches leaves 3
    videos queued for the workers; with 2 still queued at the start of the
    next cycle the test does not hold admission back, and 5 are queued
    after it. *)
Theorem manager_queue_exceeds_capacity :
  orZ (maxQueueSize (AlgorithmFeeder.config simulatedFeeder)) 20 = 2%Z
  /\ managerQueueLength afterFirstCycle = Some 3%nat
  /\ AlgorithmFeeder.videoQueue afterFirstCycle = []
  /\ managerQueueLength beforeSecondCycle = Some 2%nat
  /\ AlgorithmFeeder.queueFull beforeSecondCycle = false
  /\ managerQueueLength afterSecondCycle = Some 5%nat.
Proof. repeat split; vm_compute; reflexivity. Qed.

(** ** Orchestrator: the consecutive-miss counter *)

Section MissCounter.
Import AlgorithmFeeder.

Lemma steady_keeps {A} (c : Eff.M t A) : steady c -> keeps c.
Proof.
  intros H f. destruct (H f) as (f' & a & -> & Hm). exact Hm.
Qed.

Lemma steady_ret {A} (a : A) : steady (Eff.ret a).
Proof. intros f. now exists f, a. Qed.

Lemma steady_get : steady (@Eff.get t).
Proof. intros f. now exists f, f. Qed.

Lemma steady_modify (g : t -> t) :
  (forall f, missedRounds (g f) = missedRounds f) -> steady (Eff.modify g).
Proof. intros H f. exists (g f), tt. split; [reflexivity | apply H]. Qed.

Lemma steady_bind {A B} (c : Eff.M t A) (k : A -> Eff.M t B) :
  steady c -> (forall a, steady (k a)) -> steady (Eff.bind c k).
Proof.
  intros Hc Hk f. unfold Eff.bind.
  destruct (Hc f) as (f1 & a & -> & H1).
  destruct (Hk a f1) as (f2 & b & -> & H2).
  exists f2, b. split; [reflexivity | congruence].
Qed.

Lemma keeps_bind {A B} (c : Eff.M t A) (k : A -> Eff.M t B) :
  keeps c -> (forall a, keeps (k a)) -> keeps (Eff.bind c k).
Proof.
  intros Hc Hk f. unfold Eff.bind. specialize (Hc f).
  destruct (c f) as [f1 a | f1]; simpl in *; [|exact Hc].
  rewrite (Hk a f1). exact Hc.
Qed.

Lemma keeps_awaitReply {A} (r : Reply A) : keeps (@awaitReply t A r).
Proof. intros f. now destruct r. Qed.

(** [try { body } catch { handler }] always returns when its handler does. *)
Lemma steady_tryCatch {A} (body handler : Eff.M t A) :
  keeps body -> steady handler -> steady (Eff.tryCatch body handler).
Proof.
  intros Hb Hh f. unfold Eff.tryCatch. specialize (Hb f).
  destruct (body f) as [f1 a | f1]; simpl in Hb.
  - now exists f1, a.
  - destruct (Hh f1) as (f2 & a & -> & H2). exists f2, a.
    split; [reflexivity | congruence].
Qed.

Lemma steady_playTargetVideo (platform : Platform) (v : VideoInfo)
    (searchKeyword : option string) (src : VideoSource) :
  steady (playTargetVideo platform v searchKeyword src).
Proof.
  intros f. unfold playTargetVideo, Eff.bind, Eff.get, Eff.tryCatch, Eff.modify.
  destruct (playVideo platform _) as [e|e]; simpl.
  - eexists; eexists; split; reflexivity.
  - destruct (e >? 1000)%Z; eexists; eexists; split; reflexivity.
Qed.

Lemma steady_processVideos (platform : Platform) (queue : list VideoInfo) :
  steady (processVideos platform queue).
Proof.
  induction queue as [|v rest IH]; simpl.
  - apply steady_ret.
  - apply steady_bind; [now apply steady_modify | intros _].
    apply steady_bind; [apply steady_get | intros f].
    destruct (HistoryService.hasWatched _ _); [exact IH|].
    apply steady_bind; [apply steady_playTargetVideo | intros _; exact IH].
Qed.

Lemma steady_admitTargets (platform : Platform) (videosToAdd : list VideoInfo) :
  steady (admitTargets platform videosToAdd).
Proof.
  unfold admitTargets. apply steady_bind; [apply steady_get | intros f].
  destruct (simulatedPlaybackManager f) as [m|];
    [now apply steady_modify|].
  destruct (concurrentPlayer f) as [p|]; [now apply steady_modify|].
  apply steady_bind; [now apply steady_modify | intros _].
  unfold processVideoQueue. apply steady_bind; [apply steady_get | intros g].
  destruct (isRunning g); [apply steady_processVideos | apply steady_ret].
Qed.

Lemma steady_selectSearchKeyword (platform : Platform) :
  steady (selectSearchKeyword platform).
Proof.
  unfold selectSearchKeyword. apply steady_bind; [apply steady_get | intros f].
  destruct (List.length _ =? 0)%nat; [apply steady_ret|].
  destruct (activeSearchStrategy (config f)) as [[| |]|]; try apply steady_ret.
  apply steady_bind; [now apply steady_modify | intros _; apply steady_ret].
Qed.

Lemma steady_admitSearched (platform : Platform) (firstVideo : VideoInfo)
    (others : list VideoInfo) (playerKeywords : list string) (keyword : string) :
  steady (admitSearched platform firstVideo others playerKeywords keyword).
Proof.
  unfold admitSearched. apply steady_bind; [apply steady_get | intros f].
  destruct (simulatedPlaybackManager f) as [m|]; [now apply steady_modify|].
  destruct (concurrentPlayer f) as [p|]; [now apply steady_modify|].
  apply steady_playTargetVideo.
Qed.

(** [performActiveSearch] always returns a verdict and never touches the
    counter itself. *)
Lemma steady_performActiveSearch (platform : Platform) :
  steady (performActiveSearch platform).
Proof.
  unfold performActiveSearch. apply steady_tryCatch; [|apply steady_ret].
  destruct (searchVideos platform) as [sv|]; [|apply steady_keeps, steady_ret].
  apply keeps_bind; [apply steady_keeps, steady_selectSearchKeyword | intros selected].
  destruct selected as [keyword|]; [|apply steady_keeps, steady_ret].
  destruct (negb (JsString.truthy keyword)); [apply steady_keeps, steady_ret|].
  apply keeps_bind; [apply keeps_awaitReply | intros searchResults].
  apply keeps_bind; [apply steady_keeps, steady_get | intros f].
  destruct searchResults as [|firstVideo rest]; [apply steady_keeps, steady_ret|].
  destruct (filter _ (firstVideo :: rest)) as [|selectedVideo others];
    (apply steady_keeps, steady_bind;
     [apply steady_admitSearched | intros _; apply steady_ret]).
Qed.

Lemma checkActiveSearch_counter (platform : Platform) (f : t) :
  exists f', checkActiveSearch platform f = Eff.Returned f' tt
             /\ missedRounds f'
                = if searchDue f
                  then if searchSucceeds platform f then 0%nat
                       else (missedRounds f / 2)%nat
                  else missedRounds f.
Proof.
  unfold checkActiveSearch, searchDue, searchSucceeds, Eff.bind, Eff.get. simpl.
  destruct (enableActiveSearch (config f)); simpl; [|now exists f].
  destruct (Z.of_nat (missedRounds f) >=? _)%Z; [|now exists f].
  destruct (steady_performActiveSearch platform f) as (f1 & success & -> & Hm).
  destruct success; simpl; eexists; (split; [reflexivity|]); simpl; congruence.
Qed.

End MissCounter.

(** C6.  A cycle that gets its recommendations and passes the capacity test
    ends normally and leaves the counter at 0 when a target was found; with
    no target the counter is first incremented and [checkActiveSearch] is
    entered: the counter ends at 0 when a search runs and succeeds, at half
    (rounded down) of the value it had on entry to [checkActiveSearch] when
    a search runs and fails, and at the old value plus 1 when no search
    runs. *)
Theorem missedRounds_after_cycle (platform : AlgorithmFeeder.Platform)
    (f : AlgorithmFeeder.t) (videos : list VideoInfo) :
  AlgorithmFeeder.getRecommendedVideos platform = Resolved videos ->
  AlgorithmFeeder.queueFull f = false ->
  let targetVideos :=
    filter (KeywordMatcher.match_ (matcher (AlgorithmFeeder.config f))) videos in
  let entered :=
    AlgorithmFeeder.setMissedRounds (S (AlgorithmFeeder.missedRounds f)) f in
  exists f',
    AlgorithmFeeder.feedingCycle platform f = Eff.Returned f' tt
    /\ (targetVideos <> [] -> AlgorithmFeeder.missedRounds f' = 0%nat)
    /\ (targetVideos = [] -> searchDue entered = true ->
        searchSucceeds platform entered = true ->
        AlgorithmFeeder.missedRounds f' = 0%nat)
    /\ (targetVideos = [] -> searchDue entered = true ->
        searchSucceeds platform entered = false ->
        AlgorithmFeeder.missedRounds f'
        = (AlgorithmFeeder.missedRounds entered / 2)%nat
        /\ AlgorithmFeeder.missedRounds entered = S (AlgorithmFeeder.missedRounds f))
    /\ (targetVideos = [] -> searchDue entered = false ->
        AlgorithmFeeder.missedRounds f' = S (AlgorithmFeeder.missedRounds f)).
Proof.
  intros Hrec Hfull targetVideos entered.
  unfold AlgorithmFeeder.feedingCycle, Eff.tryCatch, Eff.bind, Eff.get.
  rewrite Hrec. simpl. rewrite Hfull. fold targetVideos.
  destruct targetVideos as [|v vs] eqn:Htargets; simpl.
  - destruct (checkActiveSearch_counter platform entered) as (f' & Hret & Hm).
    fold entered. rewrite Hret. exists f'. split; [reflexivity|].
    split; [congruence|].
    split; [intros _ Hdue Hok; now rewrite Hm, Hdue, Hok|].
    split; [intros _ Hdue Hko; now rewrite Hm, Hdue, Hko|].
    intros _ Hdue. now rewrite Hm, Hdue.
  - destruct (steady_admitTargets platform
                (AlgorithmFeeder.slice0 (v :: vs)
                   (orZ (maxVideosPerQueue (AlgorithmFeeder.config f)) 5))
                (AlgorithmFeeder.setMissedRounds 0 f)) as (f' & [] & Hret & Hm).
    rewrite Hret. exists f'. split; [reflexivity|].
    split; [intros _; exact Hm|].
    repeat split; intros; discriminate.
Qed.

Lemma missedRounds_after_cycle_witness :
  exists f',
    AlgorithmFeeder.feedingCycle barrenPlatform nineMissed = Eff.Returned f' tt
    /\ AlgorithmFeeder.missedRounds f' = 5%nat.
Proof.
  destruct (missedRounds_after_cycle barrenPlatform nineMissed [] eq_refl eq_refl)
    as (f' & Hret & _ & _ & Hhalf & _).
  exists f'. split; [exact Hret|].
  exact (proj1 (Hhalf eq_refl eq_refl eq_refl)).
Defined.

(** ** Orchestrator: the active search *)

(** In simulated-playback mode the top result goes through the filter of
    the manager's [addToQueue]: a top result that matches no keyword and is
    already watched is not queued, nothing is played or recorded, and the
    search still counts as a success. *)
Lemma activeSearch_watched_top_result :
  filter (KeywordMatcher.match_ sampleMatcher) [dogClip] = []
  /\ exists f',
       AlgorithmFeeder.performActiveSearch dogPlatform simulatedSearcher
       = Eff.Returned f' true
       /\ option_map SimulatedPlaybackManager.videoQueue
            (AlgorithmFeeder.simulatedPlaybackManager f') = Some []
       /\ AlgorithmFeeder.historyService f' = dogWatched
       /\ AlgorithmFeeder.playVideoCalls f' = [].
Proof.
  split; [reflexivity|]. eexists. split; [vm_compute; reflexivity|].
  repeat split.
Qed.

Section ActiveSearch.
Import AlgorithmFeeder.

(** Choosing the keyword changes nothing but the round-robin index. *)
Lemma selectSearchKeyword_state (platform : Platform) (f f1 : t) (k : option string) :
  selectSearchKeyword platform f = Eff.Returned f1 k ->
  f1 = f \/ f1 = setKeywordIndex (S (keywordIndex f)) f.
Proof.
  unfold selectSearchKeyword, Eff.bind, Eff.get, Eff.ret, Eff.modify.
  destruct (List.length _ =? 0)%nat; [intros H; injection H; auto|].
  destruct (activeSearchStrategy (config f)) as [[| |]|]; simpl;
    intros H; injection H; auto.
Qed.

Lemma newTasks_single (p : ConcurrentPlayer.t) (v : VideoInfo) (kws : list string)
    (src : VideoSource) :
  ConcurrentPlayer.taskQueue (ConcurrentPlayer.addToQueue p [v] kws src)
  = ConcurrentPlayer.taskQueue p
    ++ [ConcurrentPlayer.mkTask (S (ConcurrentPlayer.taskIdCounter p)) v
          (ConcurrentPlayer.getVideoMatchedKeywords p v kws) src
          ConcurrentPlayer.pending None None None].
Proof. reflexivity. Qed.

End ActiveSearch.

(** C7 (amended).  When the search returns results of which none matches,
    the search is a success and exactly the top result is handed to the
    admission path of the mode with source [search]: the manager queues it
    unless it is watched or queued already, the concurrent player queues a
    pending task for it, the single player plays it at once and records it
    with the search keyword.  A successful search run by
    [checkActiveSearch] resets the counter.  When the search returns no
    result it is a failure and queues, history and plays are as they
    were. *)
Theorem activeSearch_unmatched_results (platform : AlgorithmFeeder.Platform)
    (f f1 : AlgorithmFeeder.t) (sv : string -> Z -> Reply (list VideoInfo))
    (keyword : string) (results : list VideoInfo) :
  AlgorithmFeeder.searchVideos platform = Some sv ->
  AlgorithmFeeder.selectSearchKeyword platform f = Eff.Returned f1 (Some keyword) ->
  JsString.truthy keyword = true ->
  sv keyword 20%Z = Resolved results ->
  filter (KeywordMatcher.match_ (matcher (AlgorithmFeeder.config f1))) results = [] ->
  match results with
  | [] =>
      AlgorithmFeeder.performActiveSearch platform f = Eff.Returned f1 false
      /\ AlgorithmFeeder.simulatedPlaybackManager f1
         = AlgorithmFeeder.simulatedPlaybackManager f
      /\ AlgorithmFeeder.concurrentPlayer f1 = AlgorithmFeeder.concurrentPlayer f
      /\ AlgorithmFeeder.historyService f1 = AlgorithmFeeder.historyService f
      /\ AlgorithmFeeder.playVideoCalls f1 = AlgorithmFeeder.playVideoCalls f
  | firstVideo :: _ =>
      exists f',
        AlgorithmFeeder.performActiveSearch platform f = Eff.Returned f' true
        /\ (searchDue f = true ->
            AlgorithmFeeder.missedRounds
              (Eff.finalState (AlgorithmFeeder.checkActiveSearch platform f)) = 0%nat)
        /\ (forall m,
              AlgorithmFeeder.simulatedPlaybackManager f1 = Some m ->
              exists m',
                AlgorithmFeeder.simulatedPlaybackManager f' = Some m'
                /\ SimulatedPlaybackManager.videoQueue m'
                   = SimulatedPlaybackManager.videoQueue m
                     ++ (if SimulatedPlaybackManager.isNew
                              (AlgorithmFeeder.historyService f1) m firstVideo
                         then [SimulatedPlaybackManager.mkItem firstVideo search]
                         else [])
                /\ AlgorithmFeeder.historyService f' = AlgorithmFeeder.historyService f1
                /\ AlgorithmFeeder.playVideoCalls f' = AlgorithmFeeder.playVideoCalls f1)
        /\ (forall p,
              AlgorithmFeeder.simulatedPlaybackManager f1 = None ->
              AlgorithmFeeder.concurrentPlayer f1 = Some p ->
              exists p',
                AlgorithmFeeder.concurrentPlayer f' = Some p'
                /\ ConcurrentPlayer.taskQueue p'
                   = ConcurrentPlayer.taskQueue p
                     ++ [ConcurrentPlayer.mkTask (S (ConcurrentPlayer.taskIdCounter p))
                           firstVideo
                           (ConcurrentPlayer.getVideoMatchedKeywords p firstVideo [keyword])
                           search ConcurrentPlayer.pending None None None]
                /\ AlgorithmFeeder.historyService f' = AlgorithmFeeder.historyService f1
                /\ AlgorithmFeeder.playVideoCalls f' = AlgorithmFeeder.playVideoCalls f1)
        /\ (AlgorithmFeeder.simulatedPlaybackManager f1 = None ->
            AlgorithmFeeder.concurrentPlayer f1 = None ->
            AlgorithmFeeder.playVideoCalls f'
            = AlgorithmFeeder.playVideoCalls f1 ++ [firstVideo]
            /\ forall e,
                 AlgorithmFeeder.playVideo platform
                   (List.length (AlgorithmFeeder.playVideoCalls f1)) = PlayOk e ->
                 HistoryService.records (AlgorithmFeeder.historyService f')
                 = HistoryService.records (AlgorithmFeeder.historyService f1)
                   ++ [HistoryService.mkWatchHistory firstVideo e [keyword] search
                         (AlgorithmFeeder.sessionId f1)
                         (HistoryService.servicePlatform
                            (AlgorithmFeeder.historyService f1))
                         false None None None])
  end.
Proof.
  intros Hsv Hsel Hkw Hres Hnone.
  assert (Hrun : AlgorithmFeeder.performActiveSearch platform f
                 = match results with
                   | [] => Eff.Returned f1 false
                   | firstVideo :: _ =>
                       match AlgorithmFeeder.admitSearched platform firstVideo []
                               [keyword] keyword f1 with
                       | Eff.Returned f' _ => Eff.Returned f' true
                       | Eff.Thrown f' => Eff.Returned f' false
                       end
                   end).
  { unfold AlgorithmFeeder.performActiveSearch, Eff.tryCatch, Eff.bind.
    rewrite Hsv, Hsel, Hkw. simpl. rewrite Hres. simpl.
    destruct results as [|firstVideo rest]; [reflexivity|].
    rewrite Hnone. unfold Eff.ret.
    destruct (AlgorithmFeeder.admitSearched platform firstVideo [] [keyword] keyword f1);
      reflexivity. }
  destruct results as [|firstVideo rest].
  - split; [exact Hrun|].
    destruct (selectSearchKeyword_state platform f f1 _ Hsel) as [-> | ->];
      repeat split.
  - unfold AlgorithmFeeder.admitSearched, Eff.bind, Eff.get in Hrun. simpl in Hrun.
    destruct (AlgorithmFeeder.simulatedPlaybackManager f1) as [m|] eqn:Hm.
    + simpl in Hrun. eexists. split; [exact Hrun|].
      split.
      { intros Hdue.
        destruct (checkActiveSearch_counter platform f) as (g & Hret & Hcount).
        rewrite Hret. simpl. rewrite Hcount, Hdue. unfold searchSucceeds.
        now rewrite Hrun. }
      split.
      { intros m0 Hm0. injection Hm0 as <-. eexists. split; [reflexivity|].
        split; [|split; reflexivity].
        rewrite addToQueue_videoQueue. simpl.
        now destruct (SimulatedPlaybackManager.isNew _ m firstVideo). }
      split; [discriminate|]. discriminate.
    + destruct (AlgorithmFeeder.concurrentPlayer f1) as [p|] eqn:Hp.
      * simpl in Hrun. eexists. split; [exact Hrun|].
        split.
        { intros Hdue.
          destruct (checkActiveSearch_counter platform f) as (g & Hret & Hcount).
          rewrite Hret. simpl. rewrite Hcount, Hdue. unfold searchSucceeds.
          now rewrite Hrun. }
        split; [discriminate|].
        split.
        { intros p0 _ Hp0. injection Hp0 as <-. eexists. split; [reflexivity|].
          split; [apply newTasks_single | split; reflexivity]. }
        discriminate.
      * unfold AlgorithmFeeder.playTargetVideo, Eff.bind, Eff.get, Eff.tryCatch,
          Eff.modify in Hrun.
        destruct (AlgorithmFeeder.playVideo platform
                    (List.length (AlgorithmFeeder.playVideoCalls f1))) as [e|e] eqn:Hplay;
          simpl in Hrun.
        -- eexists. split; [exact Hrun|].
           split.
           { intros Hdue.
             destruct (checkActiveSearch_counter platform f) as (g & Hret & Hcount).
             rewrite Hret. simpl. rewrite Hcount, Hdue. unfold searchSucceeds.
             now rewrite Hrun. }
           split; [discriminate|]. split; [discriminate|].
           intros _ _. split; [reflexivity|].
           intros e0 He0. injection He0 as <-.
           unfold AlgorithmFeeder.recordPlay. rewrite Hkw. simpl.
           apply records_recordWatch.
        -- assert (Hret : exists f', AlgorithmFeeder.performActiveSearch platform f
                                     = Eff.Returned f' true
                                     /\ AlgorithmFeeder.playVideoCalls f'
                                        = AlgorithmFeeder.playVideoCalls f1 ++ [firstVideo]).
           { destruct (e >? 1000)%Z; simpl in Hrun; eexists; split;
               try exact Hrun; reflexivity. }
           destruct Hret as (f' & Hret & Hcalls). exists f'. split; [exact Hret|].
           split.
           { intros Hdue.
             destruct (checkActiveSearch_counter platform f) as (g & Hg & Hcount).
             rewrite Hg. simpl. rewrite Hcount, Hdue. unfold searchSucceeds.
             now rewrite Hret. }
           split; [discriminate|]. split; [discriminate|].
           intros _ _. split; [exact Hcalls | discriminate].
Qed.

Lemma activeSearch_unmatched_results_witness :
  exists f',
    AlgorithmFeeder.performActiveSearch dogPlatform freshSearcher = Eff.Returned f' true
    /\ option_map SimulatedPlaybackManager.videoQueue
         (AlgorithmFeeder.simulatedPlaybackManager f')
       = Some [SimulatedPlaybackManager.mkItem dogClip search].
Proof.
  destruct (activeSearch_unmatched_results dogPlatform freshSearcher freshSearcher
              (fun _ _ => Resolved [dogClip]) "cat" [dogClip]
              eq_refl eq_refl eq_refl eq_refl eq_refl)
    as (f' & Hret & _ & Hqueue & _).
  exists f'. split; [exact Hret|].
  destruct (Hqueue idleManager eq_refl) as (m' & Hm' & Hq & _).
  rewrite Hm'. simpl. rewrite Hq. reflexivity.
Defined.

(** * Further properties of the code *)

(** ** Keyword list maintenance *)

Section KeywordListFacts.
Import KeywordList.

Lemma arrayIncludes_In (ks : list string) (k : string) :
  arrayIncludes ks k = true <-> In k ks.
Proof.
  unfold arrayIncludes. rewrite existsb_exists. split.
  - intros [x [Hin Heq]]. apply String.eqb_eq in Heq. now subst.
  - intros Hin. exists k. split; [exact Hin | apply String.eqb_refl].
Qed.

End KeywordListFacts.

(** X1.  [removeKeywords] drops every occurrence of the given keywords and
    nothing else: a keyword that is not listed keeps each of its
    occurrences, the keywords kept stay in their order (the result for a
    list is the result for its front part followed by the result for its
    back part), mode and case flag are untouched; and removing what
    [addKeywords] has just appended leaves what removing from the original
    list leaves. *)
Theorem removeKeywords_exact (config : MatcherConfig) (ks : list string) :
  (forall k, In k (keywords (KeywordList.removeKeywords config ks))
             <-> In k (keywords config) /\ ~ In k ks)
  /\ keywords (KeywordList.removeKeywords (KeywordList.addKeywords config ks) ks)
     = keywords (KeywordList.removeKeywords config ks)
  /\ (forall k,
         ~ In k ks ->
         count_occ string_dec (keywords (KeywordList.removeKeywords config ks)) k
         = count_occ string_dec (keywords config) k)
  /\ (forall front back,
         keywords config = front ++ back ->
         keywords (KeywordList.removeKeywords config ks)
         = keywords (KeywordList.removeKeywords
                       (mkMatcherConfig front (matchMode config) (caseSensitive config))
                       ks)
           ++ keywords (KeywordList.removeKeywords
                          (mkMatcherConfig back (matchMode config)
                                           (caseSensitive config))
                          ks))
  /\ matchMode (KeywordList.removeKeywords config ks) = matchMode config
  /\ caseSensitive (KeywordList.removeKeywords config ks) = caseSensitive config.
Proof.
  split; [|split; [|split; [|split; [|split; reflexivity]]]].
  - intros k. unfold KeywordList.removeKeywords. simpl. rewrite filter_In.
    rewrite negb_true_iff, <- not_true_iff_false, arrayIncludes_In. tauto.
  - unfold KeywordList.removeKeywords, KeywordList.addKeywords. simpl.
    rewrite filter_app.
    assert (Hnone : filter (fun k => negb (KeywordList.arrayIncludes ks k)) ks = []).
    { assert (Hall : forall l, incl l ks ->
                filter (fun k => negb (KeywordList.arrayIncludes ks k)) l = []).
      { induction l as [|x l IH]; intros Hincl; [reflexivity|]. simpl.
        assert (Hx : KeywordList.arrayIncludes ks x = true)
          by (apply arrayIncludes_In, Hincl; now left).
        rewrite Hx. simpl. apply IH. intros y Hy. apply Hincl. now right. }
      apply Hall, incl_refl. }
    now rewrite Hnone, app_nil_r.
  - intros k Hk. unfold KeywordList.removeKeywords. cbn [keywords].
    induction (keywords config) as [|x l IH]; [reflexivity|].
    cbn [filter]. destruct (KeywordList.arrayIncludes ks x) eqn:Hx; cbn [negb].
    + apply arrayIncludes_In in Hx.
      rewrite count_occ_cons_neq; [exact IH | congruence].
    + cbn [count_occ]. destruct (string_dec x k); now rewrite IH.
  - intros front back Hsplit. unfold KeywordList.removeKeywords. cbn [keywords].
    now rewrite Hsplit, filter_app.
Qed.

(** ** The two matchers *)

Section MatcherAgreement.
Import JsString.

Lemma existsb_filter_length {A} (p : A -> bool) (l : list A) :
  existsb p l = negb (List.length (filter p l) =? 0)%nat.
Proof.
  induction l as [|x l IH]; [reflexivity|]. simpl.
  destruct (p x); simpl; [reflexivity | exact IH].
Qed.

Lemma forallb_filter_length {A} (p : A -> bool) (l : list A) :
  forallb p l = (List.length (filter p l) =? List.length l)%nat.
Proof.
  induction l as [|x l IH]; [reflexivity|]. simpl.
  destruct (p x); simpl; [exact IH|].
  symmetry. apply Nat.eqb_neq. pose proof (filter_length_le p l). lia.
Qed.

Lemma prepareText_title_author (config : MatcherConfig) (v : VideoInfo) :
  caseSensitive config = false ->
  truthy (author v) = true ->
  tags v = None \/ tags v = Some [] ->
  KeywordMatcher.prepareTextForMatching config v = MatchService.searchText v.
Proof.
  intros Hcs Hauthor Htags.
  unfold KeywordMatcher.prepareTextForMatching, MatchService.searchText, join.
  rewrite Hcs, Hauthor. destruct Htags as [-> | ->]; reflexivity.
Qed.

End MatcherAgreement.

(** X2.  Without case sensitivity, on a video that names its author and carries
    no tags, the matcher that admits videos ([KeywordMatcher.match]) and the
    one that labels the records ([MatchService.isVideoMatched]) give the
    same verdict, in both modes and for every keyword list. *)
Theorem match_agrees_with_isVideoMatched (config : MatcherConfig) (v : VideoInfo) :
  caseSensitive config = false ->
  JsString.truthy (author v) = true ->
  tags v = None \/ tags v = Some [] ->
  KeywordMatcher.match_ config v = MatchService.isVideoMatched config v.
Proof.
  intros Hcs Hauthor Htags.
  unfold KeywordMatcher.match_, MatchService.isVideoMatched,
    MatchService.checkVideoMatch, KeywordMatcher.performMatching.
  rewrite (prepareText_title_author config v Hcs Hauthor Htags).
  unfold MatchService.collectMatched, MatchService.keywordToCheck. rewrite Hcs.
  set (text := MatchService.searchText v).
  set (p := fun keyword : string => JsString.includes text (JsString.toLowerCase keyword)).
  assert (Hmap : forall l, existsb (fun k => JsString.includes text k)
                                   (map JsString.toLowerCase l) = existsb p l).
  { induction l as [|x l IH]; [reflexivity|]. simpl. now rewrite IH. }
  assert (Hall : forall l, forallb (fun k => JsString.includes text k)
                                   (map JsString.toLowerCase l) = forallb p l).
  { induction l as [|x l IH]; [reflexivity|]. simpl. now rewrite IH. }
  destruct (keywords config) as [|k ks] eqn:Hk.
  - destruct (matchMode config); reflexivity.
  - change (List.length (k :: ks) =? 0)%nat with false. cbv iota.
    destruct (matchMode config).
    + rewrite Hmap. apply existsb_filter_length.
    + rewrite Hall, forallb_filter_length.
      destruct (Nat.eqb_spec (List.length (filter p (k :: ks))) (List.length (k :: ks)))
        as [Hlen|Hlen].
      * rewrite Hlen. reflexivity.
      * reflexivity.
Qed.

Lemma match_agrees_with_isVideoMatched_witness :
  KeywordMatcher.match_ sampleMatcher catClip
  = MatchService.isVideoMatched sampleMatcher catClip.
Proof.
  apply match_agrees_with_isVideoMatched; [reflexivity | reflexivity | now left].
Defined.

(** ** Match statistics *)

Lemma countMatched_from (config : MatcherConfig) (videos : list VideoInfo) (n : nat) :
  fold_left (fun matched v =>
               if (0 <? List.length (MatchService.checkVideoMatch config v))%nat
               then S matched else matched) videos n
  = (n + List.length (MatchStats.filterMatchedVideos config videos))%nat.
Proof.
  revert n; induction videos as [|v videos IH]; intros n; simpl; [lia|].
  rewrite IH. unfold MatchService.isVideoMatched.
  destruct (List.length (MatchService.checkVideoMatch config v)); simpl;
    [reflexivity | now rewrite Nat.add_succ_r].
Qed.

(** X3.  [getMatchStats] counts as matched exactly the videos that
    [filterMatchedVideos] keeps, never more than the total, and its match
    rate lies between 0 and 100 (0 for no video at all). *)
Theorem getMatchStats_consistent (config : MatcherConfig) (videos : list VideoInfo) :
  let stats := MatchStats.getMatchStats config videos in
  MatchStats.matched stats = List.length (MatchStats.filterMatchedVideos config videos)
  /\ (MatchStats.matched stats <= MatchStats.total stats)%nat
  /\ (0 <= MatchStats.matchRate stats)%Q
  /\ (MatchStats.matchRate stats <= 100)%Q
  /\ (MatchStats.matchRate (MatchStats.getMatchStats config []) == 0)%Q.
Proof.
  simpl. unfold MatchStats.countMatched. rewrite countMatched_from. simpl.
  set (m := List.length (MatchStats.filterMatchedVideos config videos)).
  assert (Hle : (m <= List.length videos)%nat) by apply filter_length_le.
  split; [reflexivity|]. split; [exact Hle|].
  destruct videos as [|v videos]; simpl (0 <? _)%nat; cbv iota.
  - repeat split; try reflexivity; unfold Qle; simpl; lia.
  - set (n := List.length (v :: videos)) in *.
    assert (Hpos : (0 < n)%nat) by (subst n; simpl; lia).
    clearbody n.
    assert (Hn : (0 < inject_Z (Z.of_nat n))%Q)
      by (change 0%Q with (inject_Z 0); rewrite <- Zlt_Qlt; lia).
    assert (Hm0 : (0 <= inject_Z (Z.of_nat m))%Q)
      by (change 0%Q with (inject_Z 0); rewrite <- Zle_Qle; lia).
    assert (Hmn : (inject_Z (Z.of_nat m) <= inject_Z (Z.of_nat n))%Q)
      by (rewrite <- Zle_Qle; lia).
    split; [|split; [|reflexivity]].
    + apply Qmult_le_0_compat; [|unfold Qle; simpl; lia].
      apply Qle_shift_div_l; [exact Hn|]. now rewrite Qmult_0_l.
    + assert (Hfrac : (inject_Z (Z.of_nat m) / inject_Z (Z.of_nat n) <= 1)%Q).
      { apply Qle_shift_div_r; [exact Hn|]. now rewrite Qmult_1_l. }
      setoid_replace 100%Q with (1 * 100)%Q at 2 by reflexivity.
      apply Qmult_le_compat_r; [exact Hfrac | unfold Qle; simpl; lia].
Qed.

(** ** History Store: what the readers see *)

Section HistoryReaders.
Import HistoryService.

Lemma records_after_recordWatch (store : t) (v : VideoInfo) (d : Z)
    (kws : list string) (src : VideoSource) (sid : string)
    (sim : option SimulatedData) :
  exists r,
    records (recordWatch store v d kws src sid sim) = records store ++ [r]
    /\ video r = v /\ playDuration r = d /\ sessionId r = sid
    /\ isSimulated r = match sim with Some s => sd_isSimulated s | None => false end
    /\ simulatedWatchDuration r
       = match sim with Some s => sd_simulatedWatchDuration s | None => None end.
Proof.
  eexists. unfold records, recordWatch. simpl.
  destruct (historyFile store) as [lines|]; simpl.
  - rewrite flat_map_app. simpl. repeat split.
  - repeat split.
Qed.

Lemma hasWatched_records (store : t) (videoId : string) :
  hasWatched store videoId
  = existsb (fun r => String.eqb (id (video r)) videoId) (records store).
Proof.
  unfold hasWatched, records. destruct (historyFile store) as [lines|]; [|reflexivity].
  induction lines as [|l lines IH]; [reflexivity|]. simpl.
  destruct l; simpl; now rewrite IH.
Qed.

End HistoryReaders.

(** X4.  [hasWatched] answers true exactly for the ids of the records that parse:
    unparsable lines and a missing file contribute nothing. *)
Theorem hasWatched_iff_recorded (store : HistoryService.t) (videoId : string) :
  HistoryService.hasWatched store videoId = true
  <-> exists r, In r (HistoryService.records store)
                /\ id (HistoryService.video r) = videoId.
Proof.
  rewrite hasWatched_records, existsb_exists. split.
  - intros [r [Hin Heq]]. apply String.eqb_eq in Heq. eauto.
  - intros [r [Hin Heq]]. exists r. split; [exact Hin|]. now apply String.eqb_eq.
Qed.

(** X5.  Recording into the history never makes a watched video unwatched, nor
    reorders or drops a record: the records after [recordWatch] are the
    records before it followed by the new one. *)
Theorem recordWatch_appends (store : HistoryService.t) (v : VideoInfo) (d : Z)
    (kws : list string) (src : VideoSource) (sid : string)
    (sim : option HistoryService.SimulatedData) :
  (exists r,
      HistoryService.records (HistoryService.recordWatch store v d kws src sid sim)
      = HistoryService.records store ++ [r]
      /\ HistoryService.video r = v /\ HistoryService.sessionId r = sid)
  /\ forall videoId,
       HistoryService.hasWatched store videoId = true ->
       HistoryService.hasWatched
         (HistoryService.recordWatch store v d kws src sid sim) videoId = true.
Proof.
  destruct (records_after_recordWatch store v d kws src sid sim)
    as (r & Hrec & Hv & _ & Hs & _).
  split; [now exists r|].
  intros videoId. rewrite !hasWatched_records, Hrec, existsb_app.
  intros ->. reflexivity.
Qed.

Lemma recordWatch_appends_witness :
  HistoryService.hasWatched
    (HistoryService.recordWatch watchedStore dogClip 100 [] home "session-2" None)
    (id catClip) = true.
Proof.
  apply (proj2 (recordWatch_appends watchedStore dogClip 100 [] home "session-2" None)).
  reflexivity.
Defined.

(** ** Session statistics *)

Section SessionStatsFacts.
Import SessionStats.

Lemma sessionRecords_recordWatch (store : HistoryService.t) (v : VideoInfo) (d : Z)
    (kws : list string) (src : VideoSource) (sid sid' : string)
    (sim : option HistoryService.SimulatedData) :
  exists r,
    HistoryService.video r = v /\ HistoryService.playDuration r = d
    /\ HistoryService.isSimulated r
       = match sim with Some s => HistoryService.sd_isSimulated s | None => false end
    /\ HistoryService.simulatedWatchDuration r
       = match sim with
         | Some s => HistoryService.sd_simulatedWatchDuration s
         | None => None
         end
    /\ sessionRecords (HistoryService.recordWatch store v d kws src sid sim) sid'
       = sessionRecords store sid' ++ (if String.eqb sid sid' then [r] else []).
Proof.
  destruct (records_after_recordWatch store v d kws src sid sim)
    as (r & Hrec & Hv & Hd & Hs & Hsim & Hdur).
  exists r. repeat split; try assumption.
  unfold sessionRecords. rewrite Hrec, filter_app. simpl. now rewrite Hs.
Qed.

Lemma historyFile_recordWatch (store : HistoryService.t) (v : VideoInfo) (d : Z)
    (kws : list string) (src : VideoSource) (sid : string)
    (sim : option HistoryService.SimulatedData) :
  exists lines,
    HistoryService.historyFile (HistoryService.recordWatch store v d kws src sid sim)
    = Some lines.
Proof.
  unfold HistoryService.recordWatch. simpl.
  destruct (HistoryService.historyFile store); simpl; eauto.
Qed.

Lemma records_no_file (store : HistoryService.t) :
  HistoryService.historyFile store = None -> HistoryService.records store = [].
Proof. unfold HistoryService.records. now intros ->. Qed.

(** [getSessionStats] is [null] exactly when the session has no record. *)
Lemma getSessionStats_none (store : HistoryService.t) (sid : string) :
  getSessionStats store sid = None <-> sessionRecords store sid = [].
Proof.
  unfold getSessionStats.
  destruct (HistoryService.historyFile store) eqn:Hfile.
  - destruct (sessionRecords store sid); simpl; split; congruence.
  - unfold sessionRecords. rewrite (records_no_file store Hfile). tauto.
Qed.

End SessionStatsFacts.

(** X6.  The statistics of a session depend on the records of that session only:
    a watch recorded under another session id leaves them as they were, and
    they are [null] exactly while the session has recorded nothing. *)
Theorem getSessionStats_isolated (store : HistoryService.t) (v : VideoInfo) (d : Z)
    (kws : list string) (src : VideoSource) (sid other : string)
    (sim : option HistoryService.SimulatedData) :
  (SessionStats.getSessionStats store sid = None
   <-> forall r, In r (HistoryService.records store) ->
                 HistoryService.sessionId r <> sid)
  /\ (other <> sid ->
      SessionStats.getSessionStats
        (HistoryService.recordWatch store v d kws src other sim) sid
      = SessionStats.getSessionStats store sid).
Proof.
  split.
  - rewrite getSessionStats_none. unfold SessionStats.sessionRecords. split.
    + intros Hnil r Hin Heq.
      assert (Hin' : In r (filter (fun r0 => String.eqb (HistoryService.sessionId r0) sid)
                                  (HistoryService.records store))).
      { apply filter_In. split; [exact Hin | now apply String.eqb_eq]. }
      rewrite Hnil in Hin'. exact Hin'.
    + intros Hall.
      induction (HistoryService.records store) as [|r rs IH]; [reflexivity|].
      simpl. destruct (String.eqb_spec (HistoryService.sessionId r) sid) as [Heq|_].
      * exfalso. apply (Hall r); [now left | exact Heq].
      * apply IH. intros r0 Hin. apply Hall. now right.
  - intros Hneq.
    destruct (sessionRecords_recordWatch store v d kws src other sid sim)
      as (r & _ & _ & _ & _ & Hrs).
    apply String.eqb_neq in Hneq. rewrite Hneq, app_nil_r in Hrs.
    destruct (historyFile_recordWatch store v d kws src other sim) as [lines Hfile].
    unfold SessionStats.getSessionStats at 1. rewrite Hfile, Hrs.
    unfold SessionStats.getSessionStats.
    destruct (HistoryService.historyFile store) eqn:Hold; [reflexivity|].
    unfold SessionStats.sessionRecords. rewrite (records_no_file store Hold).
    reflexivity.
Qed.

Lemma getSessionStats_isolated_witness :
  SessionStats.getSessionStats
    (HistoryService.recordWatch watchedStore dogClip 100 [] home "session-2" None)
    "session-0"
  = SessionStats.getSessionStats watchedStore "session-0".
Proof.
  apply (proj2 (getSessionStats_isolated watchedStore dogClip 100 [] home
                  "session-0" "session-2" None)).
  intros H. discriminate H.
Defined.

Lemma simulatedSoFar_sums (store : HistoryService.t) (sid : string) :
  simulatedSoFar store sid
  = (List.length (filter HistoryService.isSimulated
                         (SessionStats.sessionRecords store sid)),
     SessionStats.sumSimulatedWatchTime (SessionStats.sessionRecords store sid),
     SessionStats.sumActualWaitTime (SessionStats.sessionRecords store sid)).
Proof.
  unfold simulatedSoFar, SessionStats.getSessionStats.
  destruct (HistoryService.historyFile store) eqn:Hfile.
  - destruct (SessionStats.sessionRecords store sid); reflexivity.
  - unfold SessionStats.sessionRecords. now rewrite (records_no_file store Hfile).
Qed.

(** X7.  When a simulated play settles in the manager, the statistics of the
    manager's session exist and count one more simulated video, the
    simulated duration returned by the emitter (0 after a failure included)
    and the measured time on top of what they reported before. *)
Theorem settle_adds_to_session (k : nat) (simulated : Q) (playDuration : Z)
    (history : HistoryService.t) (m : SimulatedPlaybackManager.t)
    (item : SimulatedPlaybackManager.QueueItem) :
  nth_error (SimulatedPlaybackManager.inFlight m) k = Some item ->
  let sid := SimulatedPlaybackManager.sessionId m in
  let history' :=
    fst (SimulatedPlaybackManager.processVideo_settle k simulated playDuration
           (history, m)) in
  exists s',
    SessionStats.getSessionStats history' sid = Some s'
    /\ (SessionStats.totalSimulatedVideos s',
        SessionStats.totalSimulatedWatchTime s',
        SessionStats.totalActualWaitTime s')
       = (let '(n, watched, waited) := simulatedSoFar history sid in
          (S n, (watched + simulated)%Q, (waited + playDuration)%Z)).
Proof.
  intros Hk sid history'.
  rewrite simulatedSoFar_sums.
  unfold history', SimulatedPlaybackManager.processVideo_settle. rewrite Hk. simpl fst.
  set (sim := Some (HistoryService.mkSimulatedData true (Some simulated)
                      (Some playDuration)
                      (Some (SimulatedPlaybackManager.playbackSpeed m)))).
  set (kws := MatchService.checkVideoMatch _ _).
  destruct (sessionRecords_recordWatch history
              (SimulatedPlaybackManager.itemVideo item) playDuration kws
              (SimulatedPlaybackManager.itemSource item) sid sid sim)
    as (r & _ & Hd & Hsim & Hdur & Hrs).
  rewrite String.eqb_refl in Hrs. simpl in Hsim, Hdur.
  destruct (historyFile_recordWatch history
              (SimulatedPlaybackManager.itemVideo item) playDuration kws
              (SimulatedPlaybackManager.itemSource item) sid sim) as [lines Hfile].
  unfold SessionStats.getSessionStats. fold sid. rewrite Hfile, Hrs.
  set (rs := SessionStats.sessionRecords history sid).
  assert (Hlen : (List.length (rs ++ [r]) =? 0)%nat = false)
    by (rewrite length_app; simpl; apply Nat.eqb_neq; lia).
  rewrite Hlen. eexists. split; [reflexivity|]. simpl.
  rewrite filter_app, length_app. simpl. rewrite Hsim. simpl.
  unfold SessionStats.sumSimulatedWatchTime, SessionStats.sumActualWaitTime.
  rewrite !fold_left_app. simpl. rewrite Hsim.
  unfold SessionStats.watchDurationOrZero. rewrite Hdur, Hd.
  now rewrite Nat.add_1_r.
Qed.

Lemma settle_adds_to_session_witness :
  exists s',
    SessionStats.getSessionStats
      (fst (SimulatedPlaybackManager.processVideo_settle 0 30 6000
              (emptyStore,
               SimulatedPlaybackManager.processingLoop_turn
                 (SimulatedPlaybackManager.startProcessing
                    (SimulatedPlaybackManager.addToQueue emptyStore idleManager
                       [catClip] (Some home))))))
      "session-1" = Some s'
    /\ SessionStats.totalSimulatedVideos s' = 1%nat.
Proof.
  destruct (settle_adds_to_session 0 30 6000 emptyStore
              (SimulatedPlaybackManager.processingLoop_turn
                 (SimulatedPlaybackManager.startProcessing
                    (SimulatedPlaybackManager.addToQueue emptyStore idleManager
                       [catClip] (Some home))))
              _ eq_refl) as (s' & Hs & Hsum).
  exists s'. split; [exact Hs|].
  now injection Hsum.
Defined.

(** ** Life of the worker pool *)

Section PoolLife.
Import ConcurrentPlayer.

Lemma life_invariant (I : St -> Prop) :
  (forall e st, I st -> I (PoolStatus.apply e st)) ->
  forall events st, I st -> I (PoolStatus.life events st).
Proof.
  intros Hstep events. induction events as [|e events IH]; intros st HI; simpl.
  - exact HI.
  - apply IH, Hstep, HI.
Qed.

Lemma length_updateAt {A} (i : nat) (f : A -> A) (l : list A) :
  List.length (updateAt i f l) = List.length l.
Proof.
  revert i; induction l as [|x l IH]; intros [|i]; simpl; try reflexivity.
  now rewrite IH.
Qed.

Lemma map_updateAt {A B} (g : A -> B) (i : nat) (f : A -> A) (l : list A) :
  (forall x, g (f x) = g x) -> map g (updateAt i f l) = map g l.
Proof.
  intros Hg. revert i; induction l as [|x l IH]; intros [|i]; simpl; try reflexivity.
  - now rewrite Hg.
  - now rewrite IH.
Qed.

(** The pool after a [Resume]: the task of the worker is marked, the worker
    released and the marked task pushed to the completed tasks. *)
Lemma resume_pool (w : nat) (r : PlayResult) (st : St) :
  snd (Eff.finalState (playerWorker_resume w r st))
  = match nth_error (players (snd st)) w with
    | Some player =>
        match currentTask player with
        | Some i =>
            let pool1 := mutateTask i (settleMark r) (snd st) in
            let pool2 := setPlayers (updateAt w releaseMark (players pool1)) pool1 in
            match nth_error (taskQueue pool2) i with
            | Some task => setCompleted (completedTasks pool2 ++ [task]) pool2
            | None => pool2
            end
        | None => snd st
        end
    | None => snd st
    end.
Proof.
  unfold playerWorker_resume.
  destruct (nth_error (players (snd st)) w) as [player|]; [|reflexivity].
  destruct (currentTask player) as [i|]; [|reflexivity].
  unfold Eff.tryCatch. rewrite executeTask_resume_returns.
  remember (match r with
            | PlayOk e => completeTask i e st
            | PlayThrows e => failTask i e st
            end) as settled eqn:Hsettled.
  assert (Hpool : snd settled = mutateTask i (settleMark r) (snd st)).
  { subst settled. destruct r as [e|e]; unfold completeTask, failTask.
    - now rewrite recordTask_pool.
    - destruct (e >? 1000)%Z; [now rewrite recordTask_pool | reflexivity]. }
  clear Hsettled. destruct settled as [history1 pool1]. simpl in Hpool. subst pool1.
  unfold releasePlayer. simpl.
  destruct (nth_error (updateAt i (settleMark r) (taskQueue (snd st))) i); reflexivity.
Qed.

(** The pool after a [Poll] that finds a pending task. *)
Lemma poll_pool (now : Z) (w : nat) (st : St) :
  snd (playerWorker_poll now w st)
  = match nth_error (players (snd st)) w with
    | None => snd st
    | Some player =>
        if negb (isRunning (snd st)) || isActive player then snd st
        else
          match findIndex (fun task => isPending (status task)) (taskQueue (snd st)) with
          | None => snd st
          | Some i =>
              let pool1 := mutateTask i (withStatus playing) (snd st) in
              match nth_error (taskQueue pool1) i with
              | None => pool1
              | Some task =>
                  if HistoryService.hasWatched (fst st) (id (video task))
                  then let pool2 := mutateTask i (withStatus completed) pool1 in
                       setCompleted (completedTasks pool2 ++ [withStatus completed task])
                                    pool2
                  else executeTask_begin now w i pool1
              end
          end
    end.
Proof.
  destruct st as [history pool]. simpl.
  destruct (nth_error (players pool) w) as [player|]; [|reflexivity].
  destruct (negb (isRunning pool) || isActive player); [reflexivity|].
  unfold getNextTask.
  destruct (findIndex _ (taskQueue pool)) as [i|]; [|reflexivity].
  simpl.
  destruct (nth_error (updateAt i (withStatus playing) (taskQueue pool)) i);
    [|reflexivity].
  destruct (HistoryService.hasWatched history _); reflexivity.
Qed.

End PoolLife.

Section PoolInvariants.
Import ConcurrentPlayer.

Lemma allDone_apply (e : PoolStatus.Event) (st : St) :
  allDone (snd st) -> allDone (snd (PoolStatus.apply e st)).
Proof.
  intros H. destruct e as [videos kws src | [w now | w r]]; simpl.
  - exact H.
  - rewrite poll_pool.
    destruct (nth_error (players (snd st)) w) as [player|]; [|exact H].
    destruct (negb (isRunning (snd st)) || isActive player); [exact H|].
    destruct (findIndex _ (taskQueue (snd st))) as [i|]; [|exact H].
    cbv zeta.
    destruct (nth_error (taskQueue (mutateTask i (withStatus playing) (snd st))) i)
      as [task|]; [|exact H].
    destruct (HistoryService.hasWatched (fst st) (id (video task))).
    + unfold allDone. simpl. apply Forall_app. split; [exact H|].
      constructor; [now left | constructor].
    + unfold executeTask_begin.
      destruct (nth_error (players _) w); [|exact H].
      destruct (nth_error (taskQueue _) i); exact H.
  - rewrite resume_pool.
    destruct (nth_error (players (snd st)) w) as [player|]; [|exact H].
    destruct (currentTask player) as [i|]; [|exact H].
    cbv zeta. simpl.
    rewrite nth_error_updateAt, Nat.eqb_refl.
    destruct (nth_error (taskQueue (snd st)) i) as [task|]; simpl; [|exact H].
    unfold allDone. simpl. apply Forall_app. split; [exact H|].
    constructor; [|constructor].
    destruct r; simpl; auto.
Qed.

Lemma count_done (l : list PlayTask) :
  Forall (fun task => status task = completed \/ status task = failed) l ->
  (List.length (filter (PoolStatus.statusIs completed) l)
   + List.length (filter (PoolStatus.statusIs failed) l))%nat = List.length l.
Proof.
  induction 1 as [|task l Hs _ IH]; [reflexivity|].
  assert (Hc : PoolStatus.statusIs completed task = true
               /\ PoolStatus.statusIs failed task = false
               \/ PoolStatus.statusIs completed task = false
                  /\ PoolStatus.statusIs failed task = true)
    by (unfold PoolStatus.statusIs; destruct Hs as [-> | ->]; auto).
  cbn [filter List.length].
  destruct Hc as [[-> ->] | [-> ->]]; cbn [List.length]; rewrite <- IH.
  - reflexivity.
  - now rewrite Nat.add_succ_r.
Qed.

End PoolInvariants.

(** X8.  In every state a pool reaches from its initial one, whatever is admitted
    and however the workers interleave, the completed and failed counts of
    [getStatus] add up to the number of completed tasks, and [totalTasks]
    is the queue length plus that number (a task that is done is counted in
    both, since it stays in the queue). *)
Theorem getStatus_counts_done (events : list PoolStatus.Event)
    (history : HistoryService.t) (pool : ConcurrentPlayer.t) :
  PoolStatus.fresh pool ->
  let status := PoolStatus.getStatus (snd (PoolStatus.life events (history, pool))) in
  (PoolStatus.completedCount status + PoolStatus.failedCount status)%nat
  = List.length (ConcurrentPlayer.completedTasks
                   (snd (PoolStatus.life events (history, pool))))
  /\ PoolStatus.totalTasks status
     = (PoolStatus.queueLength status + PoolStatus.completedCount status
        + PoolStatus.failedCount status)%nat.
Proof.
  intros (_ & Hdone & _ & _). simpl.
  assert (H : allDone (snd (PoolStatus.life events (history, pool)))).
  { apply (life_invariant (fun st => allDone (snd st))).
    - intros e st. apply allDone_apply.
    - unfold allDone. simpl. rewrite Hdone. constructor. }
  pose proof (count_done _ H) as Hcount. split; [exact Hcount | lia].
Qed.

Lemma getStatus_counts_done_witness :
  let status :=
    PoolStatus.getStatus
      (snd (PoolStatus.life
              [PoolStatus.Admit [catClip] ["cat"] home;
               PoolStatus.Work (ConcurrentPlayer.Poll 0 0);
               PoolStatus.Work (ConcurrentPlayer.Resume 0 (PlayThrows 500))]
              (emptyStore, onePlayerPool))) in
  (PoolStatus.completedCount status + PoolStatus.failedCount status)%nat = 1%nat.
Proof.
  assert (Hfresh : PoolStatus.fresh onePlayerPool).
  { repeat split. repeat constructor. }
  exact (proj1 (getStatus_counts_done
                  [PoolStatus.Admit [catClip] ["cat"] home;
                   PoolStatus.Work (ConcurrentPlayer.Poll 0 0);
                   PoolStatus.Work (ConcurrentPlayer.Resume 0 (PlayThrows 500))]
                  emptyStore onePlayerPool Hfresh)).
Defined.

Section PoolTaskIds.
Import ConcurrentPlayer.

Lemma newTasks_ids (pool : t) (counter : nat) (videos : list VideoInfo)
    (kws : list string) (src : VideoSource) :
  map taskId (newTasks pool counter videos kws src)
  = seq (S counter) (List.length videos).
Proof.
  revert counter; induction videos as [|v videos IH]; intros counter; simpl;
    [reflexivity|]. now rewrite IH.
Qed.

Lemma step_ids (a : Action) (st : St) :
  map taskId (taskQueue (snd (step a st))) = map taskId (taskQueue (snd st))
  /\ taskIdCounter (snd (step a st)) = taskIdCounter (snd st).
Proof.
  destruct a as [w now | w r]; simpl.
  - rewrite poll_pool.
    destruct (nth_error (players (snd st)) w) as [player|]; [|tauto].
    destruct (negb (isRunning (snd st)) || isActive player); [tauto|].
    destruct (findIndex _ (taskQueue (snd st))) as [i|]; [|tauto].
    cbv zeta.
    assert (H1 : map taskId (taskQueue (mutateTask i (withStatus playing) (snd st)))
                 = map taskId (taskQueue (snd st)))
      by (simpl; now apply map_updateAt).
    destruct (nth_error (taskQueue (mutateTask i (withStatus playing) (snd st))) i)
      as [task|]; [|split; [exact H1 | reflexivity]].
    destruct (HistoryService.hasWatched (fst st) (id (video task))).
    + simpl. rewrite !map_updateAt by reflexivity. tauto.
    + unfold executeTask_begin.
      destruct (nth_error (players _) w); [|split; [exact H1 | reflexivity]].
      destruct (nth_error (taskQueue _) i); [|split; [exact H1 | reflexivity]].
      simpl. rewrite !map_updateAt by reflexivity. tauto.
  - rewrite resume_pool.
    destruct (nth_error (players (snd st)) w) as [player|]; [|tauto].
    destruct (currentTask player) as [i|]; [|tauto].
    cbv zeta. simpl.
    destruct (nth_error (updateAt i (settleMark r) (taskQueue (snd st))) i); simpl;
      (rewrite map_updateAt by (intros x; now destruct r)); tauto.
Qed.

Lemma idsFresh_apply (e : PoolStatus.Event) (st : St) :
  idsFresh (snd st) -> idsFresh (snd (PoolStatus.apply e st)).
Proof.
  intros [Hnodup Hle]. destruct e as [videos kws src | a]; simpl.
  - unfold idsFresh, addToQueue. simpl. rewrite map_app, newTasks_ids. split.
    + apply NoDup_app; [exact Hnodup | apply seq_NoDup |].
      intros n Hold Hnew. apply in_seq in Hnew.
      rewrite Forall_forall in Hle. specialize (Hle n Hold). lia.
    + apply Forall_app. split.
      * eapply Forall_impl; [|exact Hle]. intros n Hn. simpl in Hn. lia.
      * apply Forall_forall. intros n Hn. apply in_seq in Hn. lia.
  - destruct (step_ids a st) as [Hids Hcounter].
    unfold idsFresh. now rewrite Hids, Hcounter.
Qed.

End PoolTaskIds.

(** X9.  Task numbers are never reused: in every state a pool reaches from its
    initial one, the tasks of the queue carry pairwise distinct numbers,
    none above the counter, and a batch of [n] videos takes the [n] numbers
    that follow the counter. *)
Theorem task_ids_distinct (events : list PoolStatus.Event)
    (history : HistoryService.t) (pool : ConcurrentPlayer.t)
    (videos : list VideoInfo) (kws : list string) (src : VideoSource) :
  PoolStatus.fresh pool ->
  let pool' := snd (PoolStatus.life events (history, pool)) in
  NoDup (map ConcurrentPlayer.taskId (ConcurrentPlayer.taskQueue pool'))
  /\ map ConcurrentPlayer.taskId
         (ConcurrentPlayer.taskQueue (ConcurrentPlayer.addToQueue pool' videos kws src))
     = map ConcurrentPlayer.taskId (ConcurrentPlayer.taskQueue pool')
       ++ seq (S (ConcurrentPlayer.taskIdCounter pool')) (List.length videos).
Proof.
  intros (Hqueue & _). simpl.
  assert (H : idsFresh (snd (PoolStatus.life events (history, pool)))).
  { apply (life_invariant (fun st => idsFresh (snd st))).
    - intros e st. apply idsFresh_apply.
    - unfold idsFresh. simpl. rewrite Hqueue. split; constructor. }
  split; [exact (proj1 H)|].
  unfold ConcurrentPlayer.addToQueue. simpl. now rewrite map_app, newTasks_ids.
Qed.

Lemma task_ids_distinct_witness :
  map ConcurrentPlayer.taskId (ConcurrentPlayer.taskQueue (snd queuedTwice))
  = [1%nat; 2%nat]
  /\ NoDup (map ConcurrentPlayer.taskId (ConcurrentPlayer.taskQueue (snd queuedTwice))).
Proof.
  split; [reflexivity|].
  assert (Hfresh : PoolStatus.fresh onePlayerPool).
  { repeat split. repeat constructor. }
  exact (proj1 (task_ids_distinct
                  [PoolStatus.Admit [catClip] ["cat"] home;
                   PoolStatus.Admit [catClip] ["cat"] home]
                  emptyStore onePlayerPool [] [] home Hfresh)).
Defined.

Section PoolPlays.
Import ConcurrentPlayer.

Lemma updateAt_out_of_range {A} (i : nat) (f : A -> A) (l : list A) :
  nth_error l i = None -> updateAt i f l = l.
Proof.
  revert i; induction l as [|x l IH]; intros [|i] H; simpl in *;
    try reflexivity; try discriminate.
  now rewrite IH.
Qed.

(** A mutation that makes no task pending does not enlarge the pending set. *)
Lemma mutateTask_pending_le (i : nat) (f : PlayTask -> PlayTask) (pool : t) :
  (forall task, isPending (status (f task)) = true -> isPending (status task) = true) ->
  (pendingCount (mutateTask i f pool) <= pendingCount pool)%nat.
Proof.
  intros Hf. unfold pendingCount, mutateTask. simpl.
  destruct (nth_error (taskQueue pool) i) as [task|] eqn:Htask.
  - pose proof (pending_updateAt i f (taskQueue pool) task Htask) as E.
    specialize (Hf task).
    destruct (isPending (status task)), (isPending (status (f task)));
      first [lia | discriminate (Hf eq_refl)].
  - rewrite (updateAt_out_of_range i f _ Htask). lia.
Qed.

Lemma newTasks_pending (pool : t) (counter : nat) (videos : list VideoInfo)
    (kws : list string) (src : VideoSource) :
  filter (fun task => isPending (status task)) (newTasks pool counter videos kws src)
  = newTasks pool counter videos kws src
  /\ List.length (newTasks pool counter videos kws src) = List.length videos.
Proof.
  revert counter; induction videos as [|v videos IH]; intros counter; simpl;
    [split; reflexivity|].
  destruct (IH (S counter)) as [-> ->]. split; reflexivity.
Qed.

Lemma playsWithinTaken_apply (e : PoolStatus.Event) (st : St) :
  playsWithinTaken (snd st) -> playsWithinTaken (snd (PoolStatus.apply e st)).
Proof.
  unfold playsWithinTaken. intros H.
  destruct e as [videos kws src | [w now | w r]]; simpl.
  - unfold addToQueue, pendingCount in *. simpl.
    rewrite filter_app, !length_app.
    destruct (newTasks_pending (snd st) (taskIdCounter (snd st)) videos kws src)
      as [-> ->]. lia.
  - rewrite poll_pool.
    destruct (nth_error (players (snd st)) w) as [player|] eqn:Hplayer; [|exact H].
    destruct (negb (isRunning (snd st)) || isActive player); [exact H|].
    destruct (findIndex _ (taskQueue (snd st))) as [i|] eqn:Hfind; [|exact H].
    cbv zeta.
    apply findIndex_some in Hfind as (task0 & Htask0 & Hpending0).
    assert (Htaken : S (pendingCount (mutateTask i (withStatus playing) (snd st)))
                     = pendingCount (snd st)).
    { unfold pendingCount, mutateTask. simpl.
      pose proof (pending_updateAt i (withStatus playing) (taskQueue (snd st)) task0
                    Htask0) as E.
      rewrite Hpending0 in E. simpl in E. lia. }
    set (pool1 := mutateTask i (withStatus playing) (snd st)) in *.
    assert (Hlen1 : List.length (taskQueue pool1) = List.length (taskQueue (snd st)))
      by (simpl; apply length_updateAt).
    assert (Hcalls1 : playVideoCalls pool1 = playVideoCalls (snd st)) by reflexivity.
    destruct (nth_error (taskQueue pool1) i) as [task|] eqn:Htask;
      [|rewrite Hcalls1, Hlen1; lia].
    destruct (HistoryService.hasWatched (fst st) (id (video task))).
    + assert (Hle : (pendingCount (mutateTask i (withStatus completed) pool1)
                     <= pendingCount pool1)%nat)
        by (apply mutateTask_pending_le; discriminate).
      simpl. rewrite !length_updateAt.
      change (List.length (filter (fun task1 => isPending (status task1))
                (updateAt i (withStatus completed) (taskQueue pool1))))
        with (pendingCount (mutateTask i (withStatus completed) pool1)) in *.
      unfold pendingCount in *. simpl in *. rewrite length_updateAt in Hlen1.
      lia.
    + unfold executeTask_begin. rewrite Htask.
      replace (nth_error (players pool1) w) with (Some player) by (symmetry; exact Hplayer).
      assert (Hle : (pendingCount (mutateTask i (withStart (playerNo player) now)
                                     (setPlayers
                                        (updateAt w (fun p => mkPlayer (playerNo p) true (Some i))
                                                  (players pool1)) pool1))
                     <= pendingCount pool1)%nat).
      { etransitivity; [apply mutateTask_pending_le; intros t Ht; exact Ht|].
        apply Nat.le_refl. }
      unfold pendingCount in *. simpl in *.
      rewrite length_app, !length_updateAt. simpl.
      rewrite length_updateAt in Hlen1. lia.
  - rewrite resume_pool.
    destruct (nth_error (players (snd st)) w) as [player|]; [|exact H].
    destruct (currentTask player) as [i|]; [|exact H].
    cbv zeta.
    assert (Hle : (pendingCount (mutateTask i (settleMark r) (snd st))
                   <= pendingCount (snd st))%nat)
      by (apply mutateTask_pending_le; intros t; destruct r; discriminate).
    unfold pendingCount in *. simpl in *.
    destruct (nth_error (updateAt i (settleMark r) (taskQueue (snd st))) i); simpl;
      rewrite length_updateAt; lia.
Qed.

End PoolPlays.

(** X10.  A pool never starts more plays than it has taken tasks: in every state
    reached from the initial one, the plays handed to the platform plus the
    tasks still pending do not exceed the tasks queued, so each task
    accounts for at most one play. *)
Theorem plays_within_taken_tasks (events : list PoolStatus.Event)
    (history : HistoryService.t) (pool : ConcurrentPlayer.t) :
  PoolStatus.fresh pool ->
  let pool' := snd (PoolStatus.life events (history, pool)) in
  (List.length (ConcurrentPlayer.playVideoCalls pool')
   + ConcurrentPlayer.pendingCount pool'
   <= List.length (ConcurrentPlayer.taskQueue pool'))%nat.
Proof.
  intros (Hqueue & _ & Hcalls & _). simpl.
  apply (life_invariant (fun st => playsWithinTaken (snd st))).
  - intros e st. apply playsWithinTaken_apply.
  - unfold playsWithinTaken, ConcurrentPlayer.pendingCount. simpl.
    rewrite Hqueue, Hcalls. simpl. lia.
Qed.

Lemma plays_within_taken_tasks_witness :
  (List.length (ConcurrentPlayer.playVideoCalls
                  (snd (PoolStatus.life
                          [PoolStatus.Admit [catClip; dogClip] ["cat"] home;
                           PoolStatus.Work (ConcurrentPlayer.Poll 0 0)]
                          (emptyStore, onePlayerPool))))
   + ConcurrentPlayer.pendingCount
       (snd (PoolStatus.life
               [PoolStatus.Admit [catClip; dogClip] ["cat"] home;
                PoolStatus.Work (ConcurrentPlayer.Poll 0 0)]
               (emptyStore, onePlayerPool)))
   <= 2)%nat.
Proof.
  assert (Hfresh : PoolStatus.fresh onePlayerPool).
  { repeat split. repeat constructor. }
  exact (plays_within_taken_tasks
           [PoolStatus.Admit [catClip; dogClip] ["cat"] home;
            PoolStatus.Work (ConcurrentPlayer.Poll 0 0)]
           emptyStore onePlayerPool Hfresh).
Defined.

Section PoolOwnership.
Import ConcurrentPlayer.

Lemma nth_error_updateAt_other {A} (i j : nat) (f : A -> A) (l : list A) :
  i <> j -> nth_error (updateAt i f l) j = nth_error l j.
Proof.
  intros Hne. rewrite nth_error_updateAt.
  destruct (Nat.eqb_spec i j); [contradiction | reflexivity].
Qed.

(** A pending task is referred to by no player. *)
Lemma pending_not_held (pool : t) (i w : nat) (task : PlayTask) (player : PlayerInstance) :
  ownership pool ->
  nth_error (taskQueue pool) i = Some task ->
  isPending (status task) = true ->
  nth_error (players pool) w = Some player ->
  currentTask player <> Some i.
Proof.
  intros [Hinv _] Htask Hpending Hplayer Hheld.
  destruct (Hinv w player Hplayer) as [[_ Hnone] | [_ (j & t & Hj & Ht & Hs)]].
  - congruence.
  - assert (j = i) by congruence. subst j.
    assert (t = task) by congruence. subst t.
    rewrite Hs in Hpending. discriminate.
Qed.

Lemma ownership_admit (pool : t) (videos : list VideoInfo) (kws : list string)
    (src : VideoSource) :
  ownership pool -> ownership (addToQueue pool videos kws src).
Proof.
  intros [H1 H2]. split.
  - intros w player Hplayer. simpl in Hplayer.
    destruct (H1 w player Hplayer) as [Hidle | [Hact (i & task & Hi & Ht & Hs)]];
      [now left | right].
    split; [exact Hact|]. exists i, task. repeat split; try assumption.
    simpl. rewrite nth_error_app1; [exact Ht|].
    apply nth_error_Some. congruence.
  - exact H2.
Qed.

Lemma ownership_poll (now : Z) (w : nat) (st : St) :
  ownership (snd st) -> ownership (snd (playerWorker_poll now w st)).
Proof.
  intros Hown. rewrite poll_pool.
  destruct (nth_error (players (snd st)) w) as [player|] eqn:Hplayer; [|exact Hown].
  destruct (negb (isRunning (snd st)) || isActive player) eqn:Hbusy; [exact Hown|].
  destruct (findIndex _ (taskQueue (snd st))) as [i0|] eqn:Hfind; [|exact Hown].
  cbv zeta.
  apply findIndex_some in Hfind as (task0 & Htask0 & Hpending0).
  assert (Hfree : forall w' p', nth_error (players (snd st)) w' = Some p' ->
                                currentTask p' <> Some i0)
    by (intros w' p'; now apply (pending_not_held (snd st) i0 w' task0 p')).
  destruct Hown as [H1 H2].
  set (pool1 := mutateTask i0 (withStatus playing) (snd st)).
  assert (Htask1 : nth_error (taskQueue pool1) i0 = Some (withStatus playing task0))
    by exact (nth_error_updateAt_same i0 (withStatus playing) _ task0 Htask0).
  rewrite Htask1.
  (* what an untouched player sees after updates of the task at [i0] *)
  assert (Hother : forall (g : PlayTask -> PlayTask) w' p',
             nth_error (players (snd st)) w' = Some p' ->
             (isActive p' = false /\ currentTask p' = None)
             \/ (isActive p' = true
                 /\ exists i task, currentTask p' = Some i
                      /\ nth_error (updateAt i0 g (taskQueue pool1)) i = Some task
                      /\ status task = playing)).
  { intros g w' p' Hp'.
    destruct (H1 w' p' Hp') as [Hidle | [Hact (i & task & Hi & Ht & Hs)]];
      [now left | right].
    split; [exact Hact|]. exists i, task. repeat split; try assumption.
    assert (Hne : i0 <> i) by (intros ->; exact (Hfree w' p' Hp' Hi)).
    simpl. now rewrite !nth_error_updateAt_other by exact Hne. }
  destruct (HistoryService.hasWatched (fst st) (id (video (withStatus playing task0)))).
  - split.
    + intros w' p' Hp'. simpl in Hp'. simpl.
      exact (Hother (withStatus completed) w' p' Hp').
    + exact H2.
  - unfold executeTask_begin.
    replace (nth_error (players pool1) w) with (Some player)
      by (symmetry; exact Hplayer).
    rewrite Htask1. split.
    + intros w' p' Hp'. simpl in Hp'. simpl.
      rewrite nth_error_updateAt in Hp'.
      destruct (Nat.eqb_spec w w') as [<- | Hne].
      * rewrite Hplayer in Hp'. simpl in Hp'. injection Hp' as <-. right.
        split; [reflexivity|].
        exists i0, (withStart (playerNo player) now (withStatus playing task0)).
        repeat split.
        exact (nth_error_updateAt_same i0 _ _ _ Htask1).
      * exact (Hother (withStart (playerNo player) now) w' p' Hp').
    + intros w1 w2 p1 p2 i Hp1 Hp2 Hc1 Hc2. simpl in Hp1, Hp2.
      rewrite nth_error_updateAt in Hp1, Hp2.
      destruct (Nat.eqb_spec w w1) as [<- | Hne1];
        destruct (Nat.eqb_spec w w2) as [<- | Hne2]; try reflexivity.
      * rewrite Hplayer in Hp1. simpl in Hp1. injection Hp1 as <-.
        simpl in Hc1. injection Hc1 as <-.
        exfalso. exact (Hfree w2 p2 Hp2 Hc2).
      * rewrite Hplayer in Hp2. simpl in Hp2. injection Hp2 as <-.
        simpl in Hc2. injection Hc2 as <-.
        exfalso. exact (Hfree w1 p1 Hp1 Hc1).
      * exact (H2 w1 w2 p1 p2 i Hp1 Hp2 Hc1 Hc2).
Qed.

Lemma ownership_resume (w : nat) (r : PlayResult) (st : St) :
  ownership (snd st) -> ownership (snd (Eff.finalState (playerWorker_resume w r st))).
Proof.
  intros Hown. rewrite resume_pool.
  destruct (nth_error (players (snd st)) w) as [player|] eqn:Hplayer; [|exact Hown].
  destruct (currentTask player) as [i0|] eqn:Hheld; [|exact Hown].
  cbv zeta. destruct Hown as [H1 H2].
  assert (Hgoal : ownership
            (setPlayers (updateAt w releaseMark (players (snd st)))
                        (mutateTask i0 (settleMark r) (snd st)))).
  { split.
    - intros w' p' Hp'. simpl in Hp'. simpl.
      rewrite nth_error_updateAt in Hp'.
      destruct (Nat.eqb_spec w w') as [<- | Hne].
      + rewrite Hplayer in Hp'. simpl in Hp'. injection Hp' as <-. now left.
      + destruct (H1 w' p' Hp') as [Hidle | [Hact (i & task & Hi & Ht & Hs)]];
          [now left | right].
        split; [exact Hact|]. exists i, task. repeat split; try assumption.
        assert (Hne' : i0 <> i).
        { intros ->. apply Hne. exact (H2 w w' player p' i Hplayer Hp' Hheld Hi). }
        now rewrite nth_error_updateAt_other by exact Hne'.
    - intros w1 w2 p1 p2 i Hp1 Hp2 Hc1 Hc2. simpl in Hp1, Hp2.
      rewrite nth_error_updateAt in Hp1, Hp2.
      destruct (Nat.eqb_spec w w1) as [<- | Hne1].
      { rewrite Hplayer in Hp1. simpl in Hp1. injection Hp1 as <-. discriminate Hc1. }
      destruct (Nat.eqb_spec w w2) as [<- | Hne2].
      { rewrite Hplayer in Hp2. simpl in Hp2. injection Hp2 as <-. discriminate Hc2. }
      exact (H2 w1 w2 p1 p2 i Hp1 Hp2 Hc1 Hc2). }
  simpl.
  destruct (nth_error (updateAt i0 (settleMark r) (taskQueue (snd st))) i0);
    exact Hgoal.
Qed.

Lemma ownership_apply (e : PoolStatus.Event) (st : St) :
  ownership (snd st) -> ownership (snd (PoolStatus.apply e st)).
Proof.
  destruct e as [videos kws src | [w now | w r]]; simpl.
  - apply ownership_admit.
  - apply ownership_poll.
  - apply ownership_resume.
Qed.

End PoolOwnership.

(** X11.  At most one worker holds a task: in every state a pool reaches from its
    initial one, whatever is admitted and however polls and settled plays
    interleave, two workers suspended in [executeTask] are on different
    tasks, and the task a worker is suspended on is in the queue with
    status [playing]. *)
Theorem task_held_by_one_worker (events : list PoolStatus.Event)
    (history : HistoryService.t) (pool : ConcurrentPlayer.t) :
  PoolStatus.fresh pool ->
  let pool' := snd (PoolStatus.life events (history, pool)) in
  (forall w1 w2 i,
      PoolStatus.holds pool' w1 i -> PoolStatus.holds pool' w2 i -> w1 = w2)
  /\ (forall w i,
         PoolStatus.holds pool' w i ->
         exists task,
           nth_error (ConcurrentPlayer.taskQueue pool') i = Some task
           /\ ConcurrentPlayer.status task = ConcurrentPlayer.playing).
Proof.
  intros (_ & _ & _ & Hidle). simpl.
  assert (H : ownership (snd (PoolStatus.life events (history, pool)))).
  { apply (life_invariant (fun st => ownership (snd st))).
    - intros e st. apply ownership_apply.
    - simpl. split.
      + intros w player Hplayer. left.
        rewrite Forall_forall in Hidle. apply Hidle.
        now apply nth_error_In with (n := w).
      + intros w1 w2 p1 p2 i Hp1 _ Hc1 _.
        rewrite Forall_forall in Hidle.
        destruct (Hidle p1 (nth_error_In _ _ Hp1)) as [_ Hnone]. congruence. }
  destruct H as [H1 H2]. split.
  - intros w1 w2 i (p1 & Hp1 & _ & Hc1) (p2 & Hp2 & _ & Hc2).
    exact (H2 w1 w2 p1 p2 i Hp1 Hp2 Hc1 Hc2).
  - intros w i (p & Hp & Hact & Hc).
    destruct (H1 w p Hp) as [[Hidle' _] | [_ (j & task & Hj & Ht & Hs)]].
    + congruence.
    + assert (j = i) by congruence. subst j. eauto.
Qed.

Lemma task_held_by_one_worker_witness :
  PoolStatus.fresh twoPlayerPool
  /\ exists task,
       nth_error
         (ConcurrentPlayer.taskQueue
            (snd (PoolStatus.life
                    [PoolStatus.Admit [catClip; dogClip] ["cat"] home;
                     PoolStatus.Work (ConcurrentPlayer.Poll 0 0);
                     PoolStatus.Work (ConcurrentPlayer.Poll 1 0)]
                    (emptyStore, twoPlayerPool)))) 1 = Some task
       /\ ConcurrentPlayer.status task = ConcurrentPlayer.playing.
Proof.
  assert (Hfresh : PoolStatus.fresh twoPlayerPool).
  { repeat split. repeat constructor. }
  split; [exact Hfresh|].
  apply (proj2 (task_held_by_one_worker
                  [PoolStatus.Admit [catClip; dogClip] ["cat"] home;
                   PoolStatus.Work (ConcurrentPlayer.Poll 0 0);
                   PoolStatus.Work (ConcurrentPlayer.Poll 1 0)]
                  emptyStore twoPlayerPool Hfresh) 1%nat 1%nat).
  eexists. split; [reflexivity|]. split; reflexivity.
Defined.

(** ** Life of the simulated-playback manager *)

Section ManagerInvariants.
Import SimulatedPlaybackManager.

Lemma manager_life_invariant (I : St -> Prop) :
  (forall e st, I st -> I (ManagerLife.apply e st)) ->
  forall events st, I st -> I (ManagerLife.life events st).
Proof.
  intros Hstep events. induction events as [|e events IH]; intros st HI; simpl.
  - exact HI.
  - apply IH, Hstep, HI.
Qed.

Lemma length_removeAt {A} (k : nat) (l : list A) (x : A) :
  nth_error l k = Some x -> S (List.length (removeAt k l)) = List.length l.
Proof.
  revert k; induction l as [|y l IH]; intros [|k] H; simpl in *; try discriminate.
  - reflexivity.
  - now rewrite (IH k H).
Qed.

Lemma addToQueue_rest (history : HistoryService.t) (m : t) (videos : list VideoInfo)
    (source : option VideoSource) :
  let m' := addToQueue history m videos source in
  activeWorkers m' = activeWorkers m /\ inFlight m' = inFlight m
  /\ concurrentWorkers m' = concurrentWorkers m /\ simulateCalls m' = simulateCalls m
  /\ simulators m' = simulators m /\ isProcessing m' = isProcessing m.
Proof.
  unfold addToQueue. destruct (0 <? _)%nat; repeat split.
Qed.

Lemma startProcessing_rest (m : t) :
  let m' := startProcessing m in
  activeWorkers m' = activeWorkers m /\ inFlight m' = inFlight m
  /\ concurrentWorkers m' = concurrentWorkers m /\ simulateCalls m' = simulateCalls m
  /\ simulators m' = simulators m /\ videoQueue m' = videoQueue m.
Proof.
  unfold startProcessing. destruct (scheduledStarts m); [repeat split|].
  destruct (isProcessing m); [repeat split|].
  destruct (simulators m =? 0)%nat; repeat split.
Qed.

Lemma workersBounded_apply (e : ManagerLife.Event) (st : St) :
  workersBounded (snd st) -> workersBounded (snd (ManagerLife.apply e st)).
Proof.
  intros [Hcount Hbound]. destruct e as [videos source | | | k simulated playDuration];
    simpl.
  - destruct (addToQueue_rest (fst st) (snd st) videos source)
      as (Ha & Hf & Hc & _).
    unfold workersBounded. now rewrite Ha, Hf, Hc.
  - destruct (startProcessing_rest (snd st)) as (Ha & Hf & Hc & _).
    unfold workersBounded. now rewrite Ha, Hf, Hc.
  - unfold processingLoop_turn.
    destruct (negb (isProcessing (snd st))); [now split|].
    destruct (videoQueue (snd st)) as [|videoItem rest]; [now split|].
    destruct (Z.geb_spec (activeWorkers (snd st)) (Z.of_nat (concurrentWorkers (snd st))))
      as [Hfull | Hfree]; [now split|].
    unfold workersBounded. simpl. rewrite length_app. simpl. split; lia.
  - destruct st as [history m]. unfold processVideo_settle. simpl in *.
    destruct (nth_error (inFlight m) k) as [item|] eqn:Hk; [|now split].
    pose proof (length_removeAt k (inFlight m) item Hk) as Hlen.
    unfold workersBounded. simpl. split; lia.
Qed.

End ManagerInvariants.

(** X12.  The pool of the manager has between 1 and 10 workers whatever is
    configured, and in every state the manager reaches from construction
    through admissions, scheduled starts, turns of the processing loop and
    settled plays, the active-worker counter equals the number of plays in
    flight and never exceeds the pool size. *)
Theorem manager_workers_bounded (config : ManagerLife.SimulatedPlaybackConfig)
    (matchConfig : MatcherConfig) (sessionId : string)
    (events : list ManagerLife.Event) (history : HistoryService.t) :
  let m0 := ManagerLife.new config matchConfig sessionId in
  let m := snd (ManagerLife.life events (history, m0)) in
  (1 <= SimulatedPlaybackManager.concurrentWorkers m0 <= 10)%nat
  /\ SimulatedPlaybackManager.concurrentWorkers m
     = SimulatedPlaybackManager.concurrentWorkers m0
  /\ SimulatedPlaybackManager.activeWorkers m
     = Z.of_nat (List.length (SimulatedPlaybackManager.inFlight m))
  /\ (0 <= SimulatedPlaybackManager.activeWorkers m
      <= Z.of_nat (SimulatedPlaybackManager.concurrentWorkers m0))%Z.
Proof.
  cbv zeta.
  set (m0 := ManagerLife.new config matchConfig sessionId).
  assert (Hsize : (1 <= SimulatedPlaybackManager.concurrentWorkers m0 <= 10)%nat).
  { unfold m0, ManagerLife.new, ManagerLife.workerCount. simpl. lia. }
  assert (Hinv : workersBounded (snd (ManagerLife.life events (history, m0)))
                 /\ SimulatedPlaybackManager.concurrentWorkers
                      (snd (ManagerLife.life events (history, m0)))
                    = SimulatedPlaybackManager.concurrentWorkers m0).
  { apply (manager_life_invariant
             (fun st => workersBounded (snd st)
                        /\ SimulatedPlaybackManager.concurrentWorkers (snd st)
                           = SimulatedPlaybackManager.concurrentWorkers m0)).
    - intros e st [Hb Hc]. split; [now apply workersBounded_apply|].
      etransitivity; [|exact Hc].
      destruct e as [videos source | | | k simulated playDuration]; simpl.
      + apply (addToQueue_rest (fst st) (snd st) videos source).
      + apply (startProcessing_rest (snd st)).
      + unfold SimulatedPlaybackManager.processingLoop_turn.
        destruct (negb _); [reflexivity|].
        destruct (SimulatedPlaybackManager.videoQueue (snd st)); [reflexivity|].
        destruct (_ >=? _)%Z; reflexivity.
      + destruct st as [h m]. unfold SimulatedPlaybackManager.processVideo_settle.
        destruct (nth_error _ k); reflexivity.
    - split; [|reflexivity]. split; simpl; [reflexivity | lia]. }
  destruct Hinv as [[Hcount Hbound] Hsame].
  split; [exact Hsize|]. split; [exact Hsame|]. split; [exact Hcount|].
  rewrite Hcount, <- Hsame. lia.
Qed.

Section ManagerOrder.
Import SimulatedPlaybackManager.

Lemma serviceOrder_apply (e : ManagerLife.Event) (st : St) :
  exists admitted,
    ManagerLife.serviceOrder (snd (ManagerLife.apply e st))
    = ManagerLife.serviceOrder (snd st) ++ admitted.
Proof.
  unfold ManagerLife.serviceOrder.
  destruct e as [videos source | | | k simulated playDuration]; simpl.
  - unfold addToQueue. destruct (0 <? _)%nat.
    + simpl. rewrite map_app, app_assoc. eauto.
    + exists []. now rewrite app_nil_r.
  - destruct (startProcessing_rest (snd st)) as (_ & _ & _ & Hcalls & _ & Hq).
    rewrite Hcalls, Hq. exists []. now rewrite app_nil_r.
  - exists []. rewrite app_nil_r. unfold processingLoop_turn.
    destruct (negb _); [reflexivity|].
    destruct (videoQueue (snd st)) as [|videoItem rest] eqn:Hq; [now rewrite Hq|].
    destruct (_ >=? _)%Z; [now rewrite Hq|]. simpl. now rewrite <- app_assoc.
  - exists []. rewrite app_nil_r. destruct st as [history m].
    unfold processVideo_settle. destruct (nth_error _ k); reflexivity.
Qed.

Lemma simulateCalls_apply (e : ManagerLife.Event) (st : St) :
  exists dispatched,
    simulateCalls (snd (ManagerLife.apply e st)) = simulateCalls (snd st) ++ dispatched.
Proof.
  destruct e as [videos source | | | k simulated playDuration]; simpl.
  - destruct (addToQueue_rest (fst st) (snd st) videos source) as (_ & _ & _ & Hcalls & _).
    rewrite Hcalls. exists []. now rewrite app_nil_r.
  - destruct (startProcessing_rest (snd st)) as (_ & _ & _ & Hcalls & _).
    rewrite Hcalls. exists []. now rewrite app_nil_r.
  - unfold processingLoop_turn.
    destruct (negb _); [exists []; now rewrite app_nil_r|].
    destruct (videoQueue (snd st)) as [|videoItem rest];
      [exists []; now rewrite app_nil_r|].
    destruct (_ >=? _)%Z; [exists []; now rewrite app_nil_r|]. simpl. eauto.
  - exists []. rewrite app_nil_r. destruct st as [history m].
    unfold processVideo_settle. destruct (nth_error _ k); reflexivity.
Qed.

Lemma dormant_apply (history : HistoryService.t) (e : ManagerLife.Event) (st : St) :
  dormant history st -> dormant history (ManagerLife.apply e st).
Proof.
  intros (Hh & Hs & Hp & Hf & Hc).
  destruct e as [videos source | | | k simulated playDuration]; simpl.
  - destruct (addToQueue_rest (fst st) (snd st) videos source)
      as (_ & Hf' & _ & Hc' & Hs' & Hp').
    unfold dormant. simpl. rewrite Hf', Hc', Hs', Hp'. now repeat split.
  - unfold dormant, startProcessing. simpl.
    destruct (scheduledStarts (snd st)); [now repeat split|].
    rewrite Hp, Hs. simpl. now repeat split.
  - unfold processingLoop_turn. rewrite Hp. simpl. now repeat split.
  - destruct st as [h m]. unfold processVideo_settle. simpl in *. rewrite Hf.
    destruct k; simpl; now repeat split.
Qed.

Lemma hasWatched_apply (e : ManagerLife.Event) (st : St) (videoId : string) :
  HistoryService.hasWatched (fst st) videoId = true ->
  HistoryService.hasWatched (fst (ManagerLife.apply e st)) videoId = true.
Proof.
  intros Hw. destruct e as [videos source | | | k simulated playDuration]; simpl;
    try exact Hw.
  destruct st as [h m]. unfold processVideo_settle.
  destruct (nth_error _ k); simpl; [|exact Hw].
  now apply hasWatched_monotone.
Qed.

End ManagerOrder.

(** X13.  The manager serves first come, first served: the videos already handed
    to [simulatePlayback] followed by the queued ones form a list that
    admissions, scheduled starts, turns of the processing loop and settled
    plays only extend at its end, and so does the list of videos handed
    out. *)
Theorem manager_serves_in_queue_order (events : list ManagerLife.Event)
    (st : SimulatedPlaybackManager.St) :
  let m' := snd (ManagerLife.life events st) in
  (exists admitted,
      ManagerLife.serviceOrder m' = ManagerLife.serviceOrder (snd st) ++ admitted)
  /\ (exists dispatched,
         SimulatedPlaybackManager.simulateCalls m'
         = SimulatedPlaybackManager.simulateCalls (snd st) ++ dispatched).
Proof.
  cbv zeta. revert st. induction events as [|e events IH]; intros st.
  - split; exists []; simpl; now rewrite app_nil_r.
  - simpl. destruct (IH (ManagerLife.apply e st)) as [[a Ha] [d Hd]].
    destruct (serviceOrder_apply e st) as [a0 Ha0].
    destruct (simulateCalls_apply e st) as [d0 Hd0].
    split.
    + exists (a0 ++ a). now rewrite Ha, Ha0, app_assoc.
    + exists (d0 ++ d). now rewrite Hd, Hd0, app_assoc.
Qed.

(** X14.  A manager built for another platform than bilibili, or without
    cookies, has no simulator: whatever is admitted to it, it never starts
    processing, never hands a video to [simulatePlayback] and never writes
    to the history. *)
Theorem manager_without_simulators_idle (config : ManagerLife.SimulatedPlaybackConfig)
    (matchConfig : MatcherConfig) (sessionId : string)
    (events : list ManagerLife.Event) (history : HistoryService.t) :
  String.eqb (ManagerLife.cfgPlatform config) "bilibili"
    && JsString.truthy (ManagerLife.cfgCookies config) = false ->
  let st := ManagerLife.life events
              (history, ManagerLife.new config matchConfig sessionId) in
  fst st = history
  /\ SimulatedPlaybackManager.isProcessing (snd st) = false
  /\ SimulatedPlaybackManager.simulateCalls (snd st) = [].
Proof.
  intros Hnone. cbv zeta.
  assert (Hd : dormant history
                 (ManagerLife.life events
                    (history, ManagerLife.new config matchConfig sessionId))).
  { apply manager_life_invariant.
    - intros e st. apply dormant_apply.
    - unfold dormant, ManagerLife.new. simpl. rewrite Hnone. now repeat split. }
  destruct Hd as (Hh & _ & Hp & _ & Hc). now repeat split.
Qed.

Lemma manager_without_simulators_idle_witness :
  SimulatedPlaybackManager.simulateCalls
    (snd (ManagerLife.life
            [ManagerLife.Admit [catClip; dogClip] None; ManagerLife.Start;
             ManagerLife.Turn]
            (emptyStore, ManagerLife.new youtubeManagerConfig sampleMatcher "session-1")))
  = [].
Proof.
  exact (proj2 (proj2 (manager_without_simulators_idle youtubeManagerConfig
                         sampleMatcher "session-1"
                         [ManagerLife.Admit [catClip; dogClip] None; ManagerLife.Start;
                          ManagerLife.Turn]
                         emptyStore eq_refl))).
Defined.

(** X15.  Once the simulated play of a video has settled the video is in the
    history, so from then on [addToQueue] never takes it as new again,
    whatever happens to the manager in between. *)
Theorem settled_video_never_new_again (k : nat) (simulated : Q) (playDuration : Z)
    (st : SimulatedPlaybackManager.St) (item : SimulatedPlaybackManager.QueueItem)
    (events : list ManagerLife.Event) (videos : list VideoInfo)
    (source : option VideoSource) :
  nth_error (SimulatedPlaybackManager.inFlight (snd st)) k = Some item ->
  let st' := ManagerLife.life events
               (SimulatedPlaybackManager.processVideo_settle k simulated playDuration st) in
  SimulatedPlaybackManager.isNew (fst st') (snd st')
    (SimulatedPlaybackManager.itemVideo item) = false
  /\ SimulatedPlaybackManager.videoQueue
       (SimulatedPlaybackManager.addToQueue (fst st') (snd st')
          [SimulatedPlaybackManager.itemVideo item] source)
     = SimulatedPlaybackManager.videoQueue (snd st').
Proof.
  intros Hk. cbv zeta.
  set (st1 := SimulatedPlaybackManager.processVideo_settle k simulated playDuration st).
  assert (Hw : HistoryService.hasWatched (fst (ManagerLife.life events st1))
                 (id (SimulatedPlaybackManager.itemVideo item)) = true).
  { apply (manager_life_invariant
             (fun s => HistoryService.hasWatched (fst s)
                         (id (SimulatedPlaybackManager.itemVideo item)) = true)).
    - intros e s. apply hasWatched_apply.
    - unfold st1. destruct st as [h m].
      unfold SimulatedPlaybackManager.processVideo_settle. simpl in Hk. rewrite Hk.
      cbn [fst].
      match goal with
      | |- HistoryService.hasWatched
             (HistoryService.recordWatch ?s ?v ?d ?kws ?src ?sid ?sim) _ = true =>
          destruct (records_after_recordWatch s v d kws src sid sim)
            as (r & Hrec & Hv & _)
      end.
      rewrite hasWatched_records, Hrec, existsb_app. simpl.
      rewrite Hv, String.eqb_refl. apply orb_true_iff. right. reflexivity. }
  assert (Hnew : SimulatedPlaybackManager.isNew (fst (ManagerLife.life events st1))
                   (snd (ManagerLife.life events st1))
                   (SimulatedPlaybackManager.itemVideo item) = false).
  { unfold SimulatedPlaybackManager.isNew. now rewrite Hw. }
  split; [exact Hnew|].
  unfold SimulatedPlaybackManager.addToQueue. simpl. now rewrite Hnew.
Qed.

Lemma settled_video_never_new_again_witness :
  SimulatedPlaybackManager.isNew
    (fst (ManagerLife.life [ManagerLife.Turn]
            (SimulatedPlaybackManager.processVideo_settle 0 30 10000 managerInFlight)))
    (snd (ManagerLife.life [ManagerLife.Turn]
            (SimulatedPlaybackManager.processVideo_settle 0 30 10000 managerInFlight)))
    catClip = false.
Proof.
  exact (proj1 (settled_video_never_new_again 0 30 10000 managerInFlight
                  (SimulatedPlaybackManager.mkItem catClip home)
                  [ManagerLife.Turn] [] None eq_refl)).
Defined.

(** ** The feeder: keyword selection, the single-player queue, admission *)

Section FeederSelection.
Import AlgorithmFeeder.

Lemma randomIndex_lt (platform : Platform) (len : nat) :
  BilibiliPlaybackSimulator.isRandom (mathRandom platform) ->
  (0 < len)%nat ->
  (randomIndex platform len < len)%nat.
Proof.
  intros [Hlo Hhi] Hlen. unfold randomIndex.
  set (r := mathRandom platform) in *.
  set (n := inject_Z (Z.of_nat len)).
  assert (Hn : 0 < n).
  { unfold n. change 0 with (inject_Z 0). rewrite <- Zlt_Qlt. lia. }
  assert (H0 : (0 <= Qfloor (r * n))%Z).
  { change 0%Z with (Qfloor 0). apply Qfloor_resp_le.
    apply Qmult_le_0_compat; [exact Hlo | apply Qlt_le_weak, Hn]. }
  assert (H1 : (Qfloor (r * n) < Z.of_nat len)%Z).
  { rewrite Zlt_Qlt. apply Qle_lt_trans with (r * n); [apply Qfloor_le|].
    fold n. setoid_replace n with (1 * n) at 2 by ring.
    apply Qmult_lt_compat_r; assumption. }
  lia.
Qed.

Lemma nth_error_seq (kws : list string) :
  map (nth_error kws) (seq 0 (List.length kws)) = map Some kws.
Proof.
  induction kws as [|k kws IH]; [reflexivity|].
  cbn [List.length seq map nth_error]. f_equal.
  rewrite <- seq_shift, map_map. exact IH.
Qed.

Lemma selectMany_sequential (platform : Platform) (n : nat) (f : t) :
  activeSearchStrategy (config f) = Some sequential ->
  keywords (matcher (config f)) <> [] ->
  selectMany platform n f
  = Eff.Returned
      (setKeywordIndex (keywordIndex f + n) f)
      (map (fun j => nth_error (keywords (matcher (config f)))
                       ((keywordIndex f + j)
                          mod List.length (keywords (matcher (config f)))))
           (seq 0 n)).
Proof.
  revert f. induction n as [|n IH]; intros f Hseq Hkws.
  - simpl. unfold Eff.ret. f_equal. unfold setKeywordIndex. destruct f; simpl.
    f_equal. lia.
  - cbn [selectMany]. unfold Eff.bind at 1.
    unfold selectSearchKeyword, Eff.bind, Eff.get, Eff.modify, Eff.ret.
    destruct (keywords (matcher (config f))) as [|k0 kws] eqn:Hk; [congruence|].
    cbn [List.length Nat.eqb]. rewrite Hseq.
    fold (@Eff.bind t (list (option string)) (list (option string))).
    unfold Eff.bind, Eff.ret.
    rewrite (IH (setKeywordIndex (S (keywordIndex f)) f));
      [| exact Hseq | simpl; rewrite Hk; discriminate].
    cbn [config setKeywordIndex keywordIndex]. rewrite Hk.
    f_equal.
    + unfold setKeywordIndex. simpl. f_equal. lia.
    + cbn [seq map]. rewrite Nat.add_0_r. f_equal.
      rewrite <- seq_shift, map_map. apply map_ext. intros j.
      cbn [List.length]. now rewrite Nat.add_succ_r.
Qed.

End FeederSelection.

(** X16.  [selectSearchKeyword] always returns; it answers [null] exactly when no
    keyword is configured, and otherwise one of the configured keywords,
    whichever strategy is set. *)
Theorem selectSearchKeyword_configured (platform : AlgorithmFeeder.Platform)
    (f : AlgorithmFeeder.t) :
  BilibiliPlaybackSimulator.isRandom (AlgorithmFeeder.mathRandom platform) ->
  exists f' picked,
    AlgorithmFeeder.selectSearchKeyword platform f = Eff.Returned f' picked
    /\ (keywords (matcher (AlgorithmFeeder.config f)) = [] -> picked = None)
    /\ (keywords (matcher (AlgorithmFeeder.config f)) <> [] ->
        exists keyword,
          picked = Some keyword
          /\ In keyword (keywords (matcher (AlgorithmFeeder.config f)))).
Proof.
  intros Hrandom.
  unfold AlgorithmFeeder.selectSearchKeyword, Eff.bind, Eff.get, Eff.modify, Eff.ret.
  destruct (keywords (matcher (AlgorithmFeeder.config f))) as [|k0 kws] eqn:Hk.
  - simpl. do 2 eexists. split; [reflexivity|]. split; [reflexivity | congruence].
  - cbn [List.length Nat.eqb].
    assert (Hpick : forall i, (i < List.length (k0 :: kws))%nat ->
                      exists keyword, nth_error (k0 :: kws) i = Some keyword
                                      /\ In keyword (k0 :: kws)).
    { intros i Hi. destruct (nth_error (k0 :: kws) i) as [keyword|] eqn:Hn.
      - exists keyword. split; [reflexivity|]. eapply nth_error_In, Hn.
      - apply nth_error_None in Hn. lia. }
    assert (Hrand : (AlgorithmFeeder.randomIndex platform (List.length (k0 :: kws))
                     < List.length (k0 :: kws))%nat).
    { apply randomIndex_lt; [exact Hrandom | simpl; lia]. }
    assert (Hmod : (AlgorithmFeeder.keywordIndex f mod List.length (k0 :: kws)
                    < List.length (k0 :: kws))%nat).
    { apply Nat.mod_upper_bound. discriminate. }
    destruct (activeSearchStrategy (AlgorithmFeeder.config f)) as [[| |]|];
      do 2 eexists; (split; [reflexivity|]); (split; [discriminate|]); intros _;
      first [apply Hpick, Hrand | apply Hpick, Hmod].
Qed.

Lemma selectSearchKeyword_configured_witness :
  exists f' picked,
    AlgorithmFeeder.selectSearchKeyword catPlatform singleFeeder
    = Eff.Returned f' picked
    /\ (keywords (matcher (AlgorithmFeeder.config singleFeeder)) = [] -> picked = None)
    /\ (keywords (matcher (AlgorithmFeeder.config singleFeeder)) <> [] ->
        exists keyword,
          picked = Some keyword
          /\ In keyword (keywords (matcher (AlgorithmFeeder.config singleFeeder)))).
Proof.
  apply (selectSearchKeyword_configured catPlatform singleFeeder).
  split; simpl; [apply Qle_refl | reflexivity].
Defined.

(** X17.  With the sequential strategy, as many successive selections as there
    are keywords, started at a multiple of that number (as in a fresh
    feeder), return every keyword once, in the configured order, and leave
    the index at the next multiple. *)
Theorem selectSearchKeyword_round_robin (platform : AlgorithmFeeder.Platform)
    (f : AlgorithmFeeder.t) :
  activeSearchStrategy (AlgorithmFeeder.config f) = Some sequential ->
  keywords (matcher (AlgorithmFeeder.config f)) <> [] ->
  (AlgorithmFeeder.keywordIndex f
     mod List.length (keywords (matcher (AlgorithmFeeder.config f))) = 0)%nat ->
  selectMany platform (List.length (keywords (matcher (AlgorithmFeeder.config f)))) f
  = Eff.Returned
      (AlgorithmFeeder.setKeywordIndex
         (AlgorithmFeeder.keywordIndex f
          + List.length (keywords (matcher (AlgorithmFeeder.config f)))) f)
      (map Some (keywords (matcher (AlgorithmFeeder.config f)))).
Proof.
  intros Hseq Hkws Hstart.
  rewrite (selectMany_sequential platform _ f Hseq Hkws). f_equal.
  rewrite <- nth_error_seq. apply map_ext_in. intros j Hj.
  apply in_seq in Hj. f_equal.
  rewrite Nat.Div0.add_mod, Hstart. simpl.
  rewrite Nat.Div0.mod_mod. apply Nat.mod_small. lia.
Qed.

Lemma selectSearchKeyword_round_robin_witness :
  selectMany catPlatform 3 sequentialFeeder
  = Eff.Returned (AlgorithmFeeder.setKeywordIndex 6 sequentialFeeder)
                 [Some "cat"; Some "dog"; Some "fox"].
Proof.
  apply (selectSearchKeyword_round_robin catPlatform sequentialFeeder);
    [reflexivity | discriminate | reflexivity].
Defined.

Section FeederQueue.
Import AlgorithmFeeder.

Lemma recordPlay_watched (v : VideoInfo) (d : Z) (k : option string)
    (src : VideoSource) (f : t) :
  HistoryService.hasWatched (historyService (recordPlay v d k src f)) (id v) = true
  /\ forall videoId,
       HistoryService.hasWatched (historyService f) videoId = true ->
       HistoryService.hasWatched (historyService (recordPlay v d k src f)) videoId = true.
Proof.
  unfold recordPlay. cbn [historyService setHistory]. split.
  - match goal with
    | |- HistoryService.hasWatched
           (HistoryService.recordWatch ?s ?x ?e ?kws ?sr ?sid ?sim) _ = true =>
        destruct (records_after_recordWatch s x e kws sr sid sim) as (r & Hrec & Hv & _)
    end.
    rewrite hasWatched_records, Hrec, existsb_app. simpl.
    rewrite Hv, String.eqb_refl. apply orb_true_iff. now right.
  - intros videoId Hw. now apply hasWatched_monotone.
Qed.

Lemma processVideos_drains (platform : Platform) (queue : list VideoInfo) :
  (forall n, exists e, playVideo platform n = PlayOk e) ->
  forall f, exists f',
    processVideos platform queue f = Eff.Returned f' tt /\ drained queue f f'.
Proof.
  intros Hok. induction queue as [|v rest IH]; intros f.
  - exists f. split; [reflexivity|]. unfold drained.
    split; [reflexivity|]. split; [auto|]. split; [intros v []|].
    exists []. rewrite app_nil_r. split; [reflexivity|].
    split; [constructor | intros v []].
  - cbn [processVideos]. unfold Eff.bind at 1. unfold Eff.modify at 1.
    unfold Eff.bind at 1. unfold Eff.get at 1.
    cbn [historyService setVideoQueue].
    destruct (HistoryService.hasWatched (historyService f) (id v)) eqn:Hseen.
    + destruct (IH (setVideoQueue rest f)) as (f' & Hrun & Hq & Hmono & Hall & played
                                               & Hcalls & Hnd & Hplayed).
      exists f'. split; [exact Hrun|]. unfold drained. split.
      { rewrite Hq. simpl. now destruct rest. }
      split; [exact Hmono|]. split.
      { intros x [<- | Hin]; [apply Hmono, Hseen | now apply Hall]. }
      exists played. split; [exact Hcalls|]. split; [exact Hnd|].
      intros x Hx. destruct (Hplayed x Hx) as [Hin Hnew]. split; [now right | exact Hnew].
    + unfold Eff.bind at 1.
      destruct (Hok (List.length (playVideoCalls (setVideoQueue rest f)))) as [e He].
      unfold playTargetVideo, Eff.bind, Eff.get, Eff.tryCatch, Eff.modify.
      rewrite He. cbn [awaitPlay Eff.ret elapsedOf].
      set (f2 := recordPlay v e None home (logPlayVideo v (setVideoQueue rest f))).
      destruct (IH f2) as (f' & Hrun & Hq & Hmono & Hall & played
                           & Hcalls & Hnd & Hplayed).
      destruct (recordPlay_watched v e None home (logPlayVideo v (setVideoQueue rest f)))
        as [Hv Hkeep].
      fold f2 in Hv, Hkeep. cbn [historyService logPlayVideo setVideoQueue] in Hkeep.
      exists f'. split; [exact Hrun|]. unfold drained. split.
      { rewrite Hq. unfold f2, recordPlay. simpl. now destruct rest. }
      split; [intros videoId Hw; apply Hmono, Hkeep, Hw|]. split.
      { intros x [<- | Hin]; [apply Hmono, Hv | now apply Hall]. }
      exists (v :: played). split.
      { rewrite Hcalls. unfold f2, recordPlay. simpl. now rewrite <- app_assoc. }
      split.
      { constructor; [|exact Hnd]. intros Hin. apply in_map_iff in Hin.
        destruct Hin as (x & Hid & Hx). destruct (Hplayed x Hx) as [_ Hnew].
        rewrite Hid, Hv in Hnew. discriminate. }
      intros x [<- | Hx]; [split; [now left | exact Hseen]|].
      destruct (Hplayed x Hx) as [Hin Hnew]. split; [now right|].
      destruct (HistoryService.hasWatched (historyService f) (id x)) eqn:Hold;
        [|reflexivity].
      rewrite (Hkeep _ Hold) in Hnew. discriminate.
Qed.

Lemma length_slice0 {A} (l : list A) (n : Z) :
  (0 <= n)%Z -> (List.length (slice0 l n) <= Z.to_nat n)%nat.
Proof.
  intros Hn. unfold slice0. destruct (Z.ltb_spec n 0); [lia|].
  rewrite length_firstn. lia.
Qed.

Lemma slice0_prefix {A} (l : list A) (n : Z) :
  exists rest, l = slice0 l n ++ rest.
Proof.
  unfold slice0. destruct (n <? 0)%Z; eexists; symmetry; apply firstn_skipn.
Qed.

End FeederQueue.

(** X18.  In single-player mode, when every play succeeds, [processVideoQueue]
    returns with the queue empty and every queued video in the history; it
    plays only queued videos that were not in the history before, and no
    video id twice. *)
Theorem processVideoQueue_plays_each_once (platform : AlgorithmFeeder.Platform)
    (f : AlgorithmFeeder.t) :
  AlgorithmFeeder.isRunning f = true ->
  (forall n, exists e, AlgorithmFeeder.playVideo platform n = PlayOk e) ->
  exists f',
    AlgorithmFeeder.processVideoQueue platform f = Eff.Returned f' tt
    /\ AlgorithmFeeder.videoQueue f' = []
    /\ (forall v, In v (AlgorithmFeeder.videoQueue f) ->
                  HistoryService.hasWatched (AlgorithmFeeder.historyService f') (id v)
                  = true)
    /\ exists played,
         AlgorithmFeeder.playVideoCalls f' = AlgorithmFeeder.playVideoCalls f ++ played
         /\ NoDup (map id played)
         /\ forall v, In v played ->
                      In v (AlgorithmFeeder.videoQueue f)
                      /\ HistoryService.hasWatched (AlgorithmFeeder.historyService f)
                           (id v) = false.
Proof.
  intros Hrun Hok.
  destruct (processVideos_drains platform (AlgorithmFeeder.videoQueue f) Hok f)
    as (f' & Hret & Hq & _ & Hall & Hplayed).
  exists f'. unfold AlgorithmFeeder.processVideoQueue, Eff.bind, Eff.get.
  rewrite Hrun. split; [exact Hret|]. split.
  - rewrite Hq. now destruct (AlgorithmFeeder.videoQueue f).
  - split; [exact Hall | exact Hplayed].
Qed.

Lemma processVideoQueue_plays_each_once_witness :
  exists f',
    AlgorithmFeeder.processVideoQueue catPlatform queuedFeeder = Eff.Returned f' tt
    /\ AlgorithmFeeder.videoQueue f' = []
    /\ (forall v, In v (AlgorithmFeeder.videoQueue queuedFeeder) ->
                  HistoryService.hasWatched (AlgorithmFeeder.historyService f') (id v)
                  = true)
    /\ exists played,
         AlgorithmFeeder.playVideoCalls f'
         = AlgorithmFeeder.playVideoCalls queuedFeeder ++ played
         /\ NoDup (map id played)
         /\ forall v, In v played ->
                      In v (AlgorithmFeeder.videoQueue queuedFeeder)
                      /\ HistoryService.hasWatched
                           (AlgorithmFeeder.historyService queuedFeeder) (id v) = false.
Proof.
  apply (processVideoQueue_plays_each_once catPlatform queuedFeeder eq_refl).
  intros n. exists 30000%Z. reflexivity.
Defined.

(** X19.  A cycle whose recommendations contain targets hands the concurrent
    player a prefix of the matched videos, in order, of at most
    [maxVideosPerQueue] (5 when unset) videos. *)
Theorem cycle_queues_at_most_cap (platform : AlgorithmFeeder.Platform)
    (f : AlgorithmFeeder.t) (pool : ConcurrentPlayer.t) (videos : list VideoInfo) :
  AlgorithmFeeder.getRecommendedVideos platform = Resolved videos ->
  AlgorithmFeeder.simulatedPlaybackManager f = None ->
  AlgorithmFeeder.concurrentPlayer f = Some pool ->
  filter (KeywordMatcher.match_ (matcher (AlgorithmFeeder.config f))) videos <> [] ->
  (0 <= orZ (maxVideosPerQueue (AlgorithmFeeder.config f)) 5)%Z ->
  exists f' pool' added rest,
    AlgorithmFeeder.feedingCycle platform f = Eff.Returned f' tt
    /\ AlgorithmFeeder.concurrentPlayer f' = Some pool'
    /\ map ConcurrentPlayer.video (ConcurrentPlayer.taskQueue pool')
       = map ConcurrentPlayer.video (ConcurrentPlayer.taskQueue pool) ++ added
    /\ filter (KeywordMatcher.match_ (matcher (AlgorithmFeeder.config f))) videos
       = added ++ rest
    /\ (List.length added
        <= Z.to_nat (orZ (maxVideosPerQueue (AlgorithmFeeder.config f)) 5))%nat.
Proof.
  intros Hrec Hsim Hpool Htargets Hcap.
  unfold AlgorithmFeeder.feedingCycle, Eff.tryCatch, Eff.bind, Eff.get.
  rewrite Hrec. cbn [awaitReply Eff.ret].
  destruct (AlgorithmFeeder.queueFull f).
  - exists f, pool, [], (filter (KeywordMatcher.match_ (matcher (AlgorithmFeeder.config f)))
                           videos).
    rewrite app_nil_r. repeat split; [exact Hpool | simpl; lia].
  - remember (filter (KeywordMatcher.match_ (matcher (AlgorithmFeeder.config f))) videos)
      as found eqn:Ht.
    destruct found as [|t0 targets']; [congruence|].
    cbn [List.length Nat.ltb Nat.leb].
    set (targets := t0 :: targets').
    unfold Eff.modify at 1. unfold AlgorithmFeeder.admitTargets, Eff.bind, Eff.get.
    cbn [AlgorithmFeeder.simulatedPlaybackManager AlgorithmFeeder.concurrentPlayer
         AlgorithmFeeder.setMissedRounds AlgorithmFeeder.config].
    rewrite Hsim, Hpool. unfold Eff.modify.
    set (cap := orZ (maxVideosPerQueue (AlgorithmFeeder.config f)) 5) in *.
    destruct (slice0_prefix targets cap) as [rest Hrest].
    do 2 eexists. exists (AlgorithmFeeder.slice0 targets cap), rest.
    split; [reflexivity|]. split; [reflexivity|]. split.
    { unfold ConcurrentPlayer.addToQueue. simpl. now rewrite map_app, newTasks_videos. }
    split; [exact Hrest|].
    now apply length_slice0.
Qed.

Lemma cycle_queues_at_most_cap_witness :
  exists f' pool' added rest,
    AlgorithmFeeder.feedingCycle manyCats concurrentFeeder = Eff.Returned f' tt
    /\ AlgorithmFeeder.concurrentPlayer f' = Some pool'
    /\ map ConcurrentPlayer.video (ConcurrentPlayer.taskQueue pool')
       = map ConcurrentPlayer.video (ConcurrentPlayer.taskQueue onePlayerPool) ++ added
    /\ filter (KeywordMatcher.match_ (matcher (AlgorithmFeeder.config concurrentFeeder)))
              [catClipNo "1"; catClipNo "2"; catClipNo "3"; catClipNo "4";
               catClipNo "5"; catClipNo "6"; catClipNo "7"]
       = added ++ rest
    /\ (List.length added <= 5)%nat.
Proof.
  apply (cycle_queues_at_most_cap manyCats concurrentFeeder onePlayerPool
           [catClipNo "1"; catClipNo "2"; catClipNo "3"; catClipNo "4";
            catClipNo "5"; catClipNo "6"; catClipNo "7"]
           eq_refl eq_refl eq_refl).
  - vm_compute. discriminate.
  - vm_compute. discriminate.
Defined.

(** ** The run of a simulated playback *)

Section PlaybackRunRules.
Import BilibiliPlaybackRun.









End PlaybackRunRules.

Section PlaybackRunFacts.
Import BilibiliPlaybackRun.
Local Open Scope Q_scope.

Variable random : nat -> Q.

Lemma ltb_true (x y : Q) : ltb x y = true <-> x < y.
Proof.
  unfold ltb. rewrite negb_true_iff. split.
  - intros H. apply Qnot_le_lt. intros Hle. apply Qle_bool_iff in Hle. congruence.
  - intros H. destruct (Qle_bool y x) eqn:E; [|reflexivity].
    apply Qle_bool_iff in E. apply Qle_not_lt in E. contradiction.
Qed.

Lemma ltb_false (x y : Q) : ltb x y = false <-> y <= x.
Proof.
  unfold ltb. rewrite negb_false_iff. apply Qle_bool_iff.
Qed.

Lemma baseHeartbeatInterval_min (sim : BilibiliPlaybackSimulator.t) :
  (5 <= baseHeartbeatInterval sim)%Z.
Proof. unfold baseHeartbeatInterval. lia. Qed.


Lemma durationVariation_new (s v : Q) :
  0 <= BilibiliPlaybackSimulator.durationVariation (BilibiliPlaybackSimulator.new s v)
    <= 50.
Proof.
  simpl. split; [apply Q.le_max_l|].
  apply Q.max_lub; [lra | apply Q.le_min_r].
Qed.


(** *** Totality when the video info carries a duration *)





End PlaybackRunFacts.

Section PlaybackRunErrors.
Import BilibiliPlaybackRun.
Local Open Scope Q_scope.

Variable random : nat -> Q.

Lemma sendHeartbeat_throws (videoInfo : BilibiliPlaybackSimulator.ResolvedVideo)
    (playedTime : Q) (s : Trace) :
  BilibiliPlaybackSimulator.resolvedDuration videoInfo = None ->
  exists s',
    sendHeartbeat random videoInfo playedTime s = Eff.Thrown s'
    /\ heartbeats s' = heartbeats s /\ historyReports s' = historyReports s
    /\ sleeps s' = sleeps s.
Proof.
  intros Hd. unfold sendHeartbeat, Eff.bind, mathRandom. rewrite Hd.
  eexists. split; [reflexivity|]. repeat split.
Qed.

Lemma heartbeatSteps_throws (sim : BilibiliPlaybackSimulator.t)
    (videoInfo : BilibiliPlaybackSimulator.ResolvedVideo) (stepWaitTime : Q)
    (count : nat) (i : Z) (s : Trace) :
  BilibiliPlaybackSimulator.resolvedDuration videoInfo = None ->
  exists s',
    heartbeatSteps random sim videoInfo stepWaitTime (S count) i s = Eff.Thrown s'
    /\ heartbeats s' = heartbeats s /\ historyReports s' = historyReports s.
Proof.
  intros Hd. cbn [heartbeatSteps]. unfold Eff.bind at 1.
  unfold heartbeatStep. unfold Eff.bind at 1. unfold mathRandom at 1.
  unfold Eff.bind at 1.
  match goal with
  | |- context [sendHeartbeat random videoInfo ?t ?s0] =>
      destruct (sendHeartbeat_throws videoInfo t s0 Hd) as (s' & Hrun & Hh & Hr & _);
      rewrite Hrun
  end.
  exists s'. split; [reflexivity|]. split; assumption.
Qed.

Lemma floor_small (x y : Q) :
  0 <= x -> x < y -> Qfloor (x / y) = 0%Z.
Proof.
  intros Hx Hy.
  assert (Hq : 0 <= x / y) by (apply Qle_shift_div_l; lra).
  assert (Hq1 : x / y < 1) by (apply Qlt_shift_div_r; lra).
  assert (H0 : (Qfloor 0 <= Qfloor (x / y))%Z) by now apply Qfloor_resp_le.
  change (Qfloor 0) with 0%Z in H0.
  assert (H1 : (Qfloor (x / y) < 1)%Z).
  { rewrite Zlt_Qlt. apply Qle_lt_trans with (x / y); [apply Qfloor_le | exact Hq1]. }
  lia.
Qed.

Lemma remainder_small (x y : Q) :
  0 < x -> x < y -> ltb 0 (remainder x y) = true.
Proof.
  intros Hx Hy. apply ltb_true. unfold remainder, trunc.
  assert (Hq : 0 <= x / y) by (apply Qle_shift_div_l; lra).
  replace (ltb (x / y) 0) with false by (symmetry; now apply ltb_false).
  rewrite (floor_small x y); [|lra | exact Hy].
  unfold inject_Z. lra.
Qed.

Lemma simulatePlaybackHeartbeat_throws (sim : BilibiliPlaybackSimulator.t)
    (videoInfo : BilibiliPlaybackSimulator.ResolvedVideo)
    (simulatedDuration actualWaitTime : Q) (s : Trace) :
  BilibiliPlaybackSimulator.resolvedDuration videoInfo = None ->
  0 < simulatedDuration ->
  exists s',
    simulatePlaybackHeartbeat random sim videoInfo simulatedDuration actualWaitTime s
    = Eff.Thrown s'
    /\ heartbeats s' = heartbeats s /\ historyReports s' = historyReports s.
Proof.
  intros Hd Hpos. unfold simulatePlaybackHeartbeat.
  pose proof (baseHeartbeatInterval_min sim) as Hbase.
  set (base := baseHeartbeatInterval sim) in *.
  assert (HB : 5 <= inject_Z base).
  { change 5 with (inject_Z 5). now rewrite <- Zle_Qle. }
  destruct (Z.to_nat (Qfloor (simulatedDuration / inject_Z base))) as [|count] eqn:Hsteps.
  - cbn [heartbeatSteps]. unfold Eff.bind at 1. unfold Eff.ret at 1.
    assert (Hlt : simulatedDuration < inject_Z base).
    { apply Qnot_le_lt. intros Hle.
      assert (H1 : (Qfloor 1 <= Qfloor (simulatedDuration / inject_Z base))%Z).
      { apply Qfloor_resp_le. apply Qle_shift_div_l; lra. }
      change (Qfloor 1) with 1%Z in H1. lia. }
    rewrite (remainder_small _ _ Hpos Hlt).
    unfold Eff.bind at 1. unfold mathRandom at 1.
    match goal with
    | |- context [sendHeartbeat random videoInfo ?t ?s0] =>
        destruct (sendHeartbeat_throws videoInfo t s0 Hd) as (s' & Hrun & Hh & Hr & _);
        rewrite Hrun
    end.
    exists s'. split; [reflexivity|]. split; assumption.
  - unfold Eff.bind at 1.
    match goal with
    | |- context [heartbeatSteps random sim videoInfo ?w (S count) ?i s] =>
        destruct (heartbeatSteps_throws sim videoInfo w count i s Hd)
          as (s' & Hrun & Hh & Hr);
        rewrite Hrun
    end.
    exists s'. split; [reflexivity|]. split; assumption.
Qed.

Lemma randomVariation_positive (s v rnd : Q) :
  0 <= rnd ->
  0 < BilibiliPlaybackSimulator.randomVariation (BilibiliPlaybackSimulator.new s v) rnd.
Proof.
  intros Hrnd. destruct (durationVariation_new s v) as [H0 H50].
  unfold BilibiliPlaybackSimulator.randomVariation.
  set (dv := BilibiliPlaybackSimulator.durationVariation
               (BilibiliPlaybackSimulator.new s v)) in *.
  assert (Hh : 0 <= dv / 100 / 2 <= 1 # 4).
  { split.
    - apply Qle_shift_div_l; [lra|]. rewrite Qmult_0_l.
      apply Qle_shift_div_l; lra.
    - apply Qle_shift_div_r; [lra|]. apply Qle_shift_div_r; lra. }
  set (h := dv / 100 / 2) in *. nra.
Qed.

End PlaybackRunErrors.



(** X21.  When the video-info reply carries no duration, the first heartbeat
    throws while its form is built: for a positive nominal duration
    [simulatePlayback] then returns 0, having posted neither a heartbeat
    nor a history report, although step 2.6 had fallen back to 3600 seconds
    for the missing duration. *)
Theorem simulatePlayback_missing_duration (random : nat -> Q) (speed variation : Q)
    (nominal : Q) (wait : option Q)
    (videoInfo : BilibiliPlaybackSimulator.ResolvedVideo)
    (s : BilibiliPlaybackRun.Trace) :
  (forall k, BilibiliPlaybackSimulator.isRandom (random k)) ->
  (0 < nominal)%Q ->
  BilibiliPlaybackSimulator.resolvedDuration videoInfo = None ->
  exists s',
    BilibiliPlaybackRun.simulatePlayback random
      (BilibiliPlaybackSimulator.new speed variation) nominal wait
      (Resolved tt) (Resolved videoInfo) s
    = Eff.Returned s' 0%Q
    /\ BilibiliPlaybackRun.heartbeats s' = BilibiliPlaybackRun.heartbeats s
    /\ BilibiliPlaybackRun.historyReports s' = BilibiliPlaybackRun.historyReports s
    /\ (0 < BilibiliPlaybackSimulator.safeSimulatedDuration
              (BilibiliPlaybackSimulator.new speed variation) nominal
              (Resolved tt) (Resolved videoInfo)
              (random (1 + BilibiliPlaybackRun.drawn s)%nat)
              (random (2 + BilibiliPlaybackRun.drawn s)%nat))%Q.
Proof.
  intros Hrandom Hpos Hd.
  assert (Hsafe : forall rv rb,
             (0 <= rv)%Q ->
             (0 < Qmin (nominal * BilibiliPlaybackSimulator.randomVariation
                                    (BilibiliPlaybackSimulator.new speed variation) rv)
                       (BilibiliPlaybackSimulator.maxSafeSimulatedDuration videoInfo rb))%Q).
  { intros rv rb Hrv. apply Q.min_glb_lt.
    - pose proof (randomVariation_positive speed variation rv Hrv) as Hv.
      set (x := BilibiliPlaybackSimulator.randomVariation _ rv) in *. nra.
    - unfold BilibiliPlaybackSimulator.maxSafeSimulatedDuration.
      apply Qlt_le_trans with 5%Q; [lra | apply Q.le_max_l]. }
  unfold BilibiliPlaybackRun.simulatePlayback, Eff.tryCatch.
  unfold Eff.bind at 1. unfold BilibiliPlaybackRun.visitVideoPage.
  unfold Eff.bind at 1. unfold BilibiliPlaybackRun.mathRandom at 1.
  unfold Eff.bind at 1. unfold BilibiliPlaybackRun.sleep at 1. unfold Eff.modify at 1.
  cbn [awaitReply Eff.ret]. unfold Eff.bind at 1. cbn [awaitReply Eff.ret].
  unfold Eff.bind at 1. unfold BilibiliPlaybackRun.mathRandom at 1.
  unfold Eff.bind at 1. unfold BilibiliPlaybackRun.mathRandom at 1.
  cbn [BilibiliPlaybackRun.drawn BilibiliPlaybackRun.heartbeats
       BilibiliPlaybackRun.historyReports BilibiliPlaybackRun.sleeps].
  unfold Eff.bind at 1.
  match goal with
  | |- context [BilibiliPlaybackRun.simulatePlaybackHeartbeat random ?sm videoInfo
                  ?dur ?w ?s0] =>
      destruct (simulatePlaybackHeartbeat_throws random sm videoInfo dur w s0 Hd)
        as (s1 & Hrun & Hh & Hrep);
      [apply Hsafe, (Hrandom _) | rewrite Hrun]
  end.
  unfold Eff.ret. exists s1. split; [reflexivity|].
  split; [exact Hh|]. split; [exact Hrep|].
  simpl. apply Hsafe, (Hrandom _).
Qed.

Lemma simulatePlayback_missing_duration_witness :
  exists s',
    BilibiliPlaybackRun.simulatePlayback (fun _ => 1 # 2)
      (BilibiliPlaybackSimulator.new 2 5) 30 None (Resolved tt)
      (Resolved noDurationVideo) (BilibiliPlaybackRun.mkTrace 0 [] [] [])
    = Eff.Returned s' 0%Q
    /\ BilibiliPlaybackRun.heartbeats s' = []
    /\ BilibiliPlaybackRun.historyReports s' = []
    /\ (0 < BilibiliPlaybackSimulator.safeSimulatedDuration
              (BilibiliPlaybackSimulator.new 2 5) 30 (Resolved tt)
              (Resolved noDurationVideo) (1 # 2) (1 # 2))%Q.
Proof.
  apply (simulatePlayback_missing_duration (fun _ => 1 # 2) 2 5 30 None noDurationVideo
           (BilibiliPlaybackRun.mkTrace 0 [] [] [])).
  - intros k. split; vm_compute; congruence.
  - reflexivity.
  - reflexivity.
Defined.

Section PlaybackRunHeartbeats.
Import BilibiliPlaybackRun.
Local Open Scope Q_scope.

Variable random : nat -> Q.
Hypothesis Hrandom : forall k, BilibiliPlaybackSimulator.isRandom (random k).







End PlaybackRunHeartbeats.





(** ** Searching the history *)

Section HistorySearchFacts.
Import JsString.

Lemma toLowerCase_app (a b : string) :
  toLowerCase (a ++ b) = (toLowerCase a ++ toLowerCase b)%string.
Proof.
  induction a as [|c a IH]; simpl; [reflexivity | now rewrite IH].
Qed.

Lemma searchText_starts_with_title (record : HistoryService.WatchHistory) :
  exists post,
    HistorySearch.searchText record
    = (toLowerCase (title (HistoryService.video record)) ++ post)%string.
Proof.
  unfold HistorySearch.searchText, join. cbn [String.concat].
  rewrite toLowerCase_app. eauto.
Qed.

End HistorySearchFacts.

(** X24.  A search of the history for the title of a video just recorded, in
    any letter case, returns the new record first. *)
Theorem searchHistory_finds_last_record (store : HistoryService.t) (v : VideoInfo)
    (d : Z) (kws : list string) (src : VideoSource) (sid : string)
    (sim : option HistoryService.SimulatedData) (query : string) :
  JsString.toLowerCase query = JsString.toLowerCase (title v) ->
  exists record older,
    HistorySearch.searchHistory
      (HistoryService.recordWatch store v d kws src sid sim) query
    = record :: older
    /\ HistoryService.video record = v
    /\ HistoryService.sessionId record = sid
    /\ older = HistorySearch.searchHistory store query.
Proof.
  intros Hquery.
  destruct (records_after_recordWatch store v d kws src sid sim)
    as (r & Hrec & Hv & _ & Hs & _).
  exists r, (HistorySearch.searchHistory store query).
  unfold HistorySearch.searchHistory. rewrite Hrec, filter_app, rev_app_distr.
  cbn [filter].
  destruct (searchText_starts_with_title r) as [post Hpost].
  assert (Hin : JsString.includes (HistorySearch.searchText r)
                                  (JsString.toLowerCase query) = true).
  { apply includes_spec. exists ""%string, post. rewrite Hquery, Hpost, Hv. reflexivity. }
  rewrite Hin. simpl. repeat split; assumption.
Qed.

Lemma searchHistory_finds_last_record_witness :
  exists record older,
    HistorySearch.searchHistory
      (HistoryService.recordWatch watchedStore dogClip 100 [] home "session-2" None)
      "DOG VIDEO"
    = record :: older
    /\ HistoryService.video record = dogClip
    /\ HistoryService.sessionId record = "session-2"%string
    /\ older = HistorySearch.searchHistory watchedStore "DOG VIDEO".
Proof.
  apply (searchHistory_finds_last_record watchedStore dogClip 100 [] home "session-2"
           None "DOG VIDEO").
  reflexivity.
Defined.

(** ** Recommendations of the Bilibili platform *)

Section ShuffleFacts.
Import BilibiliPlatform.
Context {A : Type}.

Lemma floor_index_lt (r : Q) (n : nat) :
  BilibiliPlaybackSimulator.isRandom r -> (0 < n)%nat ->
  (Z.to_nat (Qfloor (r * inject_Z (Z.of_nat n))) < n)%nat.
Proof.
  intros [Hlo Hhi] Hn.
  set (q := inject_Z (Z.of_nat n)).
  assert (Hq : (0 < q)%Q).
  { unfold q. change 0%Q with (inject_Z 0). rewrite <- Zlt_Qlt. lia. }
  assert (H0 : (Qfloor 0 <= Qfloor (r * q))%Z).
  { apply Qfloor_resp_le. apply Qmult_le_0_compat; [exact Hlo | now apply Qlt_le_weak]. }
  change (Qfloor 0) with 0%Z in H0.
  assert (H1 : (Qfloor (r * q) < Z.of_nat n)%Z).
  { rewrite Zlt_Qlt. apply Qle_lt_trans with (r * q)%Q; [apply Qfloor_le|].
    fold q. nra. }
  lia.
Qed.

Lemma replace_later (x b : A) (j : nat) (rest : list A) :
  nth_error rest j = Some b ->
  Permutation (b :: updateAt j (fun _ => x) rest) (x :: rest).
Proof.
  revert j. induction rest as [|y rest IH]; intros [|j] Hj; simpl in *;
    try discriminate.
  - injection Hj as ->. apply perm_swap.
  - apply Permutation_trans with (y :: b :: updateAt j (fun _ => x) rest);
      [apply perm_swap|].
    apply Permutation_trans with (y :: x :: rest); [|apply perm_swap].
    apply perm_skip, IH, Hj.
Qed.

Lemma swap_same (i : nat) (shuffled : list A) : swap i i shuffled = shuffled.
Proof.
  unfold swap. destruct (nth_error shuffled i) as [a|] eqn:Hi; [|reflexivity].
  revert i Hi. induction shuffled as [|x rest IH]; intros [|i] Hi; simpl in *;
    try discriminate.
  - now injection Hi as ->.
  - f_equal. now apply IH.
Qed.

Lemma swap_permutation (i j : nat) (shuffled : list A) :
  Permutation (swap i j shuffled) shuffled.
Proof.
  destruct (Nat.eq_dec i j) as [->|Hne]; [now rewrite swap_same|].
  unfold swap.
  destruct (nth_error shuffled i) as [a|] eqn:Hi; [|reflexivity].
  destruct (nth_error shuffled j) as [b|] eqn:Hj; [|reflexivity].
  revert i j Hne Hi Hj.
  induction shuffled as [|x rest IH]; intros [|i] [|j] Hne Hi Hj; simpl in *;
    try discriminate; try congruence.
  - injection Hi as ->. now apply replace_later.
  - injection Hj as ->.
    apply Permutation_trans with (a :: updateAt i (fun _ => b) rest).
    + apply Permutation_refl.
    + now apply replace_later.
  - apply perm_skip. apply IH; [congruence | assumption | assumption].
Qed.

Lemma shuffleLoop_permutation (random : nat -> Q) (drawn i : nat) (shuffled : list A) :
  Permutation (shuffleLoop random drawn i shuffled) shuffled.
Proof.
  revert drawn shuffled. induction i as [|i IH]; intros drawn shuffled; simpl.
  - apply Permutation_refl.
  - eapply Permutation_trans; [apply IH | apply swap_permutation].
Qed.

(** Within the loop every index drawn lies within the part of the array
    still to be shuffled. *)
Lemma shuffle_index_in_range (random : nat -> Q) (drawn i : nat) :
  BilibiliPlaybackSimulator.isRandom (random drawn) ->
  (Z.to_nat (Qfloor (random drawn * inject_Z (Z.of_nat (i + 1)))) <= i)%nat.
Proof.
  intros Hr. pose proof (floor_index_lt (random drawn) (i + 1) Hr). lia.
Qed.

End ShuffleFacts.

(** X25.  [shuffleArray] loses and duplicates nothing: its result is a
    permutation of its argument (and so has the same length), and every swap
    it makes stays within the array. *)
Theorem shuffleArray_permutation {A : Type} (random : nat -> Q) (array : list A) :
  (forall k, BilibiliPlaybackSimulator.isRandom (random k)) ->
  Permutation (BilibiliPlatform.shuffleArray random array) array
  /\ List.length (BilibiliPlatform.shuffleArray random array) = List.length array
  /\ forall drawn i,
       (i < List.length array)%nat ->
       (Z.to_nat (Qfloor (random drawn * inject_Z (Z.of_nat (i + 1))))
        < List.length array)%nat.
Proof.
  intros Hrandom.
  assert (Hperm : Permutation (BilibiliPlatform.shuffleArray random array) array)
    by apply shuffleLoop_permutation.
  split; [exact Hperm|]. split; [now apply Permutation_length|].
  intros drawn i Hi.
  pose proof (shuffle_index_in_range random drawn i (Hrandom drawn)). lia.
Qed.

Lemma shuffleArray_permutation_witness :
  Permutation
    (BilibiliPlatform.shuffleArray (fun k => if Nat.even k then 1 # 3 else 3 # 4)
       [catClip; dogClip; catClipNo "1"; catClipNo "2"])
    [catClip; dogClip; catClipNo "1"; catClipNo "2"].
Proof.
  refine (proj1 (shuffleArray_permutation (fun k => if Nat.even k then 1 # 3 else 3 # 4)
                   [catClip; dogClip; catClipNo "1"; catClipNo "2"] _)).
  intros k. destruct (Nat.even k); split; vm_compute; congruence.
Defined.

Lemma fetchVideos_keeps_state (api : BilibiliPlatform.Api) (p : BilibiliPlatform.t) :
  BilibiliPlatform.currentVideoSource p <> BilibiliPlatform.fromRelated ->
  Eff.finalState (BilibiliPlatform.fetchVideos api p) = p.
Proof.
  intros Hsrc. unfold BilibiliPlatform.fetchVideos, Eff.bind, Eff.get.
  destruct (BilibiliPlatform.currentVideoSource p); [| congruence |].
  - now destruct (BilibiliPlatform.getHomeFeedRecommendations api).
  - now destruct (BilibiliPlatform.getShortVideoFeed api).
Qed.

(** X26.  [getRecommendedVideos] never throws: when a request of the API fails
    it answers the empty list, and otherwise a permutation of the videos the
    API returned; the related source falls back to the home feed, and
    switches the source to home, when no video was played yet or no related
    video came back. *)
Theorem getRecommendedVideos_never_throws (api : BilibiliPlatform.Api)
    (random : nat -> Q) (p : BilibiliPlatform.t) :
  exists p' videos,
    BilibiliPlatform.getRecommendedVideos api random p = Eff.Returned p' videos
    /\ match BilibiliPlatform.fetchVideos api p with
       | Eff.Returned p1 fetched => p' = p1 /\ Permutation videos fetched
       | Eff.Thrown p1 => p' = p1 /\ videos = []
       end
    /\ (BilibiliPlatform.currentVideoSource p <> BilibiliPlatform.fromRelated ->
        p' = p)
    /\ (BilibiliPlatform.currentVideoSource p = BilibiliPlatform.fromRelated ->
        BilibiliPlatform.lastPlayedVideoId p = None ->
        forall home,
          BilibiliPlatform.getHomeFeedRecommendations api = Resolved home ->
          BilibiliPlatform.currentVideoSource p' = BilibiliPlatform.fromHome
          /\ Permutation videos home).
Proof.
  unfold BilibiliPlatform.getRecommendedVideos, Eff.tryCatch.
  unfold Eff.bind at 1.
  destruct (BilibiliPlatform.fetchVideos api p) as [p1 fetched|p1] eqn:Hfetch.
  - exists p1, (BilibiliPlatform.shuffleArray random fetched).
    split; [reflexivity|].
    assert (Hperm : Permutation (BilibiliPlatform.shuffleArray random fetched) fetched)
      by apply shuffleLoop_permutation.
    split; [now split|]. split.
    + intros Hsrc. pose proof (fetchVideos_keeps_state api p Hsrc) as Hkeep.
      rewrite Hfetch in Hkeep. exact Hkeep.
    + intros Hsrc Hlast home Hhome.
      unfold BilibiliPlatform.fetchVideos, Eff.bind, Eff.get in Hfetch.
      rewrite Hsrc, Hlast, Hhome in Hfetch. cbv in Hfetch.
      injection Hfetch as <- <-. split; [reflexivity | exact Hperm].
  - exists p1, []. split; [reflexivity|]. split; [now split|]. split.
    + intros Hsrc. pose proof (fetchVideos_keeps_state api p Hsrc) as Hkeep.
      rewrite Hfetch in Hkeep. exact Hkeep.
    + intros Hsrc Hlast home Hhome.
      unfold BilibiliPlatform.fetchVideos, Eff.bind, Eff.get in Hfetch.
      rewrite Hsrc, Hlast, Hhome in Hfetch. cbv in Hfetch. discriminate.
Qed.

Lemma getRecommendedVideos_never_throws_witness :
  exists p' videos,
    BilibiliPlatform.getRecommendedVideos homeFeedOnly (fun _ => 1 # 2)
      relatedBeforeAnyPlay = Eff.Returned p' videos
    /\ BilibiliPlatform.currentVideoSource p' = BilibiliPlatform.fromHome
    /\ Permutation videos [catClip; dogClip].
Proof.
  destruct (getRecommendedVideos_never_throws homeFeedOnly (fun _ => 1 # 2)
              relatedBeforeAnyPlay) as (p' & videos & Hrun & _ & _ & Hfall).
  exists p', videos. split; [exact Hrun|].
  apply Hfall; reflexivity.
Defined.

(** ** Stopping the pool *)

Section PoolStopFacts.
Import ConcurrentPlayer.

Lemma poll_when_stopped (now : Z) (w : nat) (st : St) :
  isRunning (snd st) = false -> playerWorker_poll now w st = st.
Proof.
  intros Hrun. destruct st as [history pool]. simpl in Hrun.
  unfold playerWorker_poll. destruct (nth_error (players pool) w); [|reflexivity].
  now rewrite Hrun.
Qed.

Lemma resume_keeps_running_and_calls (w : nat) (r : PlayResult) (st : St) :
  isRunning (snd (Eff.finalState (playerWorker_resume w r st))) = isRunning (snd st)
  /\ playVideoCalls (snd (Eff.finalState (playerWorker_resume w r st)))
     = playVideoCalls (snd st).
Proof.
  rewrite resume_pool.
  destruct (nth_error (players (snd st)) w) as [player|]; [|split; reflexivity].
  destruct (currentTask player) as [i|]; [|split; reflexivity].
  cbv zeta. destruct (nth_error _ i); split; reflexivity.
Qed.

End PoolStopFacts.

(** X27.  Once [stop] has cleared [isRunning], and until it drops the players,
    no worker takes a task any more: whatever is admitted and however the
    workers move, the pool stays stopped, no further play is handed to the
    platform, and a turn of a worker's loop changes nothing. *)
Theorem stopped_pool_starts_no_play (events : list PoolStatus.Event)
    (history : HistoryService.t) (pool : ConcurrentPlayer.t) :
  let st' := PoolStatus.life events (history, PoolStop.requestStop pool) in
  ConcurrentPlayer.isRunning (snd st') = false
  /\ ConcurrentPlayer.playVideoCalls (snd st') = ConcurrentPlayer.playVideoCalls pool
  /\ forall now w, ConcurrentPlayer.playerWorker_poll now w st' = st'.
Proof.
  cbv zeta.
  assert (Hinv : ConcurrentPlayer.isRunning
                   (snd (PoolStatus.life events (history, PoolStop.requestStop pool)))
                 = false
                 /\ ConcurrentPlayer.playVideoCalls
                      (snd (PoolStatus.life events (history, PoolStop.requestStop pool)))
                    = ConcurrentPlayer.playVideoCalls pool).
  { apply (life_invariant
             (fun st => ConcurrentPlayer.isRunning (snd st) = false
                        /\ ConcurrentPlayer.playVideoCalls (snd st)
                           = ConcurrentPlayer.playVideoCalls pool)).
    - intros e st [Hrun Hcalls]. destruct e as [videos kws src | [w now | w r]]; simpl.
      + split; assumption.
      + rewrite (poll_when_stopped now w st Hrun). split; assumption.
      + destruct (resume_keeps_running_and_calls w r st) as [-> ->].
        split; assumption.
    - split; reflexivity. }
  destruct Hinv as [Hrun Hcalls]. split; [exact Hrun|]. split; [exact Hcalls|].
  intros now w. now apply poll_when_stopped.
Qed.
